(** * TimeSeriesLoader (nixtla/data/tsloader.py): windowing and sampling engine

    A shallow embedding of the loader of [src/nixtla/data/tsloader.py] and the
    properties of its construction, series-level and window-level eligibility
    filters, windowing engine, batch sampler and iteration protocol.

    Conventions of the embedding.
    - Python [int] attributes are [Z]; positions in arrays are [nat].
    - A numpy/torch array is a nested list; entries are [Z] (the two mask
      channels hold 0/1 values, and the sums the loader takes of them are
      exact).  Arrays are rectangular by construction in Python; here that is
      a well-formedness predicate.
    - A raised exception is the [Raise] branch of [result].
    - The process-wide numpy random source is an explicit [RandomState]. *)

From Stdlib Require Import String ZArith Bool Arith Lia List.
Import ListNotations.
Open Scope string_scope.
Open Scope list_scope.
Open Scope Z_scope.

(** ** Exceptions and fallible computations *)

(** The places of the loader that raise on purpose. *)
Inductive site : Type :=
| InsufficientLenOfSampleChunks   (* raise Exception(f'Insufficient len of sample chunks ...') *)
| BatchSizeNotMultiple            (* assert batch_size % n_series_per_batch == 0 *)
| NSeriesPerBatchTooLarge         (* assert n_series_per_batch <= n_series *)
| NoBatchStrategy                 (* raise Exception(f'There is no batch strategy for ...') *)
| EmptySampleIdxs.                (* assert sampling_idx.size > 0 *)

Inductive exn : Type :=
| Exception (s : site)
| AssertionError (s : site)
| ZeroDivisionError
| ValueError
| IndexError
| AttributeError
| RuntimeError
| StoreError.                     (* whatever the series store raises *)

Inductive result (A : Type) : Type :=
| Ok (a : A)
| Raise (e : exn).
Arguments Ok {A} a.
Arguments Raise {A} e.

Definition bind {A B : Type} (c : result A) (k : A -> result B) : result B :=
  match c with
  | Ok a => k a
  | Raise e => Raise e
  end.

Notation "x <- c ;; k" := (bind c (fun x => k))
  (at level 61, c at next level, right associativity).
Notation "' pat <- c ;; k" := (bind c (fun x => match x with pat => k end))
  (at level 61, pat pattern, c at next level, right associativity).

(** [assert cond, msg] *)
Definition py_assert (cond : bool) (s : site) : result unit :=
  if cond then Ok tt else Raise (AssertionError s).

(** The error taxonomy of the specification, as classes of the exceptions
    the source raises. *)
Definition ConfigurationError (e : exn) : Prop :=
  e = Exception InsufficientLenOfSampleChunks \/
  e = AssertionError BatchSizeNotMultiple \/
  e = AssertionError NSeriesPerBatchTooLarge \/
  e = Exception NoBatchStrategy.

Definition DataError (e : exn) : Prop :=
  e = AssertionError EmptySampleIdxs.

Fixpoint mapM {A B : Type} (f : A -> result B) (l : list A) : result (list B) :=
  match l with
  | [] => Ok []
  | a :: l' => b <- f a ;; bs <- mapM f l' ;; Ok (b :: bs)
  end.

(** ** Python and array primitives *)

(** [a % b] on ints: the sign of the result follows the divisor. *)
Definition py_mod (a b : Z) : result Z :=
  if b =? 0 then Raise ZeroDivisionError else Ok (a mod b).

(** [int(np.ceil(a / b))]: true division, then ceiling. *)
Definition py_ceil_div (a b : Z) : result Z :=
  if b =? 0 then Raise ZeroDivisionError else Ok (- ((- a) / b)).

(** [l.index(x)] *)
Fixpoint list_index (x : string) (l : list string) : result nat :=
  match l with
  | [] => Raise ValueError
  | y :: l' =>
      if String.eqb y x then Ok 0%nat
      else n <- list_index x l' ;; Ok (S n)
  end.

(** [x in l] for a list of strings *)
Definition py_in (x : string) (l : list string) : bool :=
  existsb (String.eqb x) l.

(** Clamping of one slice bound against a length, as Python does it. *)
Definition slice_bound (n : nat) (i : Z) : nat :=
  if i <? 0 then Z.to_nat (Z.max (i + Z.of_nat n) 0)
  else Z.to_nat (Z.min i (Z.of_nat n)).

(** [l[start:stop]] with optional bounds (step 1). *)
Definition py_slice {A : Type} (start stop : option Z) (l : list A) : list A :=
  let n := length l in
  let lo := match start with Some i => slice_bound n i | None => 0%nat end in
  let hi := match stop with Some i => slice_bound n i | None => n end in
  firstn (hi - lo) (skipn lo l).

Definition sumZ (l : list Z) : Z := fold_right Z.add 0 l.

(** [a[i]] along the first axis. *)
Definition get {A : Type} (l : list A) (i : nat) : result A :=
  match nth_error l i with
  | Some a => Ok a
  | None => Raise IndexError
  end.

(** [a[idxs]]: indexing by an integer array. *)
Definition take {A : Type} (l : list A) (idxs : list nat) : result (list A) :=
  mapM (get l) idxs.

(** Positions of the true entries of a boolean vector, in increasing order:
    [np.argwhere(v).reshape(1, -1)[0]] and [t.nonzero(v).flatten()]. *)
Fixpoint nonzero_from (i : nat) (v : list bool) : list nat :=
  match v with
  | [] => []
  | b :: v' => if b then i :: nonzero_from (S i) v' else nonzero_from (S i) v'
  end.

Definition nonzero (v : list bool) : list nat := nonzero_from 0 v.

(** [a.repeat(repeats=k, axis=0)]: every row repeated [k] times in place. *)
Definition np_repeat {A : Type} (k : nat) (l : list A) : list A :=
  flat_map (fun a => repeat a k) l.

(** ** The series store (external collaborator) *)

Definition Tensor3 : Type := list (list (list Z)).

(** The attributes and the one method of [TimeSeriesDataset] the loader uses.
    [get_filtered_ts_tensor output_size window_sampling_limit ts_idxs] belongs
    to the store; only the tensor of its result pair is used by the loader,
    and the result is [None] when the store raises. *)
Record TimeSeriesDataset : Type := {
  t_cols : list string;
  n_series : Z;
  n_channels : nat;
  ts_tensor : Tensor3;
  s_matrix : list (list Z);
  get_filtered_ts_tensor : Z -> Z -> option (list nat) -> option Tensor3
}.

(** A call into the store: [None] stands for an exception of the store. *)
Definition call_store {A : Type} (o : option A) : result A :=
  match o with
  | Some a => Ok a
  | None => Raise StoreError
  end.

(** ** The loader *)

Record TimeSeriesLoader : Type := {
  ts_dataset : TimeSeriesDataset;
  model : string;
  window_sampling_limit : Z;
  input_size : Z;
  output_size : Z;
  idx_to_sample_freq : Z;
  batch_size : Z;
  complete_inputs : bool;
  shuffle : bool;
  len_sample_chunks : Z;
  n_series_per_batch : Z;
  verbose : bool;
  windows_size : Z;
  padding : Z * Z;
  sampleable_ts_idxs : list nat;
  n_sampleable_ts : Z;
  n_batches : Z
}.

(** Attribute assignments made after the first block of [__init__]. *)
Definition set_windows (self : TimeSeriesLoader) (w : Z) (p : Z * Z) : TimeSeriesLoader :=
  {| ts_dataset := ts_dataset self; model := model self;
     window_sampling_limit := window_sampling_limit self;
     input_size := input_size self; output_size := output_size self;
     idx_to_sample_freq := idx_to_sample_freq self; batch_size := batch_size self;
     complete_inputs := complete_inputs self; shuffle := shuffle self;
     len_sample_chunks := len_sample_chunks self;
     n_series_per_batch := n_series_per_batch self; verbose := verbose self;
     windows_size := w; padding := p;
     sampleable_ts_idxs := sampleable_ts_idxs self;
     n_sampleable_ts := n_sampleable_ts self; n_batches := n_batches self |}.

Definition set_sampleable (self : TimeSeriesLoader) (idxs : list nat) : TimeSeriesLoader :=
  {| ts_dataset := ts_dataset self; model := model self;
     window_sampling_limit := window_sampling_limit self;
     input_size := input_size self; output_size := output_size self;
     idx_to_sample_freq := idx_to_sample_freq self; batch_size := batch_size self;
     complete_inputs := complete_inputs self; shuffle := shuffle self;
     len_sample_chunks := len_sample_chunks self;
     n_series_per_batch := n_series_per_batch self; verbose := verbose self;
     windows_size := windows_size self; padding := padding self;
     sampleable_ts_idxs := idxs;
     n_sampleable_ts := Z.of_nat (length idxs); n_batches := n_batches self |}.

Definition set_n_batches (self : TimeSeriesLoader) (n : Z) : TimeSeriesLoader :=
  {| ts_dataset := ts_dataset self; model := model self;
     window_sampling_limit := window_sampling_limit self;
     input_size := input_size self; output_size := output_size self;
     idx_to_sample_freq := idx_to_sample_freq self; batch_size := batch_size self;
     complete_inputs := complete_inputs self; shuffle := shuffle self;
     len_sample_chunks := len_sample_chunks self;
     n_series_per_batch := n_series_per_batch self; verbose := verbose self;
     windows_size := windows_size self; padding := padding self;
     sampleable_ts_idxs := sampleable_ts_idxs self;
     n_sampleable_ts := n_sampleable_ts self; n_batches := n |}.

(** [_define_attributes_by_model] *)
Definition _define_attributes_by_model (self : TimeSeriesLoader) : result TimeSeriesLoader :=
  if py_in (model self) ["nbeats"] then
    Ok (set_windows self (input_size self + output_size self)
                         (input_size self, output_size self))
  else if py_in (model self) ["esrnn"] then
    Ok (set_windows self (len_sample_chunks self) (0, 0))
  else Raise (Exception NoBatchStrategy).

(** [tensor[:, c]]: channel [c] of every series. *)
Definition select_channel (c : nat) (tensor : Tensor3) : result (list (list Z)) :=
  mapM (fun s => get s c) tensor.

(** [_define_sampleable_ts_idxs] *)
Definition _define_sampleable_ts_idxs (self : TimeSeriesLoader) : result TimeSeriesLoader :=
  c <- list_index "sample_mask" (t_cols (ts_dataset self)) ;;
  rows <- select_channel c (ts_tensor (ts_dataset self)) ;;
  let sum_sample_mask := map sumZ rows in
  let min_mask := if complete_inputs self then windows_size self else output_size self in
  Ok (set_sampleable self (nonzero (map (fun s => min_mask <? s) sum_sample_mask))).

(** The arguments of [TimeSeriesLoader.__init__], in the order of its
    signature; the two optional ones default to [None]. *)
Record InitArgs : Type := {
  arg_ts_dataset : TimeSeriesDataset;
  arg_model : string;
  arg_window_sampling_limit : Z;
  arg_input_size : Z;
  arg_output_size : Z;
  arg_idx_to_sample_freq : Z;
  arg_batch_size : Z;
  arg_complete_inputs : bool;
  arg_shuffle : bool;
  arg_len_sample_chunks : option Z;
  arg_n_series_per_batch : option Z;
  arg_verbose : bool
}.

(** The value [__init__] stores in [self.n_series_per_batch]. *)
Definition resolved_n_series_per_batch (a : InitArgs) : Z :=
  match arg_n_series_per_batch a with
  | Some n => n
  | None => Z.min (arg_batch_size a) (n_series (arg_ts_dataset a))
  end.

(** The attributes [__init__] has assigned when it reaches its protections;
    the ones defined later are not yet set. *)
Definition initial_attributes (a : InitArgs) (lsc : Z) : TimeSeriesLoader :=
  {| ts_dataset := arg_ts_dataset a; model := arg_model a;
     window_sampling_limit := arg_window_sampling_limit a;
     input_size := arg_input_size a; output_size := arg_output_size a;
     idx_to_sample_freq := arg_idx_to_sample_freq a;
     batch_size := arg_batch_size a;
     complete_inputs := arg_complete_inputs a; shuffle := arg_shuffle a;
     len_sample_chunks := lsc;
     n_series_per_batch := resolved_n_series_per_batch a;
     verbose := arg_verbose a;
     windows_size := 0; padding := (0, 0);
     sampleable_ts_idxs := []; n_sampleable_ts := 0; n_batches := 0 |}.

(** [TimeSeriesLoader.__init__] *)
Definition __init__ (a : InitArgs) : result TimeSeriesLoader :=
  lsc <- match arg_len_sample_chunks a with
         | Some l =>
             if l <? arg_input_size a + arg_output_size a
             then Raise (Exception InsufficientLenOfSampleChunks)
             else Ok l
         | None => Ok (arg_input_size a + arg_output_size a)
         end ;;
  let self := initial_attributes a lsc in
  r <- py_mod (batch_size self) (n_series_per_batch self) ;;
  _ <- py_assert (r =? 0) BatchSizeNotMultiple ;;
  _ <- py_assert (n_series_per_batch self <=? n_series (ts_dataset self))
         NSeriesPerBatchTooLarge ;;
  self <- _define_attributes_by_model self ;;
  self <- _define_sampleable_ts_idxs self ;;
  n <- py_ceil_div (n_sampleable_ts self) (n_series_per_batch self) ;;
  Ok (set_n_batches self n).

(** ** Windowing engine *)

(** [t.nn.ConstantPad1d(padding=(l, r), value=0)] on one row of the last
    axis: a negative amount crops instead, and cropping more than the row
    holds is a runtime error. *)
Definition pad_row (p : Z * Z) (row : list Z) : result (list Z) :=
  let (l, r) := p in
  let crop_l := Z.to_nat (- l) in
  let crop_r := Z.to_nat (- r) in
  if (length row <? crop_l + crop_r)%nat then Raise RuntimeError
  else
    let core := firstn (length row - crop_l - crop_r) (skipn crop_l row) in
    Ok (repeat 0 (Z.to_nat l) ++ core ++ repeat 0 (Z.to_nat r)).

Definition padder (p : Z * Z) (tensor : Tensor3) : result Tensor3 :=
  mapM (mapM (pad_row p)) tensor.

(** Number of frames of [unfold] on a row of length [len]. *)
Definition n_frames (len : nat) (size step : Z) : nat :=
  Z.to_nat ((Z.of_nat len - size) / step + 1).

(** Frame [j]: [size] steps from offset [j * step]. *)
Definition frame (size step : Z) (row : list Z) (j : nat) : list Z :=
  firstn (Z.to_nat size) (skipn (j * Z.to_nat step) row).

(** [tensor.unfold(dimension=-1, size, step)] on one row. *)
Definition unfold_row (size step : Z) (row : list Z) : result (list (list Z)) :=
  if (step <=? 0) || (size <? 0) || (Z.of_nat (length row) <? size)
  then Raise RuntimeError
  else Ok (map (frame size step row) (seq 0 (n_frames (length row) size step))).

Definition unfold (size step : Z) (tensor : Tensor3)
  : result (list (list (list (list Z)))) :=
  mapM (mapM (unfold_row size step)) tensor.

(** Exchange of the two leading axes of a (channel, frame, time) block. *)
Definition transpose (m : list (list (list Z))) : list (list (list Z)) :=
  match m with
  | [] => []
  | r :: _ => map (fun j => map (fun row => nth j row []) m) (seq 0 (length r))
  end.

(** [windows.permute(0, 2, 1, 3)] *)
Definition permute_0213 (w : list (list (list (list Z)))) : list (list (list (list Z))) :=
  map transpose w.

Fixpoint chunk_fuel {A : Type} (fuel n : nat) (l : list A) : list (list A) :=
  match fuel with
  | O => []
  | S f =>
      match l with
      | [] => []
      | _ => firstn n l :: chunk_fuel f n (skipn n l)
      end
  end.

(** Consecutive pieces of [n] elements. *)
Definition chunk {A : Type} (n : nat) (l : list A) : list (list A) :=
  chunk_fuel (length l) n l.

(** [windows.reshape(-1, n_channels, windows_size)]: the elements in
    row-major order, regrouped by the two given trailing sizes. *)
Definition reshape (c : nat) (size : Z) (w : list (list (list (list Z)))) : result Tensor3 :=
  let flat := concat (concat (concat w)) in
  let newsize := (Z.of_nat c * size)%Z in
  if (size <? 0) || (newsize =? 0) then Raise RuntimeError
  else if negb (Z.of_nat (length flat) mod newsize =? 0) then Raise RuntimeError
  else Ok (chunk c (chunk (Z.to_nat size) flat)).

(** [len(windows) / n_ts], used as the [repeats] count of [ndarray.repeat]:
    true division; the count is the integer part of the quotient. *)
Definition windows_per_serie (n_windows : nat) (n_ts : Z) : result nat :=
  if n_ts =? 0 then Raise ZeroDivisionError
  else
    let q := Z.quot (Z.of_nat n_windows) n_ts in
    if q <? 0 then Raise ValueError else Ok (Z.to_nat q).

(** [_create_windows_tensor] *)
Definition _create_windows_tensor (self : TimeSeriesLoader) (index : option (list nat))
  : result (Tensor3 * list (list Z) * list nat) :=
  tensor <- call_store (get_filtered_ts_tensor (ts_dataset self)
                          (output_size self) (window_sampling_limit self) index) ;;
  tensor <- padder (padding self) tensor ;;
  windows <- unfold (windows_size self) (idx_to_sample_freq self) tensor ;;
  let windows := permute_0213 windows in
  windows <- reshape (n_channels (ts_dataset self)) (windows_size self) windows ;;
  match index with
  | None =>
      (* s_matrix[None] is s_matrix under one more leading axis *)
      let n_ts := n_series (ts_dataset self) in
      k <- windows_per_serie (length windows) n_ts ;;
      let s_matrix := np_repeat k [s_matrix (ts_dataset self)] in
      (* index.repeat on None *)
      Raise AttributeError
  | Some index =>
      s_matrix <- take (s_matrix (ts_dataset self)) index ;;
      let n_ts := Z.of_nat (length index) in
      k <- windows_per_serie (length windows) n_ts ;;
      let s_matrix := np_repeat k s_matrix in
      let ts_idxs := np_repeat k index in
      Ok (windows, s_matrix, ts_idxs)
  end.

(** ** Window-level eligibility *)

(** [(v == x) * 1] *)
Definition eq_flag (x : Z) (v : Z) : Z := Z.b2z (v =? x).

(** The index vector [_get_sampleable_windows_idxs] computes before its
    assertion. *)
Definition sampling_idx (self : TimeSeriesLoader) (ts_windows_flatten : Tensor3)
  : result (list nat) :=
  c <- list_index "sample_mask" (t_cols (ts_dataset self)) ;;
  rows <- select_channel c ts_windows_flatten ;;
  let sample_condition :=
    map (fun r => sumZ (py_slice (Some (- output_size self)) None r)) rows in
  let sample_condition := map (eq_flag (output_size self)) sample_condition in
  if complete_inputs self then
    c' <- list_index "available_mask" (t_cols (ts_dataset self)) ;;
    rows' <- select_channel c' ts_windows_flatten ;;
    let available_condition :=
      map (fun r => sumZ (py_slice None (Some (- output_size self)) r)) rows' in
    let available_condition :=
      map (eq_flag (windows_size self - output_size self)) available_condition in
    Ok (nonzero (map (fun p => 0 <? fst p * snd p)
                     (combine available_condition sample_condition)))
  else
    Ok (nonzero (map (fun v => negb (v =? 0)) sample_condition)).

(** [_get_sampleable_windows_idxs] *)
Definition _get_sampleable_windows_idxs (self : TimeSeriesLoader)
    (ts_windows_flatten : Tensor3) : result (list nat) :=
  sampling_idx <- sampling_idx self ts_windows_flatten ;;
  _ <- py_assert (0 <? length sampling_idx)%nat EmptySampleIdxs ;;
  Ok sampling_idx.

(** ** The random source *)

(** The state of the process-wide numpy generator: a tape of raw draws and
    the position of the next one. *)
Record RandomState : Type := {
  tape : nat -> nat;
  pos : nat
}.

(** [randint(0, n)]: one draw, reduced to the range. *)
Definition randint (n : nat) (g : RandomState) : nat * RandomState :=
  ((tape g (pos g) mod n)%nat, {| tape := tape g; pos := S (pos g) |}).

(** [randint(0, n, size=k)] *)
Fixpoint randints (k n : nat) (g : RandomState) : list nat * RandomState :=
  match k with
  | O => ([], g)
  | S k' =>
      let (i, g1) := randint n g in
      let (l, g2) := randints k' n g1 in
      (i :: l, g2)
  end.

Fixpoint remove_nth {A : Type} (i : nat) (l : list A) : list A :=
  match l, i with
  | [], _ => []
  | _ :: l', O => l'
  | a :: l', S i' => a :: remove_nth i' l'
  end.

(** [permutation(n)], by repeated selection among the positions left. *)
Fixpoint select_all (fuel : nat) (l : list nat) (g : RandomState)
  : list nat * RandomState :=
  match fuel with
  | O => ([], g)
  | S f =>
      match l with
      | [] => ([], g)
      | _ =>
          let (r, g1) := randint (length l) g in
          let (rest, g2) := select_all f (remove_nth r l) g1 in
          (nth r l O :: rest, g2)
      end
  end.

Definition permutation (n : nat) (g : RandomState) : list nat * RandomState :=
  select_all n (seq 0 n) g.

(** [np.random.choice(a, size, replace)] with uniform weights. *)
Definition choice {A : Type} (a : list A) (size : Z) (replace : bool) (g : RandomState)
  : result (list A) * RandomState :=
  if size <? 0 then (Raise ValueError, g)
  else if (length a =? 0)%nat && negb (size =? 0) then (Raise ValueError, g)
  else if replace then
    let (idx, g') := randints (Z.to_nat size) (length a) g in
    (take a idx, g')
  else if Z.of_nat (length a) <? size then (Raise ValueError, g)
  else
    let (idx, g') := permutation (length a) g in
    (take a (firstn (Z.to_nat size) idx), g').

(** ** Batch sampler *)

(** The dictionary [_windows_batch] returns, one field per key. *)
Record Batch : Type := {
  b_S : list (list Z);
  b_Y : list (list Z);
  b_X : Tensor3;
  b_available_mask : list (list Z);
  b_sample_mask : list (list Z);
  b_idxs : list nat
}.

(** What a call can read and change: the loader object and the random
    source. *)
Record World : Type := {
  loader : TimeSeriesLoader;
  random_state : RandomState
}.

Definition M (A : Type) : Type := World -> result A * World.

Definition retM {A : Type} (a : A) : M A := fun w => (Ok a, w).

Definition liftM {A : Type} (r : result A) : M A := fun w => (r, w).

Definition bindM {A B : Type} (c : M A) (k : A -> M B) : M B :=
  fun w =>
    match c w with
    | (Ok a, w') => k a w'
    | (Raise e, w') => (Raise e, w')
    end.

Notation "x <~ c ;; k" := (bindM c (fun x => k))
  (at level 61, c at next level, right associativity).
Notation "' pat <~ c ;; k" := (bindM c (fun x => match x with pat => k end))
  (at level 61, pat pattern, c at next level, right associativity).

Definition get_self : M TimeSeriesLoader := fun w => (Ok (loader w), w).

Definition np_random_choice {A : Type} (a : list A) (size : Z) (replace : bool)
  : M (list A) :=
  fun w =>
    let (r, g) := choice a size replace (random_state w) in
    (r, {| loader := loader w; random_state := g |}).

(** The second half of [_windows_batch]: gather at the chosen positions and
    split the channels. *)
Definition gather_batch (self : TimeSeriesLoader) (windows : Tensor3)
    (s_matrix : list (list Z)) (ts_idxs windows_idxs : list nat) : result Batch :=
  windows <- take windows windows_idxs ;;
  S <- take s_matrix windows_idxs ;;
  ts_idxs <- take ts_idxs windows_idxs ;;
  y <- list_index "y" (t_cols (ts_dataset self)) ;;
  Y <- select_channel y windows ;;
  y' <- list_index "y" (t_cols (ts_dataset self)) ;;
  a <- list_index "available_mask" (t_cols (ts_dataset self)) ;;
  let X := map (py_slice (Some (Z.of_nat y' + 1)) (Some (Z.of_nat a))) windows in
  a' <- list_index "available_mask" (t_cols (ts_dataset self)) ;;
  available_mask <- select_channel a' windows ;;
  s <- list_index "sample_mask" (t_cols (ts_dataset self)) ;;
  sample_mask <- select_channel s windows ;;
  Ok {| b_S := S; b_Y := Y; b_X := X;
        b_available_mask := available_mask;
        b_sample_mask := sample_mask;
        b_idxs := ts_idxs |}.

(** [_windows_batch] *)
Definition _windows_batch (index : list nat) : M Batch :=
  self <~ get_self ;;
  ' (windows, s_matrix, ts_idxs) <~ liftM (_create_windows_tensor self (Some index)) ;;
  sampleable_windows <~ liftM (_get_sampleable_windows_idxs self windows) ;;
  windows_idxs <~ (if shuffle self
                   then np_random_choice sampleable_windows (batch_size self) true
                   else retM sampleable_windows) ;;
  liftM (gather_batch self windows s_matrix ts_idxs windows_idxs).

(** [__getitem__]; [np.array(index)] keeps the indices. *)
Definition __getitem__ (index : list nat) : M Batch :=
  _windows_batch index.

(** ** Iteration *)

(** The slice of series indices of batch number [idx]. *)
Definition batch_ts_idxs (self : TimeSeriesLoader) (sample_idxs : list nat) (idx : nat)
  : list nat :=
  py_slice (Some (Z.of_nat idx * n_series_per_batch self))
           (Some ((Z.of_nat idx + 1) * n_series_per_batch self)) sample_idxs.

(** One pass of a generator: the batches it yielded, and the exception that
    ended it if one did. *)
Record Pass : Type := {
  yielded : list Batch;
  raised : option exn
}.

(** The [for] loop of [__iter__], run to its end. *)
Fixpoint iter_loop (sample_idxs : list nat) (range : list nat) (w : World)
  : Pass * World :=
  match range with
  | [] => ({| yielded := []; raised := None |}, w)
  | idx :: range' =>
      let ts_idxs := batch_ts_idxs (loader w) sample_idxs idx in
      match __getitem__ ts_idxs w with
      | (Raise e, w') => ({| yielded := []; raised := Some e |}, w')
      | (Ok batch, w') =>
          let (p, w'') := iter_loop sample_idxs range' w' in
          ({| yielded := batch :: yielded p; raised := raised p |}, w'')
      end
  end.

(** [range(n)] *)
Definition py_range (n : Z) : list nat := seq 0 (Z.to_nat n).

(** [__iter__], consumed to exhaustion. *)
Definition __iter__ (w : World) : Pass * World :=
  let self := loader w in
  let (r, w1) :=
    (if shuffle self
     then np_random_choice (sampleable_ts_idxs self) (n_sampleable_ts self) false
     else retM (sampleable_ts_idxs self)) w in
  match r with
  | Raise e => ({| yielded := []; raised := Some e |}, w1)
  | Ok sample_idxs => iter_loop sample_idxs (py_range (n_batches self)) w1
  end.

(** ** A small store and loaders on it, for concrete evaluation *)

Definition demo_tensor : Tensor3 :=
  [ [ [1; 2; 3; 4]; [1; 1; 1; 1]; [1; 1; 1; 1] ];
    [ [5; 6; 7; 8]; [0; 1; 1; 1]; [0; 0; 1; 0] ] ].

Definition demo_store : TimeSeriesDataset :=
  {| t_cols := ["y"; "available_mask"; "sample_mask"];
     n_series := 2;
     n_channels := 3;
     ts_tensor := demo_tensor;
     s_matrix := [[10]; [20]];
     get_filtered_ts_tensor := fun _ _ ts_idxs =>
       match ts_idxs with
       | None => Some demo_tensor
       | Some l =>
           match take demo_tensor l with
           | Ok t => Some t
           | Raise _ => None
           end
       end |}.

Definition demo_args (model : string) (complete_inputs shuffle : bool) : InitArgs :=
  {| arg_ts_dataset := demo_store; arg_model := model;
     arg_window_sampling_limit := 4;
     arg_input_size := 2; arg_output_size := 1;
     arg_idx_to_sample_freq := 1; arg_batch_size := 2;
     arg_complete_inputs := complete_inputs; arg_shuffle := shuffle;
     arg_len_sample_chunks := None; arg_n_series_per_batch := None;
     arg_verbose := false |}.

(** The loader [__init__] builds from [demo_args "nbeats" ci sh]. *)
Definition demo_loader (complete_inputs shuffle : bool) : TimeSeriesLoader :=
  match __init__ (demo_args "nbeats" complete_inputs shuffle) with
  | Ok self => self
  | Raise _ => initial_attributes (demo_args "nbeats" complete_inputs shuffle) 3
  end.

Definition demo_random : RandomState :=
  {| tape := fun i => (3 * i + 1)%nat; pos := 0 |}.

Definition demo_world (complete_inputs shuffle : bool) : World :=
  {| loader := demo_loader complete_inputs shuffle; random_state := demo_random |}.

(** ** Vocabulary of the properties *)

(** The sum of the [sample_mask] channel of series [i] of the full series
    tensor, over all its time steps. *)
Definition series_sample_mask_sum (ds : TimeSeriesDataset) (i : nat) : option Z :=
  match list_index "sample_mask" (t_cols ds) with
  | Ok c =>
      match nth_error (ts_tensor ds) i with
      | Some s => option_map sumZ (nth_error s c)
      | None => None
      end
  | Raise _ => None
  end.

(** The series-level threshold. *)
Definition series_threshold (self : TimeSeriesLoader) : Z :=
  if complete_inputs self then windows_size self else output_size self.

(** The store names a [sample_mask] channel and every series has it. *)
Definition store_has_sample_mask (ds : TimeSeriesDataset) : Prop :=
  exists c, list_index "sample_mask" (t_cols ds) = Ok c /\
            Forall (fun s => (c < length s)%nat) (ts_tensor ds).

Definition known_family (m : string) : Prop := m = "nbeats" \/ m = "esrnn".

(** The four ways a static configuration is invalid. *)
Definition invalid_configuration (a : InitArgs) : Prop :=
  ~ known_family (arg_model a) \/
  (exists l, arg_len_sample_chunks a = Some l /\
             l < arg_input_size a + arg_output_size a) \/
  ~ (resolved_n_series_per_batch a | arg_batch_size a) \/
  n_series (arg_ts_dataset a) < resolved_n_series_per_batch a.

(** The channel called [name] of one window (or one series). *)
Definition named_channel (self : TimeSeriesLoader) (name : string) (w : list (list Z))
  : option (list Z) :=
  match list_index name (t_cols (ts_dataset self)) with
  | Ok c => nth_error w c
  | Raise _ => None
  end.

(** The last [n] steps of a row. *)
Definition last_steps (n : nat) (row : list Z) : list Z :=
  skipn (length row - n) row.

(** The sample condition: every one of the last [output_size] steps of
    [sample_mask] counts. *)
Definition sample_complete (self : TimeSeriesLoader) (w : list (list Z)) : Prop :=
  exists sm, named_channel self "sample_mask" w = Some sm /\
             sumZ (last_steps (Z.to_nat (output_size self)) sm) = output_size self.

(** The input condition: every one of the first [windows_size - output_size]
    steps of [available_mask] counts. *)
Definition input_complete (self : TimeSeriesLoader) (w : list (list Z)) : Prop :=
  exists am, named_channel self "available_mask" w = Some am /\
             sumZ (firstn (Z.to_nat (windows_size self - output_size self)) am)
             = windows_size self - output_size self.

(** Window-level eligibility as the specification words it. *)
Definition window_eligible (self : TimeSeriesLoader) (w : list (list Z)) : Prop :=
  if complete_inputs self
  then sample_complete self w /\ input_complete self w
  else sample_complete self w.

(** A flattened window tensor of shape (windows, n_channels, windows_size)
    over a store that names both mask channels. *)
Definition windows_well_formed (self : TimeSeriesLoader) (ws : Tensor3) : Prop :=
  (exists c, list_index "sample_mask" (t_cols (ts_dataset self)) = Ok c) /\
  (exists c, list_index "available_mask" (t_cols (ts_dataset self)) = Ok c) /\
  Forall (fun w => length w = length (t_cols (ts_dataset self)) /\
                   Forall (fun row => Z.of_nat (length row) = windows_size self) w) ws.

(** A tensor of [n] series (or windows), each of [c] channels of [len] steps. *)
Definition tensor_shape (n c len : nat) (t : Tensor3) : Prop :=
  length t = n /\
  Forall (fun s => length s = c /\ Forall (fun row => length row = len) s) t.

(** The window of one series at frame [j]: all channels, [size] steps from
    start offset [j * step]. *)
Definition window_at (size step : Z) (series : list (list Z)) (j : nat)
  : list (list Z) :=
  map (fun row => frame size step row j) series.

(** The [k] windows of every series, series after series, each series by
    increasing start offset. *)
Definition windows_of (size step : Z) (k : nat) (t : Tensor3) : Tensor3 :=
  concat (map (fun series => map (window_at size step series) (seq 0 k)) t).

Definition demo_padded : Tensor3 :=
  [ [ [0; 0; 1; 2; 3; 4; 0]; [0; 0; 1; 1; 1; 1; 0]; [0; 0; 1; 1; 1; 1; 0] ];
    [ [0; 0; 5; 6; 7; 8; 0]; [0; 0; 0; 1; 1; 1; 0]; [0; 0; 0; 0; 1; 0; 0] ] ].

(** The windows of both demo series. *)
Definition demo_windows : Tensor3 := windows_of 3 1 5 demo_padded.

(** The exception does not come from an [assert] of the loader. *)
Definition not_assertion (e : exn) : Prop := forall s, e <> AssertionError s.

(** The eligible-window set computed for a series subset: windowing, then
    the index vector of the eligibility check. *)
Definition eligible_windows (self : TimeSeriesLoader) (index : list nat)
  : result (list nat) :=
  r <- _create_windows_tensor self (Some index) ;;
  sampling_idx self (fst (fst r)).

(** A window tensor with its aligned static rows and series indices, over a
    store that names [y] and both mask channels. *)
Definition batch_inputs_well_formed (self : TimeSeriesLoader) (windows : Tensor3)
    (s_rows : list (list Z)) (ts_idxs : list nat) : Prop :=
  (exists c, list_index "y" (t_cols (ts_dataset self)) = Ok c) /\
  (exists c, list_index "available_mask" (t_cols (ts_dataset self)) = Ok c) /\
  (exists c, list_index "sample_mask" (t_cols (ts_dataset self)) = Ok c) /\
  Forall (fun w => length w = length (t_cols (ts_dataset self))) windows /\
  length s_rows = length windows /\
  length ts_idxs = length windows.

(** The channels strictly between [y] and [available_mask] of a window. *)
Definition exogenous_channels (self : TimeSeriesLoader) (w : list (list Z))
  : option (list (list Z)) :=
  match list_index "y" (t_cols (ts_dataset self)),
        list_index "available_mask" (t_cols (ts_dataset self)) with
  | Ok y, Ok a => Some (py_slice (Some (Z.of_nat y + 1)) (Some (Z.of_nat a)) w)
  | _, _ => None
  end.

(** The batch holds, in order and entry by entry, the windows found at
    [positions] with their static rows and series indices. *)
Definition batch_holds (self : TimeSeriesLoader) (windows : Tensor3)
    (s_rows : list (list Z)) (ts_idxs : list nat)
    (positions : list nat) (b : Batch) : Prop :=
  Forall2 (fun p r => nth_error s_rows p = Some r) positions (b_S b) /\
  Forall2 (fun p r => exists w, nth_error windows p = Some w /\
                                named_channel self "y" w = Some r)
          positions (b_Y b) /\
  Forall2 (fun p x => exists w, nth_error windows p = Some w /\
                                exogenous_channels self w = Some x)
          positions (b_X b) /\
  Forall2 (fun p r => exists w, nth_error windows p = Some w /\
                                named_channel self "available_mask" w = Some r)
          positions (b_available_mask b) /\
  Forall2 (fun p r => exists w, nth_error windows p = Some w /\
                                named_channel self "sample_mask" w = Some r)
          positions (b_sample_mask b) /\
  Forall2 (fun p i => nth_error ts_idxs p = Some i) positions (b_idxs b).

(** Number of windows of a batch. *)
Definition batch_length (b : Batch) : nat := length (b_Y b).

(** The slices of series indices one pass goes through, batch by batch. *)
Definition pass_chunks (self : TimeSeriesLoader) (sample_idxs : list nat)
  : list (list nat) :=
  map (batch_ts_idxs self sample_idxs) (py_range (n_batches self)).

(** A store on which no series reaches the threshold. *)
Definition demo_store_masked : TimeSeriesDataset :=
  {| t_cols := ["y"; "available_mask"; "sample_mask"];
     n_series := 2;
     n_channels := 3;
     ts_tensor :=
       [ [ [1; 2; 3; 4]; [1; 1; 1; 1]; [0; 0; 0; 1] ];
         [ [5; 6; 7; 8]; [0; 1; 1; 1]; [0; 0; 0; 0] ] ];
     s_matrix := [[10]; [20]];
     get_filtered_ts_tensor := fun _ _ _ => None |}.

Definition demo_args_masked (shuffle : bool) : InitArgs :=
  {| arg_ts_dataset := demo_store_masked; arg_model := "esrnn";
     arg_window_sampling_limit := 4;
     arg_input_size := 2; arg_output_size := 1;
     arg_idx_to_sample_freq := 1; arg_batch_size := 4;
     arg_complete_inputs := false; arg_shuffle := shuffle;
     arg_len_sample_chunks := Some 4; arg_n_series_per_batch := Some 2;
     arg_verbose := false |}.

(** A second state of the random source. *)
Definition demo_random' : RandomState :=
  {| tape := fun i => (7 * i + 2)%nat; pos := 5 |}.

(** ** Further vocabulary: order, permutations and shapes *)

From Stdlib Require Import Sorting.Sorted Sorting.Permutation.

(** Every row of the batch field has [len] steps. *)
Definition rows_of_length (len : Z) (rows : list (list Z)) : Prop :=
  Forall (fun row => Z.of_nat (length row) = len) rows.

(** The sample condition on a [sample_mask] row of a batch. *)
Definition target_unmasked (self : TimeSeriesLoader) (sm : list Z) : Prop :=
  sumZ (last_steps (Z.to_nat (output_size self)) sm) = output_size self.

(** The input condition on an [available_mask] row of a batch. *)
Definition input_observed (self : TimeSeriesLoader) (am : list Z) : Prop :=
  sumZ (firstn (Z.to_nat (windows_size self - output_size self)) am)
  = windows_size self - output_size self.

(** The check of [len_sample_chunks] fails. *)
Definition chunks_too_short (a : InitArgs) : Prop :=
  exists l, arg_len_sample_chunks a = Some l /\
            l < arg_input_size a + arg_output_size a.

(** Arguments that break every protection at once. *)
Definition demo_args_broken : InitArgs :=
  {| arg_ts_dataset := demo_store; arg_model := "arima";
     arg_window_sampling_limit := 4;
     arg_input_size := 2; arg_output_size := 1;
     arg_idx_to_sample_freq := 1; arg_batch_size := 7;
     arg_complete_inputs := false; arg_shuffle := false;
     arg_len_sample_chunks := Some 2; arg_n_series_per_batch := Some 3;
     arg_verbose := false |}.

(** A store whose channel list has no [sample_mask]. *)
Definition demo_store_unmasked : TimeSeriesDataset :=
  {| t_cols := ["y"; "available_mask"];
     n_series := 2;
     n_channels := 2;
     ts_tensor := [ [ [1; 2; 3; 4]; [1; 1; 1; 1] ];
                    [ [5; 6; 7; 8]; [0; 1; 1; 1] ] ];
     s_matrix := [[10]; [20]];
     get_filtered_ts_tensor := fun _ _ _ => None |}.

Definition demo_args_unmasked : InitArgs :=
  {| arg_ts_dataset := demo_store_unmasked; arg_model := "nbeats";
     arg_window_sampling_limit := 4;
     arg_input_size := 2; arg_output_size := 1;
     arg_idx_to_sample_freq := 1; arg_batch_size := 2;
     arg_complete_inputs := false; arg_shuffle := false;
     arg_len_sample_chunks := None; arg_n_series_per_batch := None;
     arg_verbose := false |}.

(** The loader [__init__] builds from [demo_args_masked false]. *)
Definition demo_loader_masked : TimeSeriesLoader :=
  match __init__ (demo_args_masked false) with
  | Ok self => self
  | Raise _ => initial_attributes (demo_args_masked false) 4
  end.

(** Entry [t] of window [j] of an nbeats row, read off the row as the store
    holds it: the window starts [input_size] steps before step
    [j * step] of the row, and is zero outside the row. *)
Definition nbeats_entry (input_size step : Z) (row : list Z) (j t : nat) : Z :=
  if (j * Z.to_nat step + t <? Z.to_nat input_size)%nat then 0
  else nth (j * Z.to_nat step + t - Z.to_nat input_size) row 0.

(** What zero padding by non-negative amounts makes of a row. *)
Definition zero_padded (p : Z * Z) (row : list Z) : list Z :=
  repeat 0 (Z.to_nat (fst p)) ++ row ++ repeat 0 (Z.to_nat (snd p)).

(** An esrnn loader on the demo store whose chunks are longer than the
    series. *)
Definition demo_args_long_chunks : InitArgs :=
  {| arg_ts_dataset := demo_store; arg_model := "esrnn";
     arg_window_sampling_limit := 4;
     arg_input_size := 2; arg_output_size := 1;
     arg_idx_to_sample_freq := 1; arg_batch_size := 2;
     arg_complete_inputs := false; arg_shuffle := true;
     arg_len_sample_chunks := Some 6; arg_n_series_per_batch := None;
     arg_verbose := false |}.

Definition demo_loader_long_chunks : TimeSeriesLoader :=
  match __init__ demo_args_long_chunks with
  | Ok self => self
  | Raise _ => initial_attributes demo_args_long_chunks 6
  end.

(** Arguments with a negative batch size and the default series count per
    batch. *)
Definition demo_args_negative : InitArgs :=
  {| arg_ts_dataset := demo_store; arg_model := "nbeats";
     arg_window_sampling_limit := 4;
     arg_input_size := 2; arg_output_size := 1;
     arg_idx_to_sample_freq := 1; arg_batch_size := -2;
     arg_complete_inputs := false; arg_shuffle := true;
     arg_len_sample_chunks := None; arg_n_series_per_batch := None;
     arg_verbose := false |}.

(** The same arguments with another value of [complete_inputs]. *)
Definition with_complete_inputs (a : InitArgs) (b : bool) : InitArgs :=
  {| arg_ts_dataset := arg_ts_dataset a; arg_model := arg_model a;
     arg_window_sampling_limit := arg_window_sampling_limit a;
     arg_input_size := arg_input_size a; arg_output_size := arg_output_size a;
     arg_idx_to_sample_freq := arg_idx_to_sample_freq a;
     arg_batch_size := arg_batch_size a;
     arg_complete_inputs := b; arg_shuffle := arg_shuffle a;
     arg_len_sample_chunks := arg_len_sample_chunks a;
     arg_n_series_per_batch := arg_n_series_per_batch a;
     arg_verbose := arg_verbose a |}.

(** Every entry of the channel called [name] is at most one, in every
    series of the tensor. *)
Definition mask_bounded (self : TimeSeriesLoader) (name : string) (tensor : Tensor3)
  : Prop :=
  Forall (fun series =>
            forall row, named_channel self name series = Some row ->
                        Forall (fun x => x <= 1) row) tensor.

(** Every entry is an integer of magnitude at most 2^24: the conversion of
    the series tensor to single precision, [t.Tensor(tensor)], keeps such
    entries as they are. *)
Definition float32_exact (tensor : Tensor3) : Prop :=
  Forall (Forall (Forall (fun x => Z.abs x <= 16777216))) tensor.

(** ** Inputs at the edge of the configuration space *)

(** An nbeats configuration with a horizon of zero steps. *)
Definition demo_args_zero_horizon : InitArgs :=
  {| arg_ts_dataset := demo_store; arg_model := "nbeats";
     arg_window_sampling_limit := 4;
     arg_input_size := 2; arg_output_size := 0;
     arg_idx_to_sample_freq := 1; arg_batch_size := 2;
     arg_complete_inputs := false; arg_shuffle := false;
     arg_len_sample_chunks := None; arg_n_series_per_batch := None;
     arg_verbose := false |}.

Definition demo_loader_zero_horizon : TimeSeriesLoader :=
  match __init__ demo_args_zero_horizon with
  | Ok self => self
  | Raise _ => initial_attributes demo_args_zero_horizon 2
  end.

(** The windows the engine cuts for both demo series at a horizon of zero. *)
Definition demo_windows_zero_horizon : Tensor3 :=
  match _create_windows_tensor demo_loader_zero_horizon (Some [0; 1]%nat) with
  | Ok (windows, _, _) => windows
  | Raise _ => []
  end.

(** An nbeats configuration whose windows have no step at all. *)
Definition demo_args_zero_window : InitArgs :=
  {| arg_ts_dataset := demo_store; arg_model := "nbeats";
     arg_window_sampling_limit := 4;
     arg_input_size := 0; arg_output_size := 0;
     arg_idx_to_sample_freq := 1; arg_batch_size := 2;
     arg_complete_inputs := false; arg_shuffle := false;
     arg_len_sample_chunks := None; arg_n_series_per_batch := None;
     arg_verbose := false |}.

Definition demo_loader_zero_window : TimeSeriesLoader :=
  match __init__ demo_args_zero_window with
  | Ok self => self
  | Raise _ => initial_attributes demo_args_zero_window 0
  end.





(** [batch_size = 2] with [n_series_per_batch = 0] passed by the caller. *)
Definition demo_args_zero_per_batch : InitArgs :=
  {| arg_ts_dataset := demo_store; arg_model := "nbeats";
     arg_window_sampling_limit := 4;
     arg_input_size := 2; arg_output_size := 1;
     arg_idx_to_sample_freq := 1; arg_batch_size := 2;
     arg_complete_inputs := false; arg_shuffle := false;
     arg_len_sample_chunks := None; arg_n_series_per_batch := Some 0;
     arg_verbose := false |}.

(** [batch_size = 0] with the default [n_series_per_batch], which is then
    [min(0, n_series) = 0]. *)
Definition demo_args_zero_batch_size : InitArgs :=
  {| arg_ts_dataset := demo_store; arg_model := "nbeats";
     arg_window_sampling_limit := 4;
     arg_input_size := 2; arg_output_size := 1;
     arg_idx_to_sample_freq := 1; arg_batch_size := 0;
     arg_complete_inputs := false; arg_shuffle := false;
     arg_len_sample_chunks := None; arg_n_series_per_batch := None;
     arg_verbose := false |}.

(** A state of the random source that agrees with [demo_random] on its next
    two draws and on nothing after them. *)
Definition demo_random_prefix : RandomState :=
  {| tape := fun i => if (i <? 2)%nat then (3 * i + 1)%nat else 0%nat; pos := 0 |}.



(** * Properties *)

(** ** Fallible computations *)

Lemma bind_ok {A B : Type} (c : result A) (k : A -> result B) (b : B) :
  bind c k = Ok b <-> exists a, c = Ok a /\ k a = Ok b.
Proof.
  destruct c as [a|e]; simpl; split.
  - intros H. exists a. auto.
  - intros [a' [Ha Hk]]. inversion Ha. subst. exact Hk.
  - discriminate.
  - intros [a' [Ha _]]. discriminate.
Qed.

Lemma py_assert_ok (c : bool) (s : site) (u : unit) :
  py_assert c s = Ok u <-> c = true.
Proof.
  unfold py_assert. destruct c, u; split; intros; try reflexivity; discriminate.
Qed.

Lemma mapM_ok_Forall2 {A B : Type} (f : A -> result B) (l : list A) (bs : list B) :
  mapM f l = Ok bs <-> Forall2 (fun a b => f a = Ok b) l bs.
Proof.
  revert bs. induction l as [|a l IH]; intros bs; simpl.
  - split.
    + intros H. inversion H. constructor.
    + intros H. inversion H. reflexivity.
  - rewrite bind_ok. split.
    + intros [b [Hb H]]. apply bind_ok in H. destruct H as [bs' [Hbs H]].
      inversion H. subst. constructor; [assumption|]. apply IH. assumption.
    + intros H. inversion H as [|? b ? bs' Hb Hbs]. subst.
      exists b. split; [assumption|]. apply bind_ok. exists bs'.
      split; [apply IH; assumption | reflexivity].
Qed.

Lemma mapM_total {A B : Type} (f : A -> result B) (l : list A) :
  Forall (fun a => exists b, f a = Ok b) l -> exists bs, mapM f l = Ok bs.
Proof.
  induction 1 as [|a l [b Hb] _ [bs Hbs]]; simpl.
  - exists []. reflexivity.
  - exists (b :: bs). rewrite Hb. simpl. rewrite Hbs. reflexivity.
Qed.

Lemma mapM_length {A B : Type} (f : A -> result B) (l : list A) (bs : list B) :
  mapM f l = Ok bs -> length bs = length l.
Proof.
  intros H. apply mapM_ok_Forall2 in H. symmetry. eapply Forall2_length. eassumption.
Qed.

Lemma mapM_nth_error {A B : Type} (f : A -> result B) (l : list A) (bs : list B) :
  mapM f l = Ok bs ->
  forall i a, nth_error l i = Some a -> exists b, nth_error bs i = Some b /\ f a = Ok b.
Proof.
  intros H. apply mapM_ok_Forall2 in H.
  induction H as [|a0 b0 l bs H0 H IH]; intros i a Hi.
  - destruct i; discriminate.
  - destruct i as [|i]; simpl in *.
    + inversion Hi. subst. exists b0. auto.
    + apply IH. assumption.
Qed.

Lemma mapM_pure {A B : Type} (f : A -> result B) (g : A -> B) (l : list A) :
  Forall (fun a => f a = Ok (g a)) l -> mapM f l = Ok (map g l).
Proof.
  induction 1 as [|a l Ha _ IH]; simpl; [reflexivity|].
  rewrite Ha. simpl. rewrite IH. reflexivity.
Qed.

Lemma get_ok {A : Type} (l : list A) (i : nat) (a : A) :
  get l i = Ok a <-> nth_error l i = Some a.
Proof.
  unfold get. destruct (nth_error l i); split; intros H; inversion H; reflexivity.
Qed.

(** ** Positions of true entries *)

Lemma nonzero_from_In (v : list bool) :
  forall s i, In i (nonzero_from s v) <->
              exists j, i = (s + j)%nat /\ nth_error v j = Some true.
Proof.
  induction v as [|b v IH]; intros s i; simpl.
  - split; [tauto|]. intros [j [_ Hj]]. destruct j; discriminate.
  - assert (Hrest : In i (nonzero_from (S s) v) <->
                    exists j, i = (s + S j)%nat /\ nth_error v j = Some true).
    { rewrite IH. split; intros [j [Hi Hj]]; exists j; split; auto; lia. }
    destruct b; simpl; rewrite ?Hrest; split.
    + intros [H|[j [Hi Hj]]].
      * exists O. split; [lia | reflexivity].
      * exists (S j). auto.
    + intros [[|j] [Hi Hj]].
      * left. lia.
      * right. exists j. auto.
    + intros [j [Hi Hj]]. exists (S j). auto.
    + intros [[|j] [Hi Hj]]; [discriminate|]. exists j. auto.
Qed.

Lemma nonzero_In (v : list bool) (i : nat) :
  In i (nonzero v) <-> nth_error v i = Some true.
Proof.
  unfold nonzero. rewrite nonzero_from_In. split.
  - intros [j [Hi Hj]]. simpl in Hi. subst. assumption.
  - intros H. exists i. auto.
Qed.

Lemma nonzero_nil_iff (v : list bool) :
  nonzero v = [] <-> forall i, nth_error v i <> Some true.
Proof.
  split.
  - intros H i Hi. apply nonzero_In in Hi. rewrite H in Hi. contradiction.
  - intros H. destruct (nonzero v) as [|i l] eqn:E; [reflexivity|].
    exfalso. apply (H i). apply nonzero_In. rewrite E. left. reflexivity.
Qed.

(** ** Construction *)

Lemma py_in_singleton (x y : string) : py_in x [y] = true <-> x = y.
Proof.
  unfold py_in. simpl. rewrite orb_false_r. apply String.eqb_eq.
Qed.

Lemma define_attributes_by_model_ok (self self' : TimeSeriesLoader) :
  _define_attributes_by_model self = Ok self' <->
  (model self = "nbeats" /\
   self' = set_windows self (input_size self + output_size self)
                       (input_size self, output_size self)) \/
  (model self = "esrnn" /\
   self' = set_windows self (len_sample_chunks self) (0, 0)).
Proof.
  unfold _define_attributes_by_model.
  destruct (py_in (model self) ["nbeats"]) eqn:E1.
  - apply py_in_singleton in E1. split.
    + intros H. inversion H. left. auto.
    + intros [[_ H]|[Hm _]]; [subst; reflexivity|].
      rewrite E1 in Hm. discriminate.
  - destruct (py_in (model self) ["esrnn"]) eqn:E2.
    + apply py_in_singleton in E2. split.
      * intros H. inversion H. right. auto.
      * intros [[Hm _]|[_ H]]; [|subst; reflexivity].
        apply py_in_singleton in Hm. rewrite Hm in E1. discriminate.
    + split; [discriminate|].
      intros [[Hm _]|[Hm _]]; apply py_in_singleton in Hm; congruence.
Qed.

Lemma define_attributes_by_model_raise (self : TimeSeriesLoader) (e : exn) :
  _define_attributes_by_model self = Raise e ->
  e = Exception NoBatchStrategy /\ ~ known_family (model self).
Proof.
  unfold _define_attributes_by_model, known_family.
  destruct (py_in (model self) ["nbeats"]) eqn:E1; [discriminate|].
  destruct (py_in (model self) ["esrnn"]) eqn:E2; [discriminate|].
  intros H. inversion H. split; [reflexivity|].
  intros [Hm|Hm]; apply py_in_singleton in Hm; congruence.
Qed.

Lemma Forall2_nth_error_r {A B : Type} (R : A -> B -> Prop) (l : list A) (l' : list B) :
  Forall2 R l l' ->
  forall i b, nth_error l' i = Some b -> exists a, nth_error l i = Some a /\ R a b.
Proof.
  induction 1 as [|a0 b0 l l' H0 H IH]; intros i b Hi.
  - destruct i; discriminate.
  - destruct i as [|i]; simpl in *.
    + inversion Hi. subst. exists a0. auto.
    + apply IH. assumption.
Qed.

Lemma define_sampleable_ts_idxs_ok (self self' : TimeSeriesLoader) :
  _define_sampleable_ts_idxs self = Ok self' ->
  exists c rows,
    list_index "sample_mask" (t_cols (ts_dataset self)) = Ok c /\
    select_channel c (ts_tensor (ts_dataset self)) = Ok rows /\
    self' = set_sampleable self
              (nonzero (map (fun s => series_threshold self <? s) (map sumZ rows))).
Proof.
  unfold _define_sampleable_ts_idxs. intros H.
  apply bind_ok in H. destruct H as [c [Hc H]].
  apply bind_ok in H. destruct H as [rows [Hrows H]].
  inversion H. exists c, rows. auto.
Qed.

Lemma define_sampleable_ts_idxs_total (self : TimeSeriesLoader) :
  store_has_sample_mask (ts_dataset self) ->
  exists self', _define_sampleable_ts_idxs self = Ok self'.
Proof.
  intros [c [Hc Hall]]. unfold _define_sampleable_ts_idxs. rewrite Hc. simpl.
  destruct (mapM_total (fun s => get s c) (ts_tensor (ts_dataset self))) as [rows Hrows].
  - eapply Forall_impl; [|exact Hall]. intros s Hs. simpl in Hs.
    unfold get. destruct (nth_error s c) eqn:E; [eauto|].
    apply nth_error_None in E. lia.
  - unfold select_channel. rewrite Hrows. simpl. eexists. reflexivity.
Qed.

(** Membership in the index set [_define_sampleable_ts_idxs] stores. *)
Lemma define_sampleable_ts_idxs_In (self self' : TimeSeriesLoader) :
  _define_sampleable_ts_idxs self = Ok self' ->
  forall i, In i (sampleable_ts_idxs self') <->
            exists s, series_sample_mask_sum (ts_dataset self) i = Some s /\
                      series_threshold self < s.
Proof.
  intros H i. apply define_sampleable_ts_idxs_ok in H.
  destruct H as [c [rows [Hc [Hrows ->]]]]. simpl.
  rewrite nonzero_In. unfold series_sample_mask_sum. rewrite Hc.
  unfold select_channel in Hrows. rewrite !nth_error_map. split.
  - intros H. destruct (nth_error rows i) as [row|] eqn:Erow; [|discriminate].
    simpl in H. inversion H as [Hlt]. apply Z.ltb_lt in Hlt.
    apply mapM_ok_Forall2 in Hrows.
    destruct (Forall2_nth_error_r _ _ _ Hrows i row Erow) as [s [Hs Hget]].
    apply get_ok in Hget. rewrite Hs, Hget. simpl. exists (sumZ row). auto.
  - intros [s [Hs Hlt]].
    destruct (nth_error (ts_tensor (ts_dataset self)) i) as [ser|] eqn:Eser;
      [|discriminate].
    destruct (nth_error ser c) as [row|] eqn:Erow; [|discriminate].
    simpl in Hs. inversion Hs. subst s.
    destruct (mapM_nth_error _ _ _ Hrows i ser Eser) as [row' [Hrow' Hget]].
    apply get_ok in Hget. rewrite Erow in Hget. inversion Hget. subst row'.
    rewrite Hrow'. simpl. f_equal. apply Z.ltb_lt. assumption.
Qed.

(** What a successful [__init__] went through. *)
Lemma init_ok_inv (a : InitArgs) (self : TimeSeriesLoader) :
  __init__ a = Ok self ->
  exists lsc self1 self2,
    (arg_len_sample_chunks a = None /\ lsc = arg_input_size a + arg_output_size a \/
     arg_len_sample_chunks a = Some lsc /\ arg_input_size a + arg_output_size a <= lsc) /\
    resolved_n_series_per_batch a <> 0 /\
    arg_batch_size a mod resolved_n_series_per_batch a = 0 /\
    resolved_n_series_per_batch a <= n_series (arg_ts_dataset a) /\
    _define_attributes_by_model (initial_attributes a lsc) = Ok self1 /\
    _define_sampleable_ts_idxs self1 = Ok self2 /\
    self = set_n_batches self2
             (- ((- n_sampleable_ts self2) / resolved_n_series_per_batch a)).
Proof.
  unfold __init__. intros H.
  apply bind_ok in H. destruct H as [lsc [Hlsc H]].
  apply bind_ok in H. destruct H as [r [Hr H]].
  apply bind_ok in H. destruct H as [u1 [Hmul H]]. apply py_assert_ok in Hmul.
  apply bind_ok in H. destruct H as [u2 [Hle H]]. apply py_assert_ok in Hle.
  apply bind_ok in H. destruct H as [self1 [H1 H]].
  apply bind_ok in H. destruct H as [self2 [H2 H]].
  apply bind_ok in H. destruct H as [n [Hn H]].
  inversion H. subst self. clear H.
  exists lsc, self1, self2.
  simpl in Hr, Hle. unfold py_mod in Hr.
  destruct (resolved_n_series_per_batch a =? 0) eqn:E0; [discriminate|].
  apply Z.eqb_neq in E0. inversion Hr. subst r. clear Hr.
  apply Z.eqb_eq in Hmul. apply Z.leb_le in Hle.
  assert (Hnspb : n_series_per_batch self2 = resolved_n_series_per_batch a).
  { apply define_sampleable_ts_idxs_ok in H2. destruct H2 as [c [rows [_ [_ ->]]]].
    apply define_attributes_by_model_ok in H1.
    destruct H1 as [[_ ->]|[_ ->]]; reflexivity. }
  rewrite Hnspb in Hn. unfold py_ceil_div in Hn.
  apply Z.eqb_neq in E0. rewrite E0 in Hn. apply Z.eqb_neq in E0.
  inversion Hn. subst n. clear Hn.
  repeat split; try assumption.
  destruct (arg_len_sample_chunks a) as [l|].
  - destruct (l <? arg_input_size a + arg_output_size a) eqn:El; [discriminate|].
    inversion Hlsc. subst. right. split; [reflexivity|].
    apply Z.ltb_ge. assumption.
  - inversion Hlsc. left. auto.
Qed.

(** The attributes of a constructed loader that come from the arguments. *)
Lemma init_ok_attributes (a : InitArgs) (self : TimeSeriesLoader) :
  __init__ a = Ok self ->
  ts_dataset self = arg_ts_dataset a /\
  complete_inputs self = arg_complete_inputs a /\
  shuffle self = arg_shuffle a /\
  output_size self = arg_output_size a /\
  input_size self = arg_input_size a /\
  batch_size self = arg_batch_size a /\
  n_series_per_batch self = resolved_n_series_per_batch a /\
  n_sampleable_ts self = Z.of_nat (length (sampleable_ts_idxs self)) /\
  n_batches self = - ((- n_sampleable_ts self) / n_series_per_batch self).
Proof.
  intros H. apply init_ok_inv in H.
  destruct H as [lsc [self1 [self2 [_ [_ [_ [_ [H1 [H2 ->]]]]]]]]].
  apply define_sampleable_ts_idxs_ok in H2. destruct H2 as [c [rows [_ [_ ->]]]].
  apply define_attributes_by_model_ok in H1.
  destruct H1 as [[_ ->]|[_ ->]]; simpl; repeat split; reflexivity.
Qed.

(** C2: a series index is in [sampleable_ts_idxs] of a constructed loader
    exactly when the sum of its [sample_mask] channel over all time steps of
    the full series tensor is strictly greater than the threshold, which is
    [windows_size] under [complete_inputs] and [output_size] otherwise; a
    series whose sum is at most the threshold is never in the set. *)
Theorem sampleable_ts_idxs_threshold (a : InitArgs) (self : TimeSeriesLoader) :
  __init__ a = Ok self ->
  series_threshold self =
    (if arg_complete_inputs a then windows_size self else arg_output_size a) /\
  (forall i, In i (sampleable_ts_idxs self) <->
             exists s, series_sample_mask_sum (arg_ts_dataset a) i = Some s /\
                       series_threshold self < s) /\
  (forall i s, series_sample_mask_sum (arg_ts_dataset a) i = Some s ->
               s <= series_threshold self ->
               ~ In i (sampleable_ts_idxs self)).
Proof.
  intros H.
  assert (Hiff : forall i, In i (sampleable_ts_idxs self) <->
             exists s, series_sample_mask_sum (arg_ts_dataset a) i = Some s /\
                       series_threshold self < s).
  { pose proof (init_ok_inv _ _ H)
      as [lsc [self1 [self2 [_ [_ [_ [_ [H1 [H2 ->]]]]]]]]].
    intros i. simpl.
    rewrite (define_sampleable_ts_idxs_In _ _ H2 i).
    apply define_sampleable_ts_idxs_ok in H2. destruct H2 as [c [rows [_ [_ ->]]]].
    apply define_attributes_by_model_ok in H1.
    destruct H1 as [[_ ->]|[_ ->]]; simpl; reflexivity. }
  destruct (init_ok_attributes _ _ H) as [_ [Hci [_ [Hout _]]]].
  split; [|split].
  - unfold series_threshold. rewrite Hci, Hout. reflexivity.
  - exact Hiff.
  - intros i s Hs Hle Hin. apply Hiff in Hin. destruct Hin as [s' [Hs' Hlt]].
    rewrite Hs in Hs'. inversion Hs'. lia.
Qed.

Lemma sampleable_ts_idxs_threshold_witness :
  __init__ (demo_args "nbeats" false false) = Ok (demo_loader false false) /\
  (In 0%nat (sampleable_ts_idxs (demo_loader false false)) <->
   exists s, series_sample_mask_sum demo_store 0 = Some s /\
             series_threshold (demo_loader false false) < s).
Proof.
  split; [reflexivity|].
  apply (sampleable_ts_idxs_threshold (demo_args "nbeats" false false)
           (demo_loader false false)).
  reflexivity.
Defined.

Lemma list_index_raise (x : string) (l : list string) (e : exn) :
  list_index x l = Raise e -> e = ValueError.
Proof.
  induction l as [|y l IH]; simpl.
  - intros H. inversion H. reflexivity.
  - destruct (String.eqb y x); [discriminate|].
    destruct (list_index x l); simpl; [discriminate|].
    intros H. inversion H. subst. apply IH. reflexivity.
Qed.

Lemma mapM_raise {A B : Type} (f : A -> result B) (l : list A) (e : exn) :
  mapM f l = Raise e -> exists a, In a l /\ f a = Raise e.
Proof.
  induction l as [|a l IH]; simpl; [discriminate|].
  destruct (f a) as [b|e'] eqn:Ea; simpl.
  - destruct (mapM f l) as [bs|e'']; simpl; [discriminate|].
    intros H. inversion H. subst.
    destruct (IH eq_refl) as [a' [Hin Ha']]. exists a'. auto.
  - intros H. inversion H. subst. exists a. auto.
Qed.

Lemma select_channel_raise (c : nat) (t : Tensor3) (e : exn) :
  select_channel c t = Raise e -> e = IndexError.
Proof.
  intros H. apply mapM_raise in H. destruct H as [s [_ H]].
  unfold get in H. destruct (nth_error s c); inversion H. reflexivity.
Qed.

Lemma define_sampleable_ts_idxs_raise (self : TimeSeriesLoader) (e : exn) :
  _define_sampleable_ts_idxs self = Raise e -> e = ValueError \/ e = IndexError.
Proof.
  unfold _define_sampleable_ts_idxs.
  destruct (list_index "sample_mask" (t_cols (ts_dataset self))) as [c|e1] eqn:E1;
    simpl.
  - destruct (select_channel c (ts_tensor (ts_dataset self))) as [rows|e2] eqn:E2;
      simpl; [discriminate|].
    intros H. inversion H. subst. right. eapply select_channel_raise. eassumption.
  - intros H. inversion H. subst. left. eapply list_index_raise. eassumption.
Qed.

(** The protections of [__init__], in the order they run: either one of them
    fires, or construction reaches [_define_sampleable_ts_idxs]. *)
Lemma init_cases (a : InitArgs) :
  resolved_n_series_per_batch a <> 0 ->
  (invalid_configuration a /\
   exists e, __init__ a = Raise e /\ ConfigurationError e) \/
  (~ invalid_configuration a /\
   exists self1,
     n_series_per_batch self1 = resolved_n_series_per_batch a /\
     ts_dataset self1 = arg_ts_dataset a /\
     __init__ a =
       (self2 <- _define_sampleable_ts_idxs self1 ;;
        n <- py_ceil_div (n_sampleable_ts self2) (n_series_per_batch self2) ;;
        Ok (set_n_batches self2 n))).
Proof.
  intros Hn. unfold __init__, invalid_configuration, ConfigurationError.
  assert (Hlsc :
    (exists l, arg_len_sample_chunks a = Some l /\
               l < arg_input_size a + arg_output_size a) \/
    (~ (exists l, arg_len_sample_chunks a = Some l /\
                  l < arg_input_size a + arg_output_size a) /\
     exists lsc,
       match arg_len_sample_chunks a with
       | Some l => if l <? arg_input_size a + arg_output_size a
                   then Raise (Exception InsufficientLenOfSampleChunks)
                   else Ok l
       | None => Ok (arg_input_size a + arg_output_size a)
       end = Ok lsc)).
  { destruct (arg_len_sample_chunks a) as [l|].
    - destruct (l <? arg_input_size a + arg_output_size a) eqn:El.
      + left. exists l. split; [reflexivity|]. apply Z.ltb_lt. assumption.
      + right. split; [|eauto]. intros [l' [Hl' Hlt]].
        inversion Hl'. subst. apply Z.ltb_ge in El. lia.
    - right. split; [|eauto]. intros [l' [Hl' _]]. discriminate. }
  destruct Hlsc as [[l [Hl Hlt]]|[Hgood [lsc Hlsc]]].
  { left. split; [right; left; eauto|].
    rewrite Hl. apply Z.ltb_lt in Hlt. rewrite Hlt. simpl. eauto. }
  rewrite Hlsc. simpl. unfold py_mod.
  apply Z.eqb_neq in Hn. rewrite Hn. apply Z.eqb_neq in Hn. simpl.
  destruct (arg_batch_size a mod resolved_n_series_per_batch a =? 0) eqn:Emod; simpl.
  2:{ left. split; [|eauto 6]. right. right. left. intros Hdiv.
      apply Z.mod_divide in Hdiv; [|assumption].
      apply Z.eqb_neq in Emod. contradiction. }
  apply Z.eqb_eq in Emod.
  destruct (resolved_n_series_per_batch a <=? n_series (arg_ts_dataset a)) eqn:Ele;
    simpl.
  2:{ left. split; [|eauto 6]. right. right. right. apply Z.leb_gt. assumption. }
  apply Z.leb_le in Ele.
  destruct (_define_attributes_by_model (initial_attributes a lsc)) as [self1|e] eqn:E1;
    simpl.
  - right. split.
    + apply define_attributes_by_model_ok in E1. simpl in E1.
      intros [Hbad|[Hbad|[Hbad|Hbad]]].
      * apply Hbad. unfold known_family. destruct E1 as [[-> _]|[-> _]]; auto.
      * contradiction.
      * apply Hbad. apply Z.mod_divide; assumption.
      * lia.
    + exists self1. apply define_attributes_by_model_ok in E1.
      destruct E1 as [[_ ->]|[_ ->]]; simpl; auto.
  - left. apply define_attributes_by_model_raise in E1. destruct E1 as [-> Hbad].
    split; [left; exact Hbad | eauto 6].
Qed.

(** C6: construction raises a configuration error exactly when the static
    configuration is invalid (unknown model family; [len_sample_chunks] given
    and smaller than [input_size + output_size]; [batch_size] not a multiple
    of the stored [n_series_per_batch]; [n_series_per_batch] larger than the
    series count), and then returns no loader; a valid configuration on a
    store that has a [sample_mask] channel constructs a loader.  The stored
    [n_series_per_batch] is taken nonzero. *)
Theorem init_configuration_error_iff (a : InitArgs) :
  resolved_n_series_per_batch a <> 0 ->
  ((exists e, __init__ a = Raise e /\ ConfigurationError e) <->
   invalid_configuration a) /\
  (invalid_configuration a -> forall self, __init__ a <> Ok self) /\
  (~ invalid_configuration a ->
   store_has_sample_mask (arg_ts_dataset a) ->
   exists self, __init__ a = Ok self).
Proof.
  intros Hn.
  destruct (init_cases a Hn) as [[Hbad [e [He Hc]]]|[Hgood [self1 [Hn1 [Hds Heq]]]]].
  - split; [|split].
    + split; [intros _; exact Hbad | intros _; eauto].
    + intros _ self Hself. rewrite He in Hself. discriminate.
    + intros Hgood. contradiction.
  - split; [|split].
    + split; [|intros Hbad; contradiction].
      intros [e [He Hc]]. exfalso. rewrite Heq in He.
      destruct (_define_sampleable_ts_idxs self1) as [self2|e2] eqn:E2; simpl in He.
      * assert (Hn2 : n_series_per_batch self2 = resolved_n_series_per_batch a).
        { apply define_sampleable_ts_idxs_ok in E2.
          destruct E2 as [c [rows [_ [_ ->]]]]. simpl. exact Hn1. }
        unfold py_ceil_div in He. rewrite Hn2 in He.
        apply Z.eqb_neq in Hn. rewrite Hn in He. simpl in He. discriminate.
      * inversion He. subst e2.
        apply define_sampleable_ts_idxs_raise in E2.
        unfold ConfigurationError in Hc.
        destruct E2 as [->| ->];
          destruct Hc as [Hc|[Hc|[Hc|Hc]]]; discriminate.
    + intros Hbad. contradiction.
    + intros _ Hstore. rewrite Heq. rewrite <- Hds in Hstore.
      destruct (define_sampleable_ts_idxs_total self1 Hstore) as [self2 E2].
      rewrite E2. simpl.
      assert (Hn2 : n_series_per_batch self2 = resolved_n_series_per_batch a).
      { apply define_sampleable_ts_idxs_ok in E2.
        destruct E2 as [c [rows [_ [_ ->]]]]. simpl. exact Hn1. }
      unfold py_ceil_div. rewrite Hn2.
      apply Z.eqb_neq in Hn. rewrite Hn. simpl. eauto.
Qed.

Lemma init_configuration_error_iff_witness :
  resolved_n_series_per_batch (demo_args "arima" false false) <> 0 /\
  ((exists e, __init__ (demo_args "arima" false false) = Raise e /\
              ConfigurationError e) <->
   invalid_configuration (demo_args "arima" false false)).
Proof.
  assert (H : resolved_n_series_per_batch (demo_args "arima" false false) <> 0).
  { vm_compute. discriminate. }
  split; [exact H|].
  apply (init_configuration_error_iff (demo_args "arima" false false) H).
Defined.

(** With a stored [n_series_per_batch] of zero, the case the property above
    leaves out, construction still fails at once: the modulo of the first
    protection raises before any assertion is evaluated (unless the check of
    [len_sample_chunks] has already raised). *)
Remark init_zero_series_per_batch (a : InitArgs) :
  resolved_n_series_per_batch a = 0 ->
  __init__ a = Raise ZeroDivisionError \/
  __init__ a = Raise (Exception InsufficientLenOfSampleChunks).
Proof.
  intros Hz. unfold __init__.
  destruct (arg_len_sample_chunks a) as [l|].
  - destruct (l <? arg_input_size a + arg_output_size a); [right; reflexivity|].
    left. simpl. unfold py_mod. rewrite Hz. reflexivity.
  - left. simpl. unfold py_mod. rewrite Hz. reflexivity.
Qed.

(** ** Window-level eligibility *)

Lemma list_index_lt (x : string) (l : list string) (c : nat) :
  list_index x l = Ok c -> (c < length l)%nat.
Proof.
  revert c. induction l as [|y l IH]; intros c; simpl; [discriminate|].
  destruct (String.eqb y x).
  - intros H. inversion H. lia.
  - intros H. apply bind_ok in H. destruct H as [n [Hn H]].
    inversion H. apply IH in Hn. lia.
Qed.

(** [row[-o:]] for a positive [o] is the last [o] steps. *)
Lemma py_slice_last (o : Z) (row : list Z) :
  0 < o -> py_slice (Some (- o)) None row = last_steps (Z.to_nat o) row.
Proof.
  intros Ho. unfold py_slice, slice_bound, last_steps.
  assert (E : (- o <? 0) = true) by (apply Z.ltb_lt; lia). rewrite E.
  replace (Z.to_nat (Z.max (- o + Z.of_nat (length row)) 0))
    with (length row - Z.to_nat o)%nat by lia.
  apply firstn_all2. rewrite length_skipn. lia.
Qed.

(** [row[:-o]] for a positive [o] is the first [len - o] steps. *)
Lemma py_slice_first (o : Z) (row : list Z) :
  0 < o ->
  py_slice None (Some (- o)) row = firstn (Z.to_nat (Z.of_nat (length row) - o)) row.
Proof.
  intros Ho. unfold py_slice, slice_bound.
  assert (E : (- o <? 0) = true) by (apply Z.ltb_lt; lia). rewrite E.
  simpl skipn. f_equal. lia.
Qed.

Lemma nth_error_map_combine {A B C D E : Type}
    (h : C * D -> E) (f : A -> C) (g : B -> D) (l1 : list A) (l2 : list B) :
  forall i,
    nth_error (map h (combine (map f l1) (map g l2))) i =
    match nth_error l1 i, nth_error l2 i with
    | Some a, Some b => Some (h (f a, g b))
    | _, _ => None
    end.
Proof.
  revert l2. induction l1 as [|a l1 IH]; intros l2 i.
  - destruct i; reflexivity.
  - destruct l2 as [|b l2].
    + destruct i as [|i]; simpl; [reflexivity|].
      destruct (nth_error l1 i); reflexivity.
    + destruct i as [|i]; simpl; [reflexivity|]. apply IH.
Qed.

Lemma select_channel_nth (c : nat) (ws : Tensor3) (rows : list (list Z)) :
  select_channel c ws = Ok rows ->
  forall i, nth_error rows i =
            match nth_error ws i with
            | Some w => nth_error w c
            | None => None
            end.
Proof.
  unfold select_channel. intros H i.
  destruct (nth_error ws i) as [w|] eqn:Ew.
  - destruct (mapM_nth_error _ _ _ H i w Ew) as [row [Hrow Hget]].
    apply get_ok in Hget. congruence.
  - apply mapM_length in H. apply nth_error_None.
    apply nth_error_None in Ew. lia.
Qed.

Lemma select_channel_total (c : nat) (ws : Tensor3) :
  Forall (fun w => (c < length w)%nat) ws -> exists rows, select_channel c ws = Ok rows.
Proof.
  intros H. apply mapM_total. eapply Forall_impl; [|exact H].
  intros w Hw. simpl in Hw. unfold get.
  destruct (nth_error w c) eqn:E; [eauto|]. apply nth_error_None in E. lia.
Qed.

Lemma eq_flag_nonzero (x v : Z) : negb (eq_flag x v =? 0) = true <-> v = x.
Proof.
  unfold eq_flag. destruct (v =? x) eqn:E; simpl.
  - apply Z.eqb_eq in E. tauto.
  - apply Z.eqb_neq in E. split; [discriminate | contradiction].
Qed.

Lemma eq_flag_product (x y u v : Z) :
  (0 <? eq_flag x u * eq_flag y v) = true <-> u = x /\ v = y.
Proof.
  unfold eq_flag.
  destruct (Z.eqb_spec u x) as [E1|E1]; destruct (Z.eqb_spec v y) as [E2|E2];
    simpl; split; try discriminate; try tauto; reflexivity.
Qed.

(** The index vector holds exactly the positions of the eligible windows. *)
Lemma sampling_idx_In (self : TimeSeriesLoader) (ws : Tensor3) (idxs : list nat) :
  0 < output_size self ->
  Forall (fun w => Forall (fun row => Z.of_nat (length row) = windows_size self) w) ws ->
  sampling_idx self ws = Ok idxs ->
  forall i, In i idxs <->
            exists w, nth_error ws i = Some w /\ window_eligible self w.
Proof.
  intros Ho Hshape H i. unfold sampling_idx in H.
  apply bind_ok in H. destruct H as [c [Hc H]].
  apply bind_ok in H. destruct H as [rows [Hrows H]].
  pose proof (select_channel_nth _ _ _ Hrows i) as Hnth.
  unfold window_eligible, sample_complete, input_complete, named_channel.
  rewrite Hc.
  destruct (complete_inputs self).
  - apply bind_ok in H. destruct H as [c' [Hc' H]].
    apply bind_ok in H. destruct H as [rows' [Hrows' H]].
    pose proof (select_channel_nth _ _ _ Hrows' i) as Hnth'.
    inversion H. subst idxs. clear H. rewrite Hc'.
    rewrite nonzero_In, !map_map, nth_error_map_combine, Hnth, Hnth'.
    destruct (nth_error ws i) as [w|] eqn:Ew.
    2:{ split; [discriminate|]. intros [w [Hw _]]. discriminate. }
    assert (Hw : Forall (fun row => Z.of_nat (length row) = windows_size self) w).
    { eapply Forall_forall in Hshape; [exact Hshape|].
      eapply nth_error_In. eassumption. }
    split.
    + intros H. destruct (nth_error w c') as [am|] eqn:Eam; [|discriminate].
      destruct (nth_error w c) as [sm|] eqn:Esm; [|discriminate].
      inversion H as [Hprod]. apply eq_flag_product in Hprod.
      destruct Hprod as [Hav Hsa].
      rewrite py_slice_last in Hsa by assumption.
      rewrite py_slice_first in Hav by assumption.
      assert (Hlen : Z.of_nat (length am) = windows_size self).
      { eapply Forall_forall in Hw; [exact Hw|]. eapply nth_error_In. eassumption. }
      rewrite Hlen in Hav.
      exists w. split; [reflexivity|]. split; [exists sm | exists am]; auto.
    + intros [w' [Hw' [[sm [Hsm Hsa]] [am [Ham Hav]]]]].
      inversion Hw'. subst w'. rewrite Hsm, Ham. f_equal.
      apply eq_flag_product.
      rewrite py_slice_last by assumption.
      rewrite py_slice_first by assumption.
      assert (Hlen : Z.of_nat (length am) = windows_size self).
      { eapply Forall_forall in Hw; [exact Hw|]. eapply nth_error_In. eassumption. }
      rewrite Hlen. auto.
  - inversion H. subst idxs. clear H.
    rewrite nonzero_In, !map_map, nth_error_map, Hnth.
    destruct (nth_error ws i) as [w|] eqn:Ew.
    2:{ split; [discriminate|]. intros [w [Hw _]]. discriminate. }
    split.
    + intros H. destruct (nth_error w c) as [sm|] eqn:Esm; [|discriminate].
      simpl in H. inversion H as [Hflag]. apply eq_flag_nonzero in Hflag.
      rewrite py_slice_last in Hflag by assumption.
      exists w. split; [reflexivity|]. exists sm. auto.
    + intros [w' [Hw' [sm [Hsm Hsa]]]]. inversion Hw'. subst w'.
      rewrite Hsm. simpl. f_equal. apply eq_flag_nonzero.
      rewrite py_slice_last by assumption. assumption.
Qed.

Lemma sampling_idx_total (self : TimeSeriesLoader) (ws : Tensor3) :
  windows_well_formed self ws -> exists idxs, sampling_idx self ws = Ok idxs.
Proof.
  intros [[c Hc] [[c' Hc'] Hws]]. unfold sampling_idx. rewrite Hc. simpl.
  destruct (select_channel_total c ws) as [rows Hrows].
  { eapply Forall_impl; [|exact Hws]. intros w [Hlen _]. simpl.
    rewrite Hlen. eapply list_index_lt. eassumption. }
  rewrite Hrows. simpl.
  destruct (complete_inputs self); [|eauto].
  rewrite Hc'. simpl.
  destruct (select_channel_total c' ws) as [rows' Hrows'].
  { eapply Forall_impl; [|exact Hws]. intros w [Hlen _]. simpl.
    rewrite Hlen. eapply list_index_lt. eassumption. }
  rewrite Hrows'. simpl. eauto.
Qed.

Lemma get_sampleable_windows_idxs_cases (self : TimeSeriesLoader) (ws : Tensor3) :
  _get_sampleable_windows_idxs self ws =
  match sampling_idx self ws with
  | Ok [] => Raise (AssertionError EmptySampleIdxs)
  | Ok idxs => Ok idxs
  | Raise e => Raise e
  end.
Proof.
  unfold _get_sampleable_windows_idxs.
  destruct (sampling_idx self ws) as [[|i l]|e]; reflexivity.
Qed.

(** C1: on a window tensor of shape (windows, n_channels, windows_size) and
    with a positive horizon, the eligibility check returns exactly the
    positions of the windows whose [sample_mask] sums to [output_size] over
    the last [output_size] steps and, under [complete_inputs], whose
    [available_mask] also sums to [windows_size - output_size] over the first
    [windows_size - output_size] steps; without [complete_inputs] only the
    sample condition applies.  When no window qualifies the check raises its
    assertion instead. *)
Theorem get_sampleable_windows_idxs_eligible (self : TimeSeriesLoader) (ws : Tensor3) :
  0 < output_size self ->
  windows_well_formed self ws ->
  (exists idxs,
     _get_sampleable_windows_idxs self ws = Ok idxs /\ idxs <> [] /\
     forall i, In i idxs <->
               exists w, nth_error ws i = Some w /\ window_eligible self w) \/
  (_get_sampleable_windows_idxs self ws = Raise (AssertionError EmptySampleIdxs) /\
   forall i w, nth_error ws i = Some w -> ~ window_eligible self w).
Proof.
  intros Ho Hwf.
  destruct (sampling_idx_total self ws Hwf) as [idxs Hidxs].
  assert (Hshape : Forall (fun w => Forall (fun row =>
                      Z.of_nat (length row) = windows_size self) w) ws).
  { destruct Hwf as [_ [_ Hws]]. eapply Forall_impl; [|exact Hws].
    intros w [_ Hw]. exact Hw. }
  pose proof (sampling_idx_In self ws idxs Ho Hshape Hidxs) as Hin.
  rewrite get_sampleable_windows_idxs_cases, Hidxs.
  destruct idxs as [|i0 idxs].
  - right. split; [reflexivity|]. intros i w Hw Hel.
    apply (proj2 (Hin i)). eauto.
  - left. exists (i0 :: idxs). split; [reflexivity|]. split; [discriminate|].
    exact Hin.
Qed.

(** ** Lists cut in equal pieces *)

Lemma chunk_fuel_concat {A : Type} (n : nat) (ls : list (list A)) :
  (0 < n)%nat ->
  Forall (fun l => length l = n) ls ->
  forall fuel, (length ls <= fuel)%nat -> chunk_fuel fuel n (concat ls) = ls.
Proof.
  intros Hn Hall. induction Hall as [|l ls Hl _ IH]; intros fuel Hfuel.
  - destruct fuel; reflexivity.
  - destruct fuel as [|fuel]; simpl in Hfuel; [lia|].
    simpl. destruct (l ++ concat ls) as [|x rest] eqn:E.
    + destruct l; [simpl in Hl; lia | discriminate].
    + rewrite <- E. rewrite <- Hl at 1 3.
      rewrite firstn_app, Nat.sub_diag, firstn_all, firstn_O, app_nil_r.
      rewrite skipn_app, Nat.sub_diag, skipn_all. simpl.
      rewrite IH by lia. reflexivity.
Qed.

Lemma length_concat_uniform {A : Type} (n : nat) (ls : list (list A)) :
  Forall (fun l => length l = n) ls -> length (concat ls) = (length ls * n)%nat.
Proof.
  induction 1 as [|l ls Hl _ IH]; simpl; [reflexivity|].
  rewrite length_app, IH, Hl. reflexivity.
Qed.

Lemma chunk_concat {A : Type} (n : nat) (ls : list (list A)) :
  (0 < n)%nat -> Forall (fun l => length l = n) ls -> chunk n (concat ls) = ls.
Proof.
  intros Hn Hall. unfold chunk. apply chunk_fuel_concat; try assumption.
  rewrite (length_concat_uniform n) by assumption. nia.
Qed.

Lemma nth_error_concat_uniform {A : Type} (k : nat) (ls : list (list A)) :
  Forall (fun l => length l = k) ls ->
  forall s j, (j < k)%nat ->
    nth_error (concat ls) (s * k + j) =
    match nth_error ls s with
    | Some l => nth_error l j
    | None => None
    end.
Proof.
  induction 1 as [|l ls Hl Hall IH]; intros s j Hj.
  - simpl. destruct s; simpl; apply nth_error_None; simpl; lia.
  - destruct s as [|s]; simpl.
    + apply nth_error_app1. lia.
    + rewrite nth_error_app2 by lia.
      replace (k + s * k + j - length l)%nat with (s * k + j)%nat by lia.
      apply IH. assumption.
Qed.

Lemma np_repeat_concat {A : Type} (k : nat) (l : list A) :
  np_repeat k l = concat (map (fun a => repeat a k) l).
Proof. unfold np_repeat. apply flat_map_concat_map. Qed.

Lemma np_repeat_length {A : Type} (k : nat) (l : list A) :
  length (np_repeat k l) = (length l * k)%nat.
Proof.
  rewrite np_repeat_concat, (length_concat_uniform k).
  - rewrite length_map. reflexivity.
  - apply Forall_map. apply Forall_forall. intros a _. apply repeat_length.
Qed.

(** Entry [s * k + j] of a [repeat]ed vector is entry [s] of the vector. *)
Lemma np_repeat_nth_error {A : Type} (k : nat) (l : list A) (s j : nat) :
  (j < k)%nat -> nth_error (np_repeat k l) (s * k + j) = nth_error l s.
Proof.
  intros Hj. rewrite np_repeat_concat, (nth_error_concat_uniform k).
  - rewrite nth_error_map. destruct (nth_error l s) as [a|]; simpl; [|reflexivity].
    apply nth_error_repeat. assumption.
  - apply Forall_map. apply Forall_forall. intros a _. apply repeat_length.
  - assumption.
Qed.

(** ** Windowing engine *)

Lemma n_frames_offset (len : nat) (size step : Z) (j : nat) :
  0 < step -> 0 <= size <= Z.of_nat len ->
  (j < n_frames len size step)%nat ->
  (j * Z.to_nat step + Z.to_nat size <= len)%nat.
Proof.
  unfold n_frames. intros Hs Hw Hj.
  assert (Hq : 0 <= (Z.of_nat len - size) / step) by (apply Z.div_pos; lia).
  assert (Hm : step * ((Z.of_nat len - size) / step) <= Z.of_nat len - size)
    by (apply Z.mul_div_le; lia).
  assert (Hj' : Z.of_nat j <= (Z.of_nat len - size) / step) by lia.
  assert (Z.of_nat j * step <= Z.of_nat len - size) by nia.
  apply Nat2Z.inj_le. rewrite Nat2Z.inj_add, Nat2Z.inj_mul, !Z2Nat.id by lia. lia.
Qed.

Lemma frame_length (len : nat) (size step : Z) (row : list Z) (j : nat) :
  0 < step -> 0 <= size <= Z.of_nat len -> length row = len ->
  (j < n_frames len size step)%nat ->
  length (frame size step row j) = Z.to_nat size.
Proof.
  intros Hs Hw Hlen Hj. unfold frame.
  pose proof (n_frames_offset len size step j Hs Hw Hj).
  rewrite length_firstn, length_skipn. lia.
Qed.

Lemma unfold_row_ok (size step : Z) (row : list Z) :
  0 < step -> 0 <= size <= Z.of_nat (length row) ->
  unfold_row size step row =
  Ok (map (frame size step row) (seq 0 (n_frames (length row) size step))).
Proof.
  intros Hs Hw. unfold unfold_row.
  assert (E1 : (step <=? 0) = false) by (apply Z.leb_gt; lia).
  assert (E2 : (size <? 0) = false) by (apply Z.ltb_ge; lia).
  assert (E3 : (Z.of_nat (length row) <? size) = false) by (apply Z.ltb_ge; lia).
  rewrite E1, E2, E3. reflexivity.
Qed.

Lemma unfold_ok (n c len : nat) (size step : Z) (t : Tensor3) :
  0 < step -> 0 <= size <= Z.of_nat len ->
  tensor_shape n c len t ->
  unfold size step t =
  Ok (map (map (fun row => map (frame size step row)
                               (seq 0 (n_frames len size step)))) t).
Proof.
  intros Hs Hw [_ Hshape]. unfold unfold.
  apply mapM_pure. eapply Forall_impl; [|exact Hshape].
  intros series [_ Hrows]. simpl. apply mapM_pure.
  eapply Forall_impl; [|exact Hrows].
  intros row Hrow. simpl in Hrow. rewrite unfold_row_ok by lia.
  rewrite Hrow. reflexivity.
Qed.

Lemma transpose_hd (m : list (list (list Z))) :
  transpose m =
  map (fun j => map (fun row => nth j row []) m) (seq 0 (length (hd [] m))).
Proof. destruct m; reflexivity. Qed.

Lemma transpose_frames (size step : Z) (k : nat) (series : list (list Z)) :
  series <> [] ->
  transpose (map (fun row => map (frame size step row) (seq 0 k)) series) =
  map (window_at size step series) (seq 0 k).
Proof.
  intros Hne. rewrite transpose_hd.
  assert (Hk : length (hd [] (map (fun row => map (frame size step row) (seq 0 k))
                                  series)) = k).
  { destruct series; [contradiction|]. simpl. rewrite length_map, length_seq.
    reflexivity. }
  rewrite Hk. apply map_ext_in. intros j Hj. apply in_seq in Hj.
  unfold window_at. rewrite map_map. apply map_ext. intros row.
  rewrite (nth_indep _ [] (frame size step row 0%nat))
    by (rewrite length_map, length_seq; lia).
  rewrite (map_nth (frame size step row)), seq_nth by lia. reflexivity.
Qed.

Lemma permute_unfold (n c len : nat) (size step : Z) (t : Tensor3) :
  (0 < c)%nat -> tensor_shape n c len t ->
  concat (permute_0213
            (map (map (fun row => map (frame size step row)
                                      (seq 0 (n_frames len size step)))) t)) =
  windows_of size step (n_frames len size step) t.
Proof.
  intros Hc [_ Hshape]. unfold permute_0213, windows_of. rewrite map_map.
  f_equal. apply map_ext_in. intros series Hin.
  apply transpose_frames. intros ->.
  eapply Forall_forall in Hshape; [|exact Hin]. simpl in Hshape. lia.
Qed.

Lemma windows_of_shape (n c len : nat) (size step : Z) (t : Tensor3) :
  0 < step -> 0 <= size <= Z.of_nat len ->
  tensor_shape n c len t ->
  tensor_shape (n * n_frames len size step) c (Z.to_nat size)
               (windows_of size step (n_frames len size step) t).
Proof.
  intros Hs Hw [Hn Hshape]. unfold windows_of. split.
  - rewrite (length_concat_uniform (n_frames len size step)).
    + rewrite length_map, Hn. reflexivity.
    + apply Forall_map. apply Forall_forall. intros series _.
      rewrite length_map, length_seq. reflexivity.
  - apply Forall_concat. apply Forall_map.
    eapply Forall_impl; [|exact Hshape]. intros series [Hlen Hrows]. simpl.
    apply Forall_map. apply Forall_forall. intros j Hj. apply in_seq in Hj.
    unfold window_at. rewrite length_map. split; [assumption|].
    apply Forall_map. eapply Forall_impl; [|exact Hrows].
    intros row Hrow. simpl in Hrow. eapply frame_length; eauto. lia.
Qed.

Lemma reshape_windows (n c len : nat) (size : Z) (ws : Tensor3) :
  (0 < c)%nat -> 0 < size -> tensor_shape n c (Z.to_nat size) ws ->
  forall w4 : list (list (list (list Z))), concat w4 = ws ->
  reshape c size w4 = Ok ws.
Proof.
  intros Hc Hw [Hn Hshape] w4 Hw4. unfold reshape. rewrite Hw4.
  assert (Hrows : Forall (fun row => length row = Z.to_nat size) (concat ws)).
  { apply Forall_concat. eapply Forall_impl; [|exact Hshape].
    intros w [_ H]. exact H. }
  assert (Hchan : Forall (fun w => length w = c) ws).
  { eapply Forall_impl; [|exact Hshape]. intros w [H _]. exact H. }
  assert (E1 : (size <? 0) = false) by (apply Z.ltb_ge; lia).
  assert (E2 : (Z.of_nat c * size =? 0) = false) by (apply Z.eqb_neq; nia).
  rewrite E1, E2. simpl.
  rewrite (length_concat_uniform (Z.to_nat size)) by assumption.
  rewrite (length_concat_uniform c) by assumption.
  assert (E3 : (Z.of_nat (length ws * c * Z.to_nat size) mod (Z.of_nat c * size) =? 0)
               = true).
  { apply Z.eqb_eq. rewrite !Nat2Z.inj_mul, Z2Nat.id by lia.
    rewrite <- Z.mul_assoc. apply Z.mod_mul. nia. }
  rewrite E3. simpl.
  rewrite chunk_concat by (assumption || lia).
  rewrite chunk_concat by assumption. reflexivity.
Qed.

Lemma windows_per_serie_exact (n k : nat) :
  (0 < n)%nat -> windows_per_serie (n * k) (Z.of_nat n) = Ok k.
Proof.
  intros Hn. unfold windows_per_serie.
  assert (E : (Z.of_nat n =? 0) = false) by (apply Z.eqb_neq; lia).
  rewrite E. rewrite Nat2Z.inj_mul, Z.mul_comm, Z.quot_mul by lia.
  assert (E' : (Z.of_nat k <? 0) = false) by (apply Z.ltb_ge; lia).
  rewrite E', Nat2Z.id. reflexivity.
Qed.

Lemma take_total {A : Type} (l : list A) (idxs : list nat) :
  Forall (fun i => (i < length l)%nat) idxs -> exists r, take l idxs = Ok r.
Proof.
  intros H. apply mapM_total. eapply Forall_impl; [|exact H].
  intros i Hi. simpl in Hi. unfold get.
  destruct (nth_error l i) eqn:E; [eauto|]. apply nth_error_None in E. lia.
Qed.

Lemma take_nth_error {A : Type} (l : list A) (idxs : list nat) (r : list A) :
  take l idxs = Ok r ->
  forall s, nth_error r s =
            match nth_error idxs s with
            | Some i => nth_error l i
            | None => None
            end.
Proof.
  intros H s. destruct (nth_error idxs s) as [i|] eqn:Ei.
  - destruct (mapM_nth_error _ _ _ H s i Ei) as [a [Ha Hget]].
    apply get_ok in Hget. congruence.
  - apply mapM_length in H. apply nth_error_None.
    apply nth_error_None in Ei. lia.
Qed.

Lemma windows_of_nth_error (size step : Z) (k : nat) (t : Tensor3) (s j : nat) :
  (j < k)%nat ->
  nth_error (windows_of size step k t) (s * k + j) =
  option_map (fun series => window_at size step series j) (nth_error t s).
Proof.
  intros Hj. unfold windows_of. rewrite (nth_error_concat_uniform k).
  - rewrite nth_error_map. destruct (nth_error t s) as [series|]; simpl; [|reflexivity].
    rewrite nth_error_map, nth_error_seq.
    destruct (Nat.ltb_spec j k); [reflexivity | lia].
  - apply Forall_map. apply Forall_forall. intros series _.
    rewrite length_map, length_seq. reflexivity.
  - assumption.
Qed.

(** C4: for a selection of at least one series whose padded tensor has
    length [len], with [0 < windows_size <= len] and a positive stride, the
    windowing engine returns [n * k] windows of shape
    (n_channels, windows_size), [k = floor((len - windows_size) / stride) + 1];
    window [s * k + j] is the frame of series [s] at start offset
    [j * stride] (series-major, time-minor), and entry [s * k + j] of the
    static rows and of the series-index vector is the one of series [s]. *)
Theorem create_windows_tensor_layout
    (self : TimeSeriesLoader) (index : list nat) (tensor padded : Tensor3) (len : nat) :
  let n := length index in
  let c := n_channels (ts_dataset self) in
  let k := n_frames len (windows_size self) (idx_to_sample_freq self) in
  get_filtered_ts_tensor (ts_dataset self) (output_size self)
    (window_sampling_limit self) (Some index) = Some tensor ->
  padder (padding self) tensor = Ok padded ->
  tensor_shape n c len padded ->
  (0 < n)%nat -> (0 < c)%nat ->
  0 < windows_size self <= Z.of_nat len ->
  0 < idx_to_sample_freq self ->
  Forall (fun i => (i < length (s_matrix (ts_dataset self)))%nat) index ->
  exists windows s_rows ts_idxs,
    _create_windows_tensor self (Some index) = Ok (windows, s_rows, ts_idxs) /\
    Z.of_nat k = (Z.of_nat len - windows_size self) / idx_to_sample_freq self + 1 /\
    tensor_shape (n * k) c (Z.to_nat (windows_size self)) windows /\
    length s_rows = (n * k)%nat /\
    length ts_idxs = (n * k)%nat /\
    forall s j, (s < n)%nat -> (j < k)%nat ->
      nth_error windows (s * k + j) =
        option_map (fun series =>
                      window_at (windows_size self) (idx_to_sample_freq self) series j)
                   (nth_error padded s) /\
      nth_error s_rows (s * k + j) =
        match nth_error index s with
        | Some i => nth_error (s_matrix (ts_dataset self)) i
        | None => None
        end /\
      nth_error ts_idxs (s * k + j) = nth_error index s.
Proof.
  intros n c k Hget Hpad Hshape Hn Hc Hw Hs Hidx.
  pose proof (windows_of_shape n c len (windows_size self) (idx_to_sample_freq self)
                padded Hs ltac:(lia) Hshape) as Hwshape.
  fold k in Hwshape.
  destruct (take_total (s_matrix (ts_dataset self)) index Hidx) as [rows Hrows].
  exists (windows_of (windows_size self) (idx_to_sample_freq self) k padded),
         (np_repeat k rows), (np_repeat k index).
  split; [|split; [|split; [|split; [|split]]]].
  - unfold _create_windows_tensor. rewrite Hget. cbn [call_store bind]. rewrite Hpad. cbn [bind].
    rewrite (unfold_ok n c len) by (assumption || lia). cbn [bind].
    rewrite (reshape_windows (n * k) c len (windows_size self)
               (windows_of (windows_size self) (idx_to_sample_freq self) k padded));
      try assumption; try lia.
    2:{ apply (permute_unfold n c len); assumption. }
    cbn [bind]. rewrite Hrows. cbn [bind].
    destruct Hwshape as [Hlen _]. rewrite Hlen.
    fold n. rewrite windows_per_serie_exact by assumption. reflexivity.
  - unfold k, n_frames. rewrite Z2Nat.id; [reflexivity|].
    assert (0 <= (Z.of_nat len - windows_size self) / idx_to_sample_freq self)
      by (apply Z.div_pos; lia).
    lia.
  - exact Hwshape.
  - rewrite np_repeat_length. apply mapM_length in Hrows. rewrite Hrows. reflexivity.
  - rewrite np_repeat_length. reflexivity.
  - intros s j Hsn Hj. split; [|split].
    + apply windows_of_nth_error. assumption.
    + rewrite np_repeat_nth_error by assumption.
      apply (take_nth_error _ _ _ Hrows).
    + apply np_repeat_nth_error. assumption.
Qed.

(** For an empty selection, the case the property above leaves out, the
    engine returns nothing: [len(windows) / n_ts] divides by zero if no
    earlier step has raised. *)
Remark create_windows_tensor_empty_index (self : TimeSeriesLoader) :
  forall r, _create_windows_tensor self (Some []) <> Ok r.
Proof.
  intros r. unfold _create_windows_tensor.
  destruct (get_filtered_ts_tensor _ _ _ _) as [tensor|]; cbn [call_store bind];
    [|discriminate].
  destruct (padder _ tensor) as [padded|]; cbn [bind]; [|discriminate].
  destruct (unfold _ _ padded) as [u|]; cbn [bind]; [|discriminate].
  destruct (reshape _ _ _) as [windows|]; cbn [bind]; [|discriminate].
  simpl. discriminate.
Qed.

Lemma create_windows_tensor_layout_witness :
  exists windows s_rows ts_idxs,
    _create_windows_tensor (demo_loader false false) (Some [0; 1]%nat)
      = Ok (windows, s_rows, ts_idxs) /\
    tensor_shape 10 3 3 windows /\
    nth_error ts_idxs 7 = Some 1%nat.
Proof.
  destruct (create_windows_tensor_layout (demo_loader false false) [0; 1]%nat
              demo_tensor demo_padded 7)
    as [windows [s_rows [ts_idxs [Hrun [_ [Hshape [_ [_ Hat]]]]]]]].
  - reflexivity.
  - reflexivity.
  - split; [reflexivity|]. repeat constructor.
  - simpl. lia.
  - simpl. lia.
  - simpl. lia.
  - simpl. lia.
  - repeat constructor.
  - exists windows, s_rows, ts_idxs. split; [exact Hrun|]. split; [exact Hshape|].
    destruct (Hat 1%nat 2%nat) as [_ [_ H]].
    + simpl. lia.
    + vm_compute. lia.
    + exact H.
Defined.

Lemma get_sampleable_windows_idxs_eligible_witness :
  0 < output_size (demo_loader true false) /\
  windows_well_formed (demo_loader true false) demo_windows /\
  ((exists idxs,
      _get_sampleable_windows_idxs (demo_loader true false) demo_windows = Ok idxs /\
      idxs <> [] /\
      forall i, In i idxs <->
                exists w, nth_error demo_windows i = Some w /\
                          window_eligible (demo_loader true false) w) \/
   (_get_sampleable_windows_idxs (demo_loader true false) demo_windows
      = Raise (AssertionError EmptySampleIdxs) /\
    forall i w, nth_error demo_windows i = Some w ->
                ~ window_eligible (demo_loader true false) w)).
Proof.
  assert (Ho : 0 < output_size (demo_loader true false)) by (vm_compute; reflexivity).
  assert (Hwf : windows_well_formed (demo_loader true false) demo_windows).
  { split; [exists 2%nat; reflexivity|]. split; [exists 1%nat; reflexivity|].
    repeat constructor. }
  split; [exact Ho|]. split; [exact Hwf|].
  apply (get_sampleable_windows_idxs_eligible (demo_loader true false) demo_windows
           Ho Hwf).
Defined.

(** With a horizon of zero the two slices of the check degenerate: [row[-0:]]
    is the whole row and [row[:-0]] is empty, which is why the eligibility
    property above takes a positive horizon. *)
Remark py_slice_zero_horizon (row : list Z) :
  py_slice (Some (- 0)) None row = row /\ py_slice None (Some (- 0)) row = [].
Proof.
  unfold py_slice, slice_bound. simpl.
  replace (Z.to_nat (Z.min 0 (Z.of_nat (length row)))) with 0%nat by lia.
  rewrite Nat.sub_0_r. split; [apply firstn_all | reflexivity].
Qed.

(** C9: [_create_windows_tensor] called with [index=None] never returns:
    whenever the steps before it succeed (the store returns all its series,
    windowing and the repeat of the static rows go through), the call stops
    at [index.repeat] with an attribute error. *)
Theorem create_windows_tensor_none (self : TimeSeriesLoader) :
  (forall r, _create_windows_tensor self None <> Ok r) /\
  (forall (tensor padded : Tensor3) (len : nat),
     get_filtered_ts_tensor (ts_dataset self) (output_size self)
       (window_sampling_limit self) None = Some tensor ->
     padder (padding self) tensor = Ok padded ->
     tensor_shape (Z.to_nat (n_series (ts_dataset self)))
                  (n_channels (ts_dataset self)) len padded ->
     0 < n_series (ts_dataset self) ->
     (0 < n_channels (ts_dataset self))%nat ->
     0 < windows_size self <= Z.of_nat len ->
     0 < idx_to_sample_freq self ->
     _create_windows_tensor self None = Raise AttributeError).
Proof.
  split.
  - intros r. unfold _create_windows_tensor.
    destruct (get_filtered_ts_tensor _ _ _ None) as [tensor|]; cbn [call_store bind];
      [|discriminate].
    destruct (padder _ tensor) as [padded|]; cbn [bind]; [|discriminate].
    destruct (unfold _ _ padded) as [u|]; cbn [bind]; [|discriminate].
    destruct (reshape _ _ _) as [windows|]; cbn [bind]; [|discriminate].
    destruct (windows_per_serie _ _); cbn [bind]; discriminate.
  - intros tensor padded len Hget Hpad Hshape Hn Hc Hw Hs.
    set (n := Z.to_nat (n_series (ts_dataset self))) in *.
    set (k := n_frames len (windows_size self) (idx_to_sample_freq self)).
    pose proof (windows_of_shape n _ len (windows_size self) (idx_to_sample_freq self)
                  padded Hs ltac:(lia) Hshape) as Hwshape.
    fold k in Hwshape.
    unfold _create_windows_tensor. rewrite Hget. cbn [call_store bind]. rewrite Hpad. cbn [bind].
    rewrite (unfold_ok n (n_channels (ts_dataset self)) len) by (assumption || lia).
    cbn [bind].
    rewrite (reshape_windows (n * k) (n_channels (ts_dataset self)) len
               (windows_size self)
               (windows_of (windows_size self) (idx_to_sample_freq self) k padded));
      try assumption; try lia.
    2:{ apply (permute_unfold n (n_channels (ts_dataset self)) len); assumption. }
    cbn [bind]. destruct Hwshape as [Hlen _]. rewrite Hlen.
    replace (n_series (ts_dataset self)) with (Z.of_nat n) by (unfold n; lia).
    rewrite windows_per_serie_exact by (unfold n; lia). reflexivity.
Qed.

Lemma create_windows_tensor_none_witness :
  _create_windows_tensor (demo_loader false false) None = Raise AttributeError.
Proof.
  apply (proj2 (create_windows_tensor_none (demo_loader false false))
           demo_tensor demo_padded 7%nat).
  - reflexivity.
  - reflexivity.
  - split; [reflexivity|]. repeat constructor.
  - reflexivity.
  - simpl. lia.
  - simpl. lia.
  - reflexivity.
Defined.

(** ** Where exceptions come from *)

Lemma bind_raise {A B : Type} (c : result A) (k : A -> result B) (e : exn) :
  bind c k = Raise e <-> c = Raise e \/ exists a, c = Ok a /\ k a = Raise e.
Proof.
  destruct c as [a|e']; simpl; split.
  - intros H. right. exists a. auto.
  - intros [H|[a' [Ha Hk]]]; [discriminate|]. inversion Ha. subst. exact Hk.
  - intros H. left. inversion H. reflexivity.
  - intros [H|[a' [Ha _]]]; [inversion H; reflexivity | discriminate].
Qed.

Lemma pad_row_raise (p : Z * Z) (row : list Z) (e : exn) :
  pad_row p row = Raise e -> e = RuntimeError.
Proof.
  unfold pad_row. destruct p as [l r].
  destruct (length row <? Z.to_nat (- l) + Z.to_nat (- r))%nat; intros H;
    inversion H; reflexivity.
Qed.

Lemma padder_raise (p : Z * Z) (t : Tensor3) (e : exn) :
  padder p t = Raise e -> e = RuntimeError.
Proof.
  intros H. apply mapM_raise in H. destruct H as [s [_ H]].
  apply mapM_raise in H. destruct H as [row [_ H]].
  eapply pad_row_raise. eassumption.
Qed.

Lemma unfold_raise (size step : Z) (t : Tensor3) (e : exn) :
  unfold size step t = Raise e -> e = RuntimeError.
Proof.
  intros H. apply mapM_raise in H. destruct H as [s [_ H]].
  apply mapM_raise in H. destruct H as [row [_ H]].
  unfold unfold_row in H.
  destruct ((step <=? 0) || (size <? 0) || (Z.of_nat (length row) <? size));
    inversion H; reflexivity.
Qed.

Lemma reshape_raise (c : nat) (size : Z) (w : list (list (list (list Z)))) (e : exn) :
  reshape c size w = Raise e -> e = RuntimeError.
Proof.
  unfold reshape.
  destruct ((size <? 0) || (Z.of_nat c * size =? 0)).
  - intros H. inversion H. reflexivity.
  - destruct (negb _); intros H; inversion H. reflexivity.
Qed.

Lemma take_raise {A : Type} (l : list A) (idxs : list nat) (e : exn) :
  take l idxs = Raise e -> e = IndexError.
Proof.
  intros H. apply mapM_raise in H. destruct H as [i [_ H]].
  unfold get in H. destruct (nth_error l i); inversion H. reflexivity.
Qed.

Lemma windows_per_serie_raise (n : nat) (n_ts : Z) (e : exn) :
  windows_per_serie n n_ts = Raise e -> e = ZeroDivisionError \/ e = ValueError.
Proof.
  unfold windows_per_serie. destruct (n_ts =? 0).
  - intros H. inversion H. auto.
  - destruct (_ <? 0); intros H; inversion H. auto.
Qed.

Lemma create_windows_tensor_raise (self : TimeSeriesLoader) (index : option (list nat))
    (e : exn) :
  _create_windows_tensor self index = Raise e -> not_assertion e.
Proof.
  unfold _create_windows_tensor, not_assertion. intros H s.
  apply bind_raise in H. destruct H as [H|[tensor [_ H]]].
  { destruct (get_filtered_ts_tensor _ _ _ _); inversion H. discriminate. }
  apply bind_raise in H. destruct H as [H|[padded [_ H]]].
  { apply padder_raise in H. subst. discriminate. }
  apply bind_raise in H. destruct H as [H|[u [_ H]]].
  { apply unfold_raise in H. subst. discriminate. }
  apply bind_raise in H. destruct H as [H|[windows [_ H]]].
  { apply reshape_raise in H. subst. discriminate. }
  destruct index as [index|].
  - apply bind_raise in H. destruct H as [H|[rows [_ H]]].
    { apply take_raise in H. subst. discriminate. }
    apply bind_raise in H. destruct H as [H|[k [_ H]]]; [|discriminate].
    apply windows_per_serie_raise in H. destruct H; subst; discriminate.
  - apply bind_raise in H. destruct H as [H|[k [_ H]]].
    + apply windows_per_serie_raise in H. destruct H; subst; discriminate.
    + inversion H. discriminate.
Qed.

Lemma sampling_idx_raise (self : TimeSeriesLoader) (ws : Tensor3) (e : exn) :
  sampling_idx self ws = Raise e -> not_assertion e.
Proof.
  unfold sampling_idx, not_assertion. intros H s.
  apply bind_raise in H. destruct H as [H|[c [_ H]]].
  { apply list_index_raise in H. subst. discriminate. }
  apply bind_raise in H. destruct H as [H|[rows [_ H]]].
  { apply select_channel_raise in H. subst. discriminate. }
  destruct (complete_inputs self); [|discriminate].
  apply bind_raise in H. destruct H as [H|[c' [_ H]]].
  { apply list_index_raise in H. subst. discriminate. }
  apply bind_raise in H. destruct H as [H|[rows' [_ H]]]; [|discriminate].
  apply select_channel_raise in H. subst. discriminate.
Qed.

Lemma gather_batch_raise (self : TimeSeriesLoader) (windows : Tensor3)
    (s_rows : list (list Z)) (ts_idxs windows_idxs : list nat) (e : exn) :
  gather_batch self windows s_rows ts_idxs windows_idxs = Raise e -> not_assertion e.
Proof.
  unfold gather_batch, not_assertion. intros H s.
  repeat (apply bind_raise in H; destruct H as [H|[? [_ H]]];
          [ first [ apply take_raise in H
                  | apply list_index_raise in H
                  | apply select_channel_raise in H ];
            subst; discriminate | ]).
  discriminate.
Qed.

Lemma choice_raise {A : Type} (a : list A) (size : Z) (replace : bool)
    (g : RandomState) (e : exn) :
  fst (choice a size replace g) = Raise e -> not_assertion e.
Proof.
  unfold choice, not_assertion. intros H s.
  destruct (size <? 0); [inversion H; discriminate|].
  destruct ((length a =? 0)%nat && negb (size =? 0)); [inversion H; discriminate|].
  destruct replace.
  - destruct (randints _ _ g) as [idx g']. simpl in H.
    apply take_raise in H. subst. discriminate.
  - destruct (Z.of_nat (length a) <? size); [inversion H; discriminate|].
    destruct (permutation _ g) as [idx g']. simpl in H.
    apply take_raise in H. subst. discriminate.
Qed.

(** ** Batch sampler *)

(** [_windows_batch], step by step. *)
Lemma windows_batch_steps (index : list nat) (w : World) :
  _windows_batch index w =
  match _create_windows_tensor (loader w) (Some index) with
  | Raise e => (Raise e, w)
  | Ok (windows, s_rows, ts_idxs) =>
      match _get_sampleable_windows_idxs (loader w) windows with
      | Raise e => (Raise e, w)
      | Ok eligible =>
          if shuffle (loader w) then
            let (r, g) := choice eligible (batch_size (loader w)) true
                                 (random_state w) in
            let w' := {| loader := loader w; random_state := g |} in
            match r with
            | Raise e => (Raise e, w')
            | Ok chosen =>
                (gather_batch (loader w) windows s_rows ts_idxs chosen, w')
            end
          else (gather_batch (loader w) windows s_rows ts_idxs eligible, w)
      end
  end.
Proof.
  unfold _windows_batch, bindM, get_self, liftM, retM, np_random_choice.
  destruct (_create_windows_tensor (loader w) (Some index))
    as [[[windows s_rows] ts_idxs]|e]; [|reflexivity].
  destruct (_get_sampleable_windows_idxs (loader w) windows) as [eligible|e];
    [|reflexivity].
  destruct (shuffle (loader w)); [|reflexivity].
  destruct (choice eligible (batch_size (loader w)) true (random_state w))
    as [[chosen|e] g]; reflexivity.
Qed.

(** No call changes the loader object. *)
Lemma windows_batch_loader (index : list nat) (w : World) :
  loader (snd (_windows_batch index w)) = loader w.
Proof.
  rewrite windows_batch_steps.
  destruct (_create_windows_tensor (loader w) (Some index))
    as [[[windows s_rows] ts_idxs]|e]; [|reflexivity].
  destruct (_get_sampleable_windows_idxs (loader w) windows) as [eligible|e];
    [|reflexivity].
  destruct (shuffle (loader w)); [|reflexivity].
  destruct (choice eligible (batch_size (loader w)) true (random_state w))
    as [[chosen|e] g]; reflexivity.
Qed.

(** Without shuffling a call leaves the whole world as it found it. *)
Lemma windows_batch_no_shuffle_world (index : list nat) (w : World) :
  shuffle (loader w) = false -> snd (_windows_batch index w) = w.
Proof.
  intros Hsh. rewrite windows_batch_steps, Hsh.
  destruct (_create_windows_tensor (loader w) (Some index))
    as [[[windows s_rows] ts_idxs]|e]; [|reflexivity].
  destruct (_get_sampleable_windows_idxs (loader w) windows) as [eligible|e];
    reflexivity.
Qed.

Lemma eligible_windows_nil (self : TimeSeriesLoader) (index : list nat) :
  eligible_windows self index = Ok [] <->
  exists windows s_rows ts_idxs,
    _create_windows_tensor self (Some index) = Ok (windows, s_rows, ts_idxs) /\
    sampling_idx self windows = Ok [].
Proof.
  unfold eligible_windows. rewrite bind_ok. split.
  - intros [[[windows s_rows] ts_idxs] [Hc Hs]]. simpl in Hs. eauto.
  - intros [windows [s_rows [ts_idxs [Hc Hs]]]].
    exists (windows, s_rows, ts_idxs). auto.
Qed.

(** C7: a batch-production call fails with the data error (the assertion on
    an empty index vector) exactly when the eligible-window set computed for
    the requested series is empty; the failure comes before any draw from
    the random source and leaves the loader and the random source as they
    were, so that a later call behaves as if the failed one had not been
    made.  No call ever changes the loader. *)
Theorem windows_batch_data_error (index : list nat) (w : World) :
  ((exists e, fst (_windows_batch index w) = Raise e /\ DataError e) <->
   eligible_windows (loader w) index = Ok []) /\
  (eligible_windows (loader w) index = Ok [] ->
   snd (_windows_batch index w) = w /\
   forall index', _windows_batch index' (snd (_windows_batch index w)) =
                  _windows_batch index' w) /\
  loader (snd (_windows_batch index w)) = loader w.
Proof.
  assert (Hfail : eligible_windows (loader w) index = Ok [] ->
                  _windows_batch index w =
                  (Raise (AssertionError EmptySampleIdxs), w)).
  { intros H. apply eligible_windows_nil in H.
    destruct H as [windows [s_rows [ts_idxs [Hc Hs]]]].
    rewrite windows_batch_steps, Hc, get_sampleable_windows_idxs_cases, Hs.
    reflexivity. }
  split; [|split].
  - split.
    + intros [e [He Hd]]. unfold DataError in Hd. subst e.
      rewrite windows_batch_steps in He.
      destruct (_create_windows_tensor (loader w) (Some index))
        as [[[windows s_rows] ts_idxs]|e] eqn:Ec.
      2:{ simpl in He. inversion He. subst e.
          apply create_windows_tensor_raise in Ec. exfalso. eapply Ec. reflexivity. }
      apply eligible_windows_nil. exists windows, s_rows, ts_idxs.
      split; [exact Ec|].
      rewrite get_sampleable_windows_idxs_cases in He.
      destruct (sampling_idx (loader w) windows) as [[|i eligible]|e] eqn:Es.
      * reflexivity.
      * exfalso. destruct (shuffle (loader w)).
        -- destruct (choice (i :: eligible) (batch_size (loader w)) true
                            (random_state w)) as [[chosen|e] g] eqn:Ech;
             simpl in He.
           ++ apply gather_batch_raise in He. eapply He. reflexivity.
           ++ inversion He. subst e.
              assert (Hr : fst (choice (i :: eligible) (batch_size (loader w)) true
                                       (random_state w))
                           = Raise (AssertionError EmptySampleIdxs))
                by (rewrite Ech; reflexivity).
              apply choice_raise in Hr. eapply Hr. reflexivity.
        -- simpl in He. apply gather_batch_raise in He. eapply He. reflexivity.
      * exfalso. simpl in He. inversion He. subst e.
        apply sampling_idx_raise in Es. eapply Es. reflexivity.
    + intros H. rewrite (Hfail H). simpl.
      exists (AssertionError EmptySampleIdxs). split; reflexivity.
  - intros H. rewrite (Hfail H). simpl. split; reflexivity.
  - apply windows_batch_loader.
Qed.

Lemma windows_batch_data_error_witness :
  eligible_windows (loader (demo_world true true)) [1%nat] = Ok [] /\
  snd (_windows_batch [1%nat] (demo_world true true)) = demo_world true true.
Proof.
  assert (H : eligible_windows (loader (demo_world true true)) [1%nat] = Ok [])
    by reflexivity.
  split; [exact H|].
  apply (proj1 (proj2 (windows_batch_data_error [1%nat] (demo_world true true))) H).
Defined.

Lemma take_Forall2 {A : Type} (l : list A) (idxs : list nat) (r : list A) :
  take l idxs = Ok r <-> Forall2 (fun p a => nth_error l p = Some a) idxs r.
Proof.
  unfold take. rewrite mapM_ok_Forall2. split; intros H;
    (eapply Forall2_impl; [|exact H]); intros p a Hp; apply get_ok; exact Hp.
Qed.

Lemma Forall2_compose {A B C : Type} (R : A -> B -> Prop) (Q : B -> C -> Prop)
    (l1 : list A) (l2 : list B) (l3 : list C) :
  Forall2 R l1 l2 -> Forall2 Q l2 l3 ->
  Forall2 (fun a c => exists b, R a b /\ Q b c) l1 l3.
Proof.
  intros H. revert l3. induction H as [|a b l1 l2 Hab _ IH]; intros l3 H';
    inversion H'; subst; constructor; eauto.
Qed.

Lemma take_select_channel (windows wins : Tensor3) (positions : list nat)
    (c : nat) (rows : list (list Z)) :
  take windows positions = Ok wins ->
  select_channel c wins = Ok rows ->
  Forall2 (fun p r => exists w, nth_error windows p = Some w /\
                                nth_error w c = Some r) positions rows.
Proof.
  intros Ht Hs. apply take_Forall2 in Ht.
  unfold select_channel in Hs. apply mapM_ok_Forall2 in Hs.
  eapply Forall2_impl; [|exact (Forall2_compose _ _ _ _ _ Ht Hs)].
  intros p r [w [Hp Hget]]. apply get_ok in Hget. eauto.
Qed.

Lemma Forall2_map_r {A B C : Type} (R : A -> C -> Prop) (f : B -> C)
    (l1 : list A) (l2 : list B) :
  Forall2 (fun a b => R a (f b)) l1 l2 -> Forall2 R l1 (map f l2).
Proof. induction 1; simpl; constructor; assumption. Qed.

(** What a batch that was gathered holds. *)
Lemma gather_batch_holds (self : TimeSeriesLoader) (windows : Tensor3)
    (s_rows : list (list Z)) (ts_idxs positions : list nat) (b : Batch) :
  gather_batch self windows s_rows ts_idxs positions = Ok b ->
  batch_holds self windows s_rows ts_idxs positions b.
Proof.
  unfold gather_batch. intros H.
  apply bind_ok in H. destruct H as [wins [Hwins H]].
  apply bind_ok in H. destruct H as [srows [Hsrows H]].
  apply bind_ok in H. destruct H as [idxs [Hidxs H]].
  apply bind_ok in H. destruct H as [y [Hy H]].
  apply bind_ok in H. destruct H as [Y [HY H]].
  apply bind_ok in H. destruct H as [y' [Hy' H]].
  apply bind_ok in H. destruct H as [a [Ha H]].
  apply bind_ok in H. destruct H as [a' [Ha' H]].
  apply bind_ok in H. destruct H as [am [Ham H]].
  apply bind_ok in H. destruct H as [s [Hs H]].
  apply bind_ok in H. destruct H as [sm [Hsm H]].
  inversion H. subst b. clear H.
  unfold batch_holds, named_channel, exogenous_channels. simpl.
  rewrite Hy, Ha, Hs. rewrite Hy in Hy'. inversion Hy'. subst y'.
  rewrite Ha in Ha'. inversion Ha'. subst a'.
  repeat split.
  - apply take_Forall2. assumption.
  - eapply take_select_channel; eassumption.
  - apply Forall2_map_r. apply take_Forall2 in Hwins.
    eapply Forall2_impl; [|exact Hwins]. intros p w Hp. simpl.
    exists w. split; [exact Hp | reflexivity].
  - eapply take_select_channel; eassumption.
  - eapply take_select_channel; eassumption.
  - apply take_Forall2. assumption.
Qed.

Lemma take_keeps {A : Type} (P : A -> Prop) (l : list A) (idxs : list nat) (r : list A) :
  Forall P l -> take l idxs = Ok r -> Forall P r.
Proof.
  intros Hl H. apply take_Forall2 in H.
  induction H as [|p a idxs r Hp _ IH]; constructor; [|assumption].
  eapply Forall_forall in Hl; [exact Hl|]. eapply nth_error_In. eassumption.
Qed.

(** Gathering at positions inside the window tensor cannot fail. *)
Lemma gather_batch_total (self : TimeSeriesLoader) (windows : Tensor3)
    (s_rows : list (list Z)) (ts_idxs positions : list nat) :
  batch_inputs_well_formed self windows s_rows ts_idxs ->
  Forall (fun p => (p < length windows)%nat) positions ->
  exists b, gather_batch self windows s_rows ts_idxs positions = Ok b.
Proof.
  intros [[y Hy] [[a Ha] [[s Hs] [Hchan [Hls Hli]]]]] Hpos.
  unfold gather_batch.
  destruct (take_total windows positions Hpos) as [wins Hwins].
  destruct (take_total s_rows positions) as [srows Hsrows];
    [rewrite Hls; assumption|].
  destruct (take_total ts_idxs positions) as [idxs Hidxs];
    [rewrite Hli; assumption|].
  rewrite Hwins, Hsrows, Hidxs, Hy, Ha, Hs. cbn [bind].
  pose proof (take_keeps _ _ _ _ Hchan Hwins) as Hwchan.
  assert (Hsel : forall name c, list_index name (t_cols (ts_dataset self)) = Ok c ->
                                exists rows, select_channel c wins = Ok rows).
  { intros name c Hc. apply select_channel_total.
    eapply Forall_impl; [|exact Hwchan]. intros w Hw. simpl in Hw.
    rewrite Hw. eapply list_index_lt. eassumption. }
  destruct (Hsel _ _ Hy) as [Y HY]. destruct (Hsel _ _ Ha) as [am Ham].
  destruct (Hsel _ _ Hs) as [sm Hsm].
  rewrite HY, Ham, Hsm. cbn [bind]. eauto.
Qed.

Lemma batch_holds_length (self : TimeSeriesLoader) (windows : Tensor3)
    (s_rows : list (list Z)) (ts_idxs positions : list nat) (b : Batch) :
  batch_holds self windows s_rows ts_idxs positions b ->
  batch_length b = length positions /\
  length (b_S b) = length positions /\
  length (b_X b) = length positions /\
  length (b_available_mask b) = length positions /\
  length (b_sample_mask b) = length positions /\
  length (b_idxs b) = length positions.
Proof.
  intros [H1 [H2 [H3 [H4 [H5 H6]]]]]. unfold batch_length.
  repeat split; symmetry; eapply Forall2_length; eassumption.
Qed.

Lemma nonzero_lt (v : list bool) : Forall (fun i => (i < length v)%nat) (nonzero v).
Proof.
  apply Forall_forall. intros i Hi. apply nonzero_In in Hi.
  apply nth_error_Some. rewrite Hi. discriminate.
Qed.

Lemma sampling_idx_lt (self : TimeSeriesLoader) (ws : Tensor3) (idxs : list nat) :
  sampling_idx self ws = Ok idxs -> Forall (fun i => (i < length ws)%nat) idxs.
Proof.
  unfold sampling_idx. intros H.
  apply bind_ok in H. destruct H as [c [_ H]].
  apply bind_ok in H. destruct H as [rows [Hrows H]].
  apply mapM_length in Hrows.
  destruct (complete_inputs self).
  - apply bind_ok in H. destruct H as [c' [_ H]].
    apply bind_ok in H. destruct H as [rows' [Hrows' H]].
    inversion H as [Hidxs]. clear H.
    eapply Forall_impl; [|apply nonzero_lt]. intros i Hi. simpl in Hi.
    rewrite length_map, length_combine, !length_map in Hi. lia.
  - inversion H as [Hidxs]. clear H.
    eapply Forall_impl; [|apply nonzero_lt]. intros i Hi. simpl in Hi.
    rewrite !length_map in Hi. lia.
Qed.

Lemma get_sampleable_windows_idxs_ok (self : TimeSeriesLoader) (ws : Tensor3)
    (idxs : list nat) :
  _get_sampleable_windows_idxs self ws = Ok idxs ->
  sampling_idx self ws = Ok idxs /\ idxs <> [].
Proof.
  rewrite get_sampleable_windows_idxs_cases.
  destruct (sampling_idx self ws) as [[|i l]|e]; try discriminate.
  intros H. split; [exact H | inversion H; discriminate].
Qed.

(** ** Draws *)

Lemma randints_spec (k n : nat) :
  forall g, randints k n g =
            (map (fun i => (tape g (pos g + i) mod n)%nat) (seq 0 k),
             {| tape := tape g; pos := pos g + k |}).
Proof.
  induction k as [|k IH]; intros g.
  - simpl. rewrite Nat.add_0_r. destruct g. reflexivity.
  - cbn [randints]. unfold randint. rewrite IH. cbn [tape pos seq map].
    rewrite Nat.add_0_r, <- seq_shift, map_map. f_equal.
    + f_equal. apply map_ext. intros i. rewrite Nat.add_succ_r. reflexivity.
    + f_equal. lia.
Qed.

Lemma randints_length (k n : nat) (g : RandomState) :
  length (fst (randints k n g)) = k.
Proof. rewrite randints_spec. simpl. rewrite length_map, length_seq. reflexivity. Qed.

Lemma randints_lt (k n : nat) (g : RandomState) :
  (0 < n)%nat -> Forall (fun p => (p < n)%nat) (fst (randints k n g)).
Proof.
  intros Hn. rewrite randints_spec. simpl. apply Forall_map.
  apply Forall_forall. intros i _. apply Nat.mod_upper_bound. lia.
Qed.

Lemma map_nth_seq {A : Type} (d : A) (l : list A) :
  map (fun i => nth i l d) (seq 0 (length l)) = l.
Proof.
  induction l as [|a l IH]; simpl; [reflexivity|].
  rewrite <- seq_shift, map_map. simpl. rewrite IH. reflexivity.
Qed.

(** Any vector of positions in range is what some state of the random source
    draws, repeated positions included. *)
Lemma randints_any (n : nat) (positions : list nat) :
  Forall (fun p => (p < n)%nat) positions ->
  fst (randints (length positions) n
         {| tape := fun i => nth i positions O; pos := 0 |}) = positions.
Proof.
  intros H. rewrite randints_spec. cbn [fst tape pos].
  transitivity (map (fun i => nth i positions O) (seq 0 (length positions)));
    [|apply map_nth_seq].
  apply map_ext_in. intros i Hi. apply in_seq in Hi. simpl.
  apply Nat.mod_small.
  eapply Forall_forall in H; [exact H|]. apply nth_In. lia.
Qed.

Lemma take_nth {A : Type} (d : A) (l : list A) (idxs : list nat) :
  Forall (fun p => (p < length l)%nat) idxs ->
  take l idxs = Ok (map (fun p => nth p l d) idxs).
Proof.
  intros H. apply mapM_pure. eapply Forall_impl; [|exact H].
  intros p Hp. simpl in Hp. unfold get.
  rewrite (nth_error_nth' l d) by assumption. reflexivity.
Qed.

(** Sampling with replacement from a nonempty array: [size] draws of a
    position, whatever the size of the array. *)
Lemma choice_replace_ok {A : Type} (d : A) (a : list A) (size : Z) (g : RandomState) :
  0 <= size -> a <> [] ->
  let positions := fst (randints (Z.to_nat size) (length a) g) in
  choice a size true g =
    (Ok (map (fun p => nth p a d) positions),
     snd (randints (Z.to_nat size) (length a) g)) /\
  length positions = Z.to_nat size /\
  Forall (fun p => (p < length a)%nat) positions.
Proof.
  intros Hsize Ha positions.
  assert (Hlen : (0 < length a)%nat) by (destruct a; [contradiction | simpl; lia]).
  pose proof (randints_lt (Z.to_nat size) (length a) g Hlen) as Hlt.
  split; [|split].
  - unfold choice.
    assert (E1 : (size <? 0) = false) by (apply Z.ltb_ge; lia).
    assert (E2 : (length a =? 0)%nat = false) by (apply Nat.eqb_neq; lia).
    rewrite E1, E2. simpl.
    destruct (randints (Z.to_nat size) (length a) g) as [idx g'] eqn:E.
    unfold positions. simpl in *. rewrite (take_nth d) by assumption. reflexivity.
  - apply randints_length.
  - exact Hlt.
Qed.

Lemma chosen_in_range (ws : Tensor3) (eligible positions : list nat) :
  Forall (fun i => (i < length ws)%nat) eligible ->
  Forall (fun p => (p < length eligible)%nat) positions ->
  Forall (fun i => (i < length ws)%nat) (map (fun p => nth p eligible O) positions).
Proof.
  intros He Hp. apply Forall_map. eapply Forall_impl; [|exact Hp].
  intros p Hlt. simpl in Hlt.
  eapply Forall_forall in He; [exact He|]. apply nth_In. assumption.
Qed.

(** C3: once windowing and the eligibility check have gone through for the
    requested series, a batch is produced.  Without shuffling it holds the
    eligible windows, all of them and in their order, whatever [batch_size]
    is, and the random source is not touched.  With shuffling (and a
    non-negative [batch_size]) it holds exactly [batch_size] windows, each
    the eligible window at a drawn position, also when [batch_size] exceeds
    the number of eligible windows; every vector of [batch_size] positions,
    repeated ones included, is the draw of some state of the random
    source. *)
Theorem windows_batch_sampling (index : list nat) (w : World)
    (windows : Tensor3) (s_rows : list (list Z)) (ts_idxs eligible : list nat) :
  _create_windows_tensor (loader w) (Some index) = Ok (windows, s_rows, ts_idxs) ->
  _get_sampleable_windows_idxs (loader w) windows = Ok eligible ->
  batch_inputs_well_formed (loader w) windows s_rows ts_idxs ->
  (shuffle (loader w) = false ->
   exists b,
     _windows_batch index w = (Ok b, w) /\
     batch_holds (loader w) windows s_rows ts_idxs eligible b /\
     batch_length b = length eligible) /\
  (shuffle (loader w) = true -> 0 <= batch_size (loader w) ->
   (exists positions b w',
      _windows_batch index w = (Ok b, w') /\
      loader w' = loader w /\
      length positions = Z.to_nat (batch_size (loader w)) /\
      Forall (fun p => (p < length eligible)%nat) positions /\
      batch_holds (loader w) windows s_rows ts_idxs
                  (map (fun p => nth p eligible O) positions) b /\
      Z.of_nat (batch_length b) = batch_size (loader w)) /\
   (forall positions,
      length positions = Z.to_nat (batch_size (loader w)) ->
      Forall (fun p => (p < length eligible)%nat) positions ->
      exists g b,
        fst (_windows_batch index {| loader := loader w; random_state := g |}) = Ok b /\
        batch_holds (loader w) windows s_rows ts_idxs
                    (map (fun p => nth p eligible O) positions) b)).
Proof.
  intros Hc He Hwf.
  destruct (get_sampleable_windows_idxs_ok _ _ _ He) as [Hs Hne].
  pose proof (sampling_idx_lt _ _ _ Hs) as Hlt.
  split.
  - intros Hsh. destruct (gather_batch_total _ _ _ _ _ Hwf Hlt) as [b Hb].
    exists b. rewrite windows_batch_steps, Hc, He, Hsh, Hb.
    pose proof (gather_batch_holds _ _ _ _ _ _ Hb) as Hh.
    split; [reflexivity|]. split; [exact Hh|].
    apply (batch_holds_length _ _ _ _ _ _ Hh).
  - intros Hsh Hsize. split.
    + destruct (choice_replace_ok O eligible (batch_size (loader w)) (random_state w)
                  Hsize Hne) as [Hch [Hlen Hpos]].
      set (positions := fst (randints (Z.to_nat (batch_size (loader w)))
                                      (length eligible) (random_state w))) in *.
      destruct (gather_batch_total _ _ _ _ _ Hwf
                  (chosen_in_range _ _ _ Hlt Hpos)) as [b Hb].
      pose proof (gather_batch_holds _ _ _ _ _ _ Hb) as Hh.
      exists positions, b. eexists.
      rewrite windows_batch_steps, Hc, He, Hsh, Hch, Hb.
      split; [reflexivity|]. split; [reflexivity|].
      split; [exact Hlen|]. split; [exact Hpos|]. split; [exact Hh|].
      destruct (batch_holds_length _ _ _ _ _ _ Hh) as [Hbl _].
      rewrite Hbl, length_map, Hlen. lia.
    + intros positions Hlen Hpos.
      set (g := {| tape := fun i => nth i positions O; pos := 0 |}).
      destruct (choice_replace_ok O eligible (batch_size (loader w)) g Hsize Hne)
        as [Hch _].
      rewrite <- Hlen in Hch. unfold g in Hch.
      rewrite (randints_any _ _ Hpos) in Hch. fold g in Hch.
      rewrite Hlen in Hch.
      destruct (gather_batch_total _ _ _ _ _ Hwf
                  (chosen_in_range _ _ _ Hlt Hpos)) as [b Hb].
      exists g, b. rewrite windows_batch_steps. cbn [loader random_state].
      rewrite Hc, He, Hsh, Hch, Hb.
      split; [reflexivity|]. eapply gather_batch_holds. eassumption.
Qed.

Lemma choice_replace_same_draws {A : Type} (a : list A) (size : Z)
    (g1 g2 : RandomState) :
  fst (randints (Z.to_nat size) (length a) g1)
  = fst (randints (Z.to_nat size) (length a) g2) ->
  fst (choice a size true g1) = fst (choice a size true g2).
Proof.
  intros H. unfold choice.
  destruct (size <? 0); [reflexivity|].
  destruct ((length a =? 0)%nat && negb (size =? 0)); [reflexivity|].
  destruct (randints (Z.to_nat size) (length a) g1) as [idx1 g1'].
  destruct (randints (Z.to_nat size) (length a) g2) as [idx2 g2'].
  simpl in H. subst idx2. reflexivity.
Qed.

(** C8: two calls of the indexing operation for the same series.  A call
    never changes the loader, so a second call made after the first one,
    with the random source put back in the state it had, returns the result
    of the first (the same batch, field by field, or the same exception).
    The random source only matters through the [batch_size] positions it
    draws: on the same loader, two states of the source that draw the same
    positions give the same result.  Without shuffling the result is the
    same for every state of the source, which the call leaves untouched, so
    that a second call returns the first result with no reseeding at
    all. *)
Theorem getitem_deterministic (index : list nat) (w : World) :
  loader (snd (__getitem__ index w)) = loader w /\
  fst (__getitem__ index
         {| loader := loader (snd (__getitem__ index w));
            random_state := random_state w |})
  = fst (__getitem__ index w) /\
  (forall w2,
     loader w2 = loader w ->
     (forall n, fst (randints (Z.to_nat (batch_size (loader w))) n (random_state w2))
                = fst (randints (Z.to_nat (batch_size (loader w))) n
                                (random_state w))) ->
     fst (__getitem__ index w2) = fst (__getitem__ index w)) /\
  (shuffle (loader w) = false ->
   (forall g,
      fst (__getitem__ index {| loader := loader w; random_state := g |})
      = fst (__getitem__ index w)) /\
   snd (__getitem__ index w) = w /\
   fst (__getitem__ index (snd (__getitem__ index w))) = fst (__getitem__ index w)).
Proof.
  assert (Hdraws : forall w2,
     loader w2 = loader w ->
     (forall n, fst (randints (Z.to_nat (batch_size (loader w))) n (random_state w2))
                = fst (randints (Z.to_nat (batch_size (loader w))) n
                                (random_state w))) ->
     fst (__getitem__ index w2) = fst (__getitem__ index w)).
  { intros w2 Hl Hd. unfold __getitem__. rewrite !windows_batch_steps, Hl.
    destruct (_create_windows_tensor (loader w) (Some index))
      as [[[windows s_rows] ts_idxs]|e]; [|reflexivity].
    destruct (_get_sampleable_windows_idxs (loader w) windows) as [eligible|e];
      [|reflexivity].
    destruct (shuffle (loader w)); [|reflexivity].
    pose proof (choice_replace_same_draws eligible (batch_size (loader w))
                  (random_state w2) (random_state w) (Hd (length eligible))) as Hc.
    destruct (choice eligible (batch_size (loader w)) true (random_state w2))
      as [r2 g2].
    destruct (choice eligible (batch_size (loader w)) true (random_state w))
      as [r1 g1].
    simpl in Hc. subst r2. destruct r1; reflexivity. }
  assert (Hloader : loader (snd (__getitem__ index w)) = loader w)
    by apply windows_batch_loader.
  split; [exact Hloader|]. split; [|split; [exact Hdraws|]].
  - apply Hdraws; [exact Hloader | reflexivity].
  - intros Hsh.
    assert (Hw : snd (__getitem__ index w) = w)
      by (apply windows_batch_no_shuffle_world; exact Hsh).
    split; [|split; [exact Hw | rewrite Hw; reflexivity]].
    intros g. unfold __getitem__.
    rewrite !windows_batch_steps. cbn [loader random_state]. rewrite Hsh.
    destruct (_create_windows_tensor (loader w) (Some index))
      as [[[windows s_rows] ts_idxs]|e]; [|reflexivity].
    destruct (_get_sampleable_windows_idxs (loader w) windows) as [eligible|e];
      reflexivity.
Qed.

Lemma windows_batch_sampling_witness :
  exists b,
    _windows_batch [0; 1]%nat (demo_world false false)
      = (Ok b, demo_world false false) /\
    batch_length b = 5%nat.
Proof.
  destruct (windows_batch_sampling [0; 1]%nat (demo_world false false)
              demo_windows (np_repeat 5 [[10]; [20]]) (np_repeat 5 [0; 1]%nat)
              [0; 1; 2; 3; 7]%nat) as [H _].
  - reflexivity.
  - reflexivity.
  - split; [exists 0%nat; reflexivity|].
    split; [exists 1%nat; reflexivity|].
    split; [exists 2%nat; reflexivity|].
    split; [repeat constructor|]. split; reflexivity.
  - destruct (H eq_refl) as [b [Hrun [_ Hlen]]].
    exists b. split; [exact Hrun | exact Hlen].
Defined.

Lemma getitem_deterministic_witness :
  (shuffle (loader (demo_world false false)) = false /\
   fst (__getitem__ [0%nat]
          {| loader := loader (demo_world false false);
             random_state := demo_random' |}) =
   fst (__getitem__ [0%nat] (demo_world false false))) /\
  (shuffle (loader (demo_world false true)) = true /\
   fst (__getitem__ [0%nat]
          {| loader := loader (demo_world false true);
             random_state := demo_random_prefix |}) =
   fst (__getitem__ [0%nat] (demo_world false true))).
Proof.
  assert (H : shuffle (loader (demo_world false false)) = false) by reflexivity.
  split.
  - split; [exact H|].
    apply (proj1 (proj2 (proj2 (proj2 (getitem_deterministic [0%nat]
                                         (demo_world false false)))) H)
             demo_random').
  - split; [reflexivity|].
    apply (proj1 (proj2 (proj2 (getitem_deterministic [0%nat]
                                  (demo_world false true))))
             {| loader := loader (demo_world false true);
                random_state := demo_random_prefix |}).
    + reflexivity.
    + intros n. reflexivity.
Defined.

(** ** Iteration *)

(** A valid configuration on a store with a [sample_mask] channel always
    constructs a loader. *)
Lemma init_valid_ok (a : InitArgs) :
  resolved_n_series_per_batch a <> 0 ->
  ~ invalid_configuration a ->
  store_has_sample_mask (arg_ts_dataset a) ->
  exists self, __init__ a = Ok self.
Proof.
  intros Hn Hgood Hstore.
  destruct (init_cases a Hn) as [[Hbad _]|[_ [self1 [Hn1 [Hds Heq]]]]];
    [contradiction|].
  rewrite Heq. rewrite <- Hds in Hstore.
  destruct (define_sampleable_ts_idxs_total self1 Hstore) as [self2 E2].
  rewrite E2. simpl.
  assert (Hn2 : n_series_per_batch self2 = resolved_n_series_per_batch a).
  { apply define_sampleable_ts_idxs_ok in E2.
    destruct E2 as [c [rows [_ [_ ->]]]]. simpl. exact Hn1. }
  unfold py_ceil_div. rewrite Hn2.
  apply Z.eqb_neq in Hn. rewrite Hn. simpl. eauto.
Qed.

(** [- ((- n) / b)] is the ceiling of [n / b]. *)
Lemma ceil_div_bounds (n b : Z) :
  0 < b ->
  (- ((- n) / b) - 1) * b < n <= - ((- n) / b) * b.
Proof.
  intros Hb.
  pose proof (Z.mul_div_le (- n) b Hb).
  pose proof (Z.mul_succ_div_gt (- n) b Hb).
  nia.
Qed.

Lemma ceil_div_bounds_neg (n b : Z) :
  b < 0 ->
  - ((- n) / b) * b <= n < (- ((- n) / b) - 1) * b.
Proof.
  intros Hb.
  pose proof (Z.div_mod (- n) b ltac:(lia)).
  pose proof (Z.mod_neg_bound (- n) b Hb).
  nia.
Qed.

Lemma py_slice_chunk {A : Type} (l : list A) (i : nat) (b : Z) :
  0 <= b ->
  py_slice (Some (Z.of_nat i * b)) (Some ((Z.of_nat i + 1) * b)) l =
  firstn (Z.to_nat b) (skipn (i * Z.to_nat b) l).
Proof.
  intros Hb. unfold py_slice, slice_bound.
  assert (E1 : (Z.of_nat i * b <? 0) = false) by (apply Z.ltb_ge; nia).
  assert (E2 : ((Z.of_nat i + 1) * b <? 0) = false) by (apply Z.ltb_ge; nia).
  rewrite E1, E2.
  destruct (Z.le_gt_cases (Z.of_nat (length l)) (Z.of_nat i * b)) as [Hout|Hin].
  - replace (Z.to_nat (Z.min (Z.of_nat i * b) (Z.of_nat (length l))))
      with (length l) by lia.
    rewrite skipn_all. rewrite (skipn_all2 l) by nia.
    rewrite !firstn_nil. reflexivity.
  - replace (Z.to_nat (Z.min (Z.of_nat i * b) (Z.of_nat (length l))))
      with (i * Z.to_nat b)%nat by nia.
    set (rest := skipn (i * Z.to_nat b) l).
    assert (Hrest : length rest = (length l - i * Z.to_nat b)%nat)
      by (unfold rest; apply length_skipn).
    destruct (Z.le_gt_cases (Z.of_nat (length l)) ((Z.of_nat i + 1) * b)) as [Hend|Hmid].
    + replace (Z.to_nat (Z.min ((Z.of_nat i + 1) * b) (Z.of_nat (length l))))
        with (length l) by lia.
      rewrite <- Hrest, firstn_all. symmetry. apply firstn_all2. nia.
    + f_equal. nia.
Qed.

Lemma concat_chunks {A : Type} (b : nat) :
  (0 < b)%nat ->
  forall (m : nat) (l : list A),
    (length l <= m * b)%nat ->
    concat (map (fun i => firstn b (skipn (i * b) l)) (seq 0 m)) = l.
Proof.
  intros Hb. induction m as [|m IH]; intros l Hl.
  - destruct l; [reflexivity | simpl in Hl; lia].
  - cbn [seq map concat]. rewrite <- seq_shift, map_map.
    transitivity (firstn b l ++ skipn b l); [|apply firstn_skipn].
    f_equal.
    transitivity (concat (map (fun i => firstn b (skipn (i * b) (skipn b l)))
                              (seq 0 m))).
    + f_equal. apply map_ext. intros i. rewrite skipn_skipn.
      f_equal. f_equal. lia.
    + apply IH. rewrite length_skipn. lia.
Qed.

Lemma nonzero_from_NoDup (v : list bool) : forall s, NoDup (nonzero_from s v).
Proof.
  induction v as [|b v IH]; intros s; simpl; [constructor|].
  destruct b; [|apply IH]. constructor; [|apply IH].
  intros Hin. apply nonzero_from_In in Hin. destruct Hin as [j [Hj _]]. lia.
Qed.



Lemma pass_chunks_firstn (self : TimeSeriesLoader) (sample_idxs : list nat) :
  0 <= n_series_per_batch self ->
  pass_chunks self sample_idxs =
  map (fun i => firstn (Z.to_nat (n_series_per_batch self))
                       (skipn (i * Z.to_nat (n_series_per_batch self)) sample_idxs))
      (seq 0 (Z.to_nat (n_batches self))).
Proof.
  intros Hb. unfold pass_chunks, py_range, batch_ts_idxs.
  apply map_ext. intros i. apply py_slice_chunk. assumption.
Qed.



(** C10: a valid configuration constructs a loader whether or not any series
    is sampleable; when the sampleable set is empty, [n_batches] is zero and
    a pass, shuffled or not, yields no batch and ends without an exception,
    leaving the loader and the random source as they were. *)
Theorem empty_sampleable_pass (a : InitArgs) :
  resolved_n_series_per_batch a <> 0 ->
  ~ invalid_configuration a ->
  store_has_sample_mask (arg_ts_dataset a) ->
  exists self,
    __init__ a = Ok self /\
    (sampleable_ts_idxs self = [] ->
     n_batches self = 0 /\
     forall g,
       __iter__ {| loader := self; random_state := g |} =
       ({| yielded := []; raised := None |},
        {| loader := self; random_state := g |})).
Proof.
  intros Hn Hgood Hstore.
  destruct (init_valid_ok a Hn Hgood Hstore) as [self Hinit].
  exists self. split; [exact Hinit|]. intros Hempty.
  destruct (init_ok_attributes _ _ Hinit)
    as [_ [_ [_ [_ [_ [_ [_ [Hcount Hnb]]]]]]]].
  rewrite Hempty in Hcount. simpl in Hcount.
  assert (Hzero : n_batches self = 0).
  { rewrite Hnb, Hcount. change (- 0) with 0. rewrite Zdiv_0_l. reflexivity. }
  split; [exact Hzero|]. intros g.
  unfold __iter__. cbn [loader]. rewrite Hempty, Hcount, Hzero.
  destruct (shuffle self); reflexivity.
Qed.

Lemma empty_sampleable_pass_witness :
  exists self,
    __init__ (demo_args_masked true) = Ok self /\
    (sampleable_ts_idxs self = [] ->
     n_batches self = 0 /\
     forall g,
       __iter__ {| loader := self; random_state := g |} =
       ({| yielded := []; raised := None |},
        {| loader := self; random_state := g |})).
Proof.
  apply (empty_sampleable_pass (demo_args_masked true)).
  - vm_compute. discriminate.
  - unfold invalid_configuration, known_family. simpl.
    intros [H|[[l [H Hlt]]|[H|H]]].
    + apply H. right. reflexivity.
    + inversion H. subst l. lia.
    + apply H. exists 2. reflexivity.
    + vm_compute in H. discriminate.
  - exists 2%nat. split; [reflexivity|]. repeat constructor.
Defined.

(** * Further properties of the loader *)

(** ** What a produced batch went through *)

Lemma create_windows_tensor_some_inv (self : TimeSeriesLoader) (index : list nat)
    (windows : Tensor3) (s_rows : list (list Z)) (ts_idxs : list nat) :
  _create_windows_tensor self (Some index) = Ok (windows, s_rows, ts_idxs) ->
  exists tensor padded u rows k,
    get_filtered_ts_tensor (ts_dataset self) (output_size self)
      (window_sampling_limit self) (Some index) = Some tensor /\
    padder (padding self) tensor = Ok padded /\
    unfold (windows_size self) (idx_to_sample_freq self) padded = Ok u /\
    reshape (n_channels (ts_dataset self)) (windows_size self) (permute_0213 u)
      = Ok windows /\
    take (s_matrix (ts_dataset self)) index = Ok rows /\
    windows_per_serie (length windows) (Z.of_nat (length index)) = Ok k /\
    s_rows = np_repeat k rows /\
    ts_idxs = np_repeat k index.
Proof.
  unfold _create_windows_tensor. intros H.
  apply bind_ok in H. destruct H as [tensor [Ht H]].
  apply bind_ok in H. destruct H as [padded [Hp H]].
  apply bind_ok in H. destruct H as [u [Hu H]].
  apply bind_ok in H. destruct H as [ws [Hr H]].
  apply bind_ok in H. destruct H as [rows [Hrows H]].
  apply bind_ok in H. destruct H as [k [Hk H]].
  inversion H. subst. clear H.
  exists tensor, padded, u, rows, k.
  destruct (get_filtered_ts_tensor _ _ _ _) as [t0|]; [|discriminate].
  inversion Ht. subst. repeat split; assumption.
Qed.

Lemma choice_replace_chosen {A : Type} (a : list A) (size : Z) (g : RandomState)
    (chosen : list A) :
  fst (choice a size true g) = Ok chosen ->
  Forall (fun x => In x a) chosen /\ Z.of_nat (length chosen) = size.
Proof.
  unfold choice.
  destruct (size <? 0) eqn:Es; [discriminate|].
  destruct ((length a =? 0)%nat && negb (size =? 0)); [discriminate|].
  pose proof (randints_length (Z.to_nat size) (length a) g) as Hlen.
  destruct (randints (Z.to_nat size) (length a) g) as [idx g']. simpl in *.
  intros H. pose proof (mapM_length _ _ _ H) as Hl.
  apply take_Forall2 in H. split.
  - clear Hl Hlen. induction H as [|p x idx chosen Hp _ IH]; constructor;
      [eapply nth_error_In; eassumption | assumption].
  - apply Z.ltb_ge in Es. lia.
Qed.

(** The steps behind a produced batch: windowing, the eligible positions,
    the positions chosen among them, and the gathering. *)
Lemma windows_batch_ok_inv (index : list nat) (w w' : World) (b : Batch) :
  _windows_batch index w = (Ok b, w') ->
  exists windows s_rows ts_idxs eligible chosen,
    _create_windows_tensor (loader w) (Some index) = Ok (windows, s_rows, ts_idxs) /\
    _get_sampleable_windows_idxs (loader w) windows = Ok eligible /\
    Forall (fun p => In p eligible) chosen /\
    gather_batch (loader w) windows s_rows ts_idxs chosen = Ok b /\
    (shuffle (loader w) = false -> chosen = eligible /\ w' = w) /\
    (shuffle (loader w) = true -> Z.of_nat (length chosen) = batch_size (loader w)).
Proof.
  rewrite windows_batch_steps. intros H.
  destruct (_create_windows_tensor (loader w) (Some index))
    as [[[windows s_rows] ts_idxs]|e] eqn:Ec; [|discriminate].
  destruct (_get_sampleable_windows_idxs (loader w) windows) as [eligible|e] eqn:Ee;
    [|discriminate].
  exists windows, s_rows, ts_idxs, eligible.
  destruct (shuffle (loader w)).
  - destruct (choice eligible (batch_size (loader w)) true (random_state w))
      as [[chosen|e] g] eqn:Ech; [|discriminate].
    assert (Hfst : fst (choice eligible (batch_size (loader w)) true (random_state w))
                   = Ok chosen) by (rewrite Ech; reflexivity).
    apply choice_replace_chosen in Hfst. destruct Hfst as [Hin Hlen].
    injection H as Hb Hw. exists chosen.
    split; [reflexivity|]. split; [exact Ee|]. split; [exact Hin|].
    split; [exact Hb|]. split; [discriminate|]. intros _. exact Hlen.
  - injection H as Hb Hw. subst w'. exists eligible.
    split; [reflexivity|]. split; [exact Ee|].
    split; [apply Forall_forall; auto|].
    split; [exact Hb|]. split; [auto | discriminate].
Qed.

Lemma Forall2_Forall_r {A B : Type} (R : A -> B -> Prop) (P : A -> Prop)
    (Q : B -> Prop) (l : list A) (l' : list B) :
  (forall a b, P a -> R a b -> Q b) ->
  Forall P l -> Forall2 R l l' -> Forall Q l'.
Proof.
  intros HPQ HP H. induction H as [|a b l l' Hab _ IH]; constructor.
  - inversion HP. eauto.
  - apply IH. inversion HP. assumption.
Qed.

Lemma Forall2_same_left {A B C : Type} (R : A -> B -> Prop) (Q : A -> C -> Prop)
    (l : list A) (l1 : list B) (l2 : list C) :
  Forall2 R l l1 -> Forall2 Q l l2 ->
  Forall2 (fun b c => exists a, R a b /\ Q a c) l1 l2.
Proof.
  intros H. revert l2. induction H as [|a b l l1 Hab _ IH]; intros l2 H';
    inversion H'; subst; constructor; eauto.
Qed.

Lemma np_repeat_Forall2 {A B : Type} (R : A -> B -> Prop) (k : nat)
    (l1 : list A) (l2 : list B) :
  Forall2 R l1 l2 -> Forall2 R (np_repeat k l1) (np_repeat k l2).
Proof.
  unfold np_repeat. induction 1 as [|a b l1 l2 Hab _ IH]; simpl; [constructor|].
  apply Forall2_app; [|exact IH].
  clear IH. induction k; simpl; constructor; assumption.
Qed.

Lemma Forall2_nth_error_both {A B : Type} (R : A -> B -> Prop)
    (l1 : list A) (l2 : list B) :
  Forall2 R l1 l2 ->
  forall p a b, nth_error l1 p = Some a -> nth_error l2 p = Some b -> R a b.
Proof.
  induction 1 as [|a0 b0 l1 l2 H0 _ IH]; intros p a b Ha Hb.
  - destruct p; discriminate.
  - destruct p as [|p]; simpl in *.
    + inversion Ha. inversion Hb. subst. assumption.
    + eapply IH; eassumption.
Qed.

Lemma np_repeat_In {A : Type} (k : nat) (l : list A) (x : A) :
  In x (np_repeat k l) -> In x l.
Proof.
  unfold np_repeat. rewrite in_flat_map. intros [a [Ha Hx]].
  apply repeat_spec in Hx. subst. assumption.
Qed.

(** ** Shape of what the windowing engine returns *)

Lemma chunk_fuel_exact {A : Type} (n : nat) :
  (0 < n)%nat ->
  forall (fuel : nat) (l : list A),
    (length l <= fuel)%nat ->
    (exists q, length l = (q * n)%nat) ->
    Forall (fun c => length c = n) (chunk_fuel fuel n l) /\
    concat (chunk_fuel fuel n l) = l.
Proof.
  intros Hn. induction fuel as [|fuel IH]; intros l Hl [q Hq].
  - destruct l; [split; [constructor | reflexivity] | simpl in Hl; lia].
  - destruct l as [|x l]; [split; [constructor | reflexivity]|].
    cbn [chunk_fuel]. set (l0 := x :: l) in *.
    assert (Hq1 : (1 <= q)%nat) by (destruct q; [simpl in Hq; discriminate | lia]).
    assert (Hge : (n <= length l0)%nat) by nia.
    destruct (IH (skipn n l0)) as [Hall Hcat].
    + rewrite length_skipn. lia.
    + exists (q - 1)%nat. rewrite length_skipn. nia.
    + split.
      * constructor; [|exact Hall]. rewrite length_firstn. lia.
      * cbn [concat]. rewrite Hcat. apply firstn_skipn.
Qed.

Lemma chunk_exact {A : Type} (n : nat) (l : list A) :
  (0 < n)%nat -> (exists q, length l = (q * n)%nat) ->
  Forall (fun c => length c = n) (chunk n l) /\ concat (chunk n l) = l.
Proof. intros Hn Hq. unfold chunk. apply chunk_fuel_exact; auto. Qed.

(** [reshape(-1, c, size)] returns blocks of exactly [c] rows of exactly
    [size] entries, whatever it was given. *)
Lemma reshape_shape (c : nat) (size : Z) (w4 : list (list (list (list Z))))
    (ws : Tensor3) :
  reshape c size w4 = Ok ws ->
  0 < size /\ (0 < c)%nat /\
  Forall (fun w => length w = c /\
                   Forall (fun row => Z.of_nat (length row) = size) w) ws.
Proof.
  unfold reshape. set (flat := concat (concat (concat w4))).
  destruct (size <? 0) eqn:E1; [discriminate|].
  destruct (Z.of_nat c * size =? 0) eqn:E2; [discriminate|].
  simpl. destruct (Z.of_nat (length flat) mod (Z.of_nat c * size) =? 0) eqn:E3;
    [|discriminate].
  simpl. intros H. inversion H as [Hws]. clear H.
  apply Z.ltb_ge in E1. apply Z.eqb_neq in E2. apply Z.eqb_eq in E3.
  assert (Hsize : 0 < size) by nia. assert (Hc : (0 < c)%nat) by nia.
  split; [exact Hsize|]. split; [exact Hc|].
  apply Z.mod_divide in E3; [|exact E2]. destruct E3 as [q Hq].
  assert (Hq0 : 0 <= q) by nia.
  destruct (chunk_exact (Z.to_nat size) flat) as [Hrows Hcat]; [lia| |].
  { exists (Z.to_nat q * c)%nat. apply Nat2Z.inj.
    rewrite !Nat2Z.inj_mul, !Z2Nat.id by lia. lia. }
  set (rows := chunk (Z.to_nat size) flat) in *.
  assert (Hlen : length rows = (Z.to_nat q * c)%nat).
  { pose proof (length_concat_uniform _ _ Hrows) as Hl. rewrite Hcat in Hl.
    apply Nat2Z.inj. apply (f_equal Z.of_nat) in Hl.
    rewrite !Nat2Z.inj_mul, !Z2Nat.id in * by lia. nia. }
  destruct (chunk_exact c rows Hc) as [Hchan Hcat']; [eauto|].
  assert (Hinner : Forall (Forall (fun row => length row = Z.to_nat size))
                          (chunk c rows)).
  { apply Forall_concat. rewrite Hcat'. exact Hrows. }
  apply Forall_forall. intros w Hw. split.
  - eapply Forall_forall in Hchan; [exact Hchan | exact Hw].
  - eapply Forall_forall in Hinner; [|exact Hw].
    eapply Forall_impl; [|exact Hinner]. intros row Hrow. simpl in Hrow. lia.
Qed.

Lemma take_Forall2_rows (l : list (list Z)) (index : list nat) (rows : list (list Z)) :
  take l index = Ok rows ->
  Forall2 (fun i r => nth_error l i = Some r) index rows.
Proof. apply take_Forall2. Qed.

(** X1: whatever the store returns for the requested series, a successful
    call of the windowing engine returns windows of exactly [n_channels]
    channels and [windows_size] steps, with a positive [windows_size], for a
    selection that is not empty, and a static row and a series index that
    agree entry by entry: the static row at every position is the row of
    [s_matrix] of the series index at that position, and that index is one
    of the requested ones. *)
Theorem create_windows_tensor_invariants (self : TimeSeriesLoader) (index : list nat)
    (windows : Tensor3) (s_rows : list (list Z)) (ts_idxs : list nat) :
  _create_windows_tensor self (Some index) = Ok (windows, s_rows, ts_idxs) ->
  0 < windows_size self /\
  (0 < n_channels (ts_dataset self))%nat /\
  Forall (fun w => length w = n_channels (ts_dataset self) /\
                   rows_of_length (windows_size self) w) windows /\
  index <> [] /\
  Forall (fun i => In i index) ts_idxs /\
  Forall2 (fun i r => nth_error (s_matrix (ts_dataset self)) i = Some r)
          ts_idxs s_rows.
Proof.
  intros H. apply create_windows_tensor_some_inv in H.
  destruct H as [tensor [padded [u [rows [k [_ [_ [_ [Hr [Hrows [Hk [-> ->]]]]]]]]]]]].
  apply reshape_shape in Hr. destruct Hr as [Hsize [Hc Hshape]].
  split; [exact Hsize|]. split; [exact Hc|]. split; [exact Hshape|].
  split; [|split].
  - intros ->. unfold windows_per_serie in Hk. simpl in Hk. discriminate.
  - apply Forall_forall. intros i Hi. eapply np_repeat_In. eassumption.
  - apply np_repeat_Forall2. apply take_Forall2. exact Hrows.
Qed.

Lemma create_windows_tensor_invariants_witness :
  exists windows s_rows ts_idxs,
    _create_windows_tensor (demo_loader false false) (Some [1; 0]%nat)
      = Ok (windows, s_rows, ts_idxs) /\
    Forall2 (fun i r => nth_error (s_matrix (ts_dataset (demo_loader false false))) i
                        = Some r) ts_idxs s_rows.
Proof.
  destruct (_create_windows_tensor (demo_loader false false) (Some [1; 0]%nat))
    as [[[windows s_rows] ts_idxs]|e] eqn:E; [|vm_compute in E; discriminate].
  exists windows, s_rows, ts_idxs. split; [reflexivity|].
  apply (create_windows_tensor_invariants (demo_loader false false) [1; 0]%nat
           windows s_rows ts_idxs E).
Defined.

(** ** What every produced batch satisfies *)

Lemma get_sampleable_windows_idxs_In (self : TimeSeriesLoader) (ws : Tensor3)
    (idxs : list nat) :
  0 < output_size self ->
  Forall (fun w => rows_of_length (windows_size self) w) ws ->
  _get_sampleable_windows_idxs self ws = Ok idxs ->
  forall i, In i idxs ->
            exists w, nth_error ws i = Some w /\ window_eligible self w.
Proof.
  intros Ho Hshape H i Hi. apply get_sampleable_windows_idxs_ok in H.
  destruct H as [H _].
  apply (sampling_idx_In self ws idxs Ho Hshape H i). exact Hi.
Qed.

(** X2: the leakage guard holds inside every batch.  With a positive
    horizon, every [sample_mask] row of a produced batch, shuffled or not,
    sums to [output_size] over its last [output_size] steps; under
    [complete_inputs] every [available_mask] row also sums to
    [windows_size - output_size] over its first
    [windows_size - output_size] steps. *)
Theorem windows_batch_no_leakage (index : list nat) (w w' : World) (b : Batch) :
  _windows_batch index w = (Ok b, w') ->
  0 < output_size (loader w) ->
  Forall (target_unmasked (loader w)) (b_sample_mask b) /\
  (complete_inputs (loader w) = true ->
   Forall (input_observed (loader w)) (b_available_mask b)).
Proof.
  intros H Ho. apply windows_batch_ok_inv in H.
  destruct H as [windows [s_rows [ts_idxs [eligible [chosen
                   [Hc [He [Hin [Hg _]]]]]]]]].
  apply create_windows_tensor_some_inv in Hc.
  destruct Hc as [tensor [padded [u [rows [k [_ [_ [_ [Hr _]]]]]]]]].
  apply reshape_shape in Hr. destruct Hr as [_ [_ Hshape]].
  assert (Hshape' : Forall (fun win => rows_of_length (windows_size (loader w)) win)
                           windows).
  { eapply Forall_impl; [|exact Hshape]. intros win [_ Hw]. exact Hw. }
  pose proof (get_sampleable_windows_idxs_In _ _ _ Ho Hshape' He) as Hel.
  assert (Helig : Forall (fun p => exists win, nth_error windows p = Some win /\
                                               window_eligible (loader w) win) chosen).
  { eapply Forall_impl; [|exact Hin]. intros p Hp. apply Hel. exact Hp. }
  apply gather_batch_holds in Hg.
  destruct Hg as [_ [_ [_ [Ham [Hsm _]]]]].
  split.
  - eapply Forall2_Forall_r; [|exact Helig|exact Hsm].
    intros p r [win [Hwin Hwe]] [win' [Hwin' Hnamed]].
    rewrite Hwin in Hwin'. inversion Hwin'. subst win'.
    unfold window_eligible in Hwe.
    assert (Hsc : sample_complete (loader w) win)
      by (destruct (complete_inputs (loader w)); tauto).
    destruct Hsc as [sm [Hsm' Hsum]]. rewrite Hnamed in Hsm'.
    inversion Hsm'. subst sm. exact Hsum.
  - intros Hci.
    eapply Forall2_Forall_r; [|exact Helig|exact Ham].
    intros p r [win [Hwin Hwe]] [win' [Hwin' Hnamed]].
    rewrite Hwin in Hwin'. inversion Hwin'. subst win'.
    unfold window_eligible in Hwe. rewrite Hci in Hwe.
    destruct Hwe as [_ [am [Ham' Hsum]]]. rewrite Hnamed in Ham'.
    inversion Ham'. subst am. exact Hsum.
Qed.

Lemma windows_batch_no_leakage_witness :
  exists b w',
    _windows_batch [0; 1]%nat (demo_world true true) = (Ok b, w') /\
    Forall (target_unmasked (demo_loader true true)) (b_sample_mask b) /\
    Forall (input_observed (demo_loader true true)) (b_available_mask b).
Proof.
  destruct (_windows_batch [0; 1]%nat (demo_world true true)) as [[b|e] w'] eqn:E;
    [|vm_compute in E; discriminate].
  exists b, w'. split; [reflexivity|].
  assert (Ho : 0 < output_size (loader (demo_world true true)))
    by (vm_compute; reflexivity).
  destruct (windows_batch_no_leakage [0; 1]%nat (demo_world true true) w' b E Ho)
    as [H1 H2].
  split; [exact H1 | exact (H2 eq_refl)].
Defined.

(** X3: a produced batch only holds windows of the requested series, each
    with the static row of its own series: every entry of [idxs] is one of
    the requested indices, and the row of [S] at the same position is the
    row of [s_matrix] at that index. *)
Theorem windows_batch_static_aligned (index : list nat) (w w' : World) (b : Batch) :
  _windows_batch index w = (Ok b, w') ->
  Forall (fun i => In i index) (b_idxs b) /\
  Forall2 (fun i r => nth_error (s_matrix (ts_dataset (loader w))) i = Some r)
          (b_idxs b) (b_S b).
Proof.
  intros H. apply windows_batch_ok_inv in H.
  destruct H as [windows [s_rows [ts_idxs [eligible [chosen
                   [Hc [_ [_ [Hg _]]]]]]]]].
  apply create_windows_tensor_some_inv in Hc.
  destruct Hc as [tensor [padded [u [rows [k [_ [_ [_ [_ [Hrows [_ [-> ->]]]]]]]]]]]].
  apply gather_batch_holds in Hg.
  destruct Hg as [HS [_ [_ [_ [_ Hidx]]]]].
  assert (Hal : Forall2 (fun i r => nth_error (s_matrix (ts_dataset (loader w))) i
                                    = Some r)
                        (np_repeat k index) (np_repeat k rows)).
  { apply np_repeat_Forall2. apply take_Forall2. exact Hrows. }
  split.
  - eapply Forall2_Forall_r with (P := fun _ => True); [| |exact Hidx].
    + intros p i _ Hp. simpl in Hp. apply (np_repeat_In k).
      apply (nth_error_In _ p). exact Hp.
    + apply Forall_forall. auto.
  - eapply Forall2_impl; [|exact (Forall2_same_left _ _ _ _ _ Hidx HS)].
    intros i r [p [Hi Hr]]. simpl in *.
    eapply (Forall2_nth_error_both _ _ _ Hal); eassumption.
Qed.

Lemma windows_batch_static_aligned_witness :
  exists b w',
    _windows_batch [1; 0]%nat (demo_world false true) = (Ok b, w') /\
    Forall (fun i => In i [1; 0]%nat) (b_idxs b).
Proof.
  destruct (_windows_batch [1; 0]%nat (demo_world false true)) as [[b|e] w'] eqn:E;
    [|vm_compute in E; discriminate].
  exists b, w'. split; [reflexivity|].
  apply (windows_batch_static_aligned [1; 0]%nat (demo_world false true) w' b E).
Defined.

Lemma Forall_py_slice {A : Type} (P : A -> Prop) (start stop : option Z) (l : list A) :
  Forall P l -> Forall P (py_slice start stop l).
Proof.
  intros H. unfold py_slice.
  set (lo := match start with Some i => slice_bound (length l) i | None => 0%nat end).
  set (hi := match stop with Some i => slice_bound (length l) i | None => length l end).
  rewrite <- (firstn_skipn lo l) in H. apply Forall_app in H. destruct H as [_ H].
  rewrite <- (firstn_skipn (hi - lo) (skipn lo l)) in H.
  apply Forall_app in H. tauto.
Qed.

Lemma py_slice_length_between {A : Type} (lo hi : nat) (l : list A) :
  (hi <= length l)%nat ->
  length (py_slice (Some (Z.of_nat lo + 1)) (Some (Z.of_nat hi)) l) = (hi - S lo)%nat.
Proof.
  intros Hhi. unfold py_slice, slice_bound.
  assert (E1 : (Z.of_nat lo + 1 <? 0) = false) by (apply Z.ltb_ge; lia).
  assert (E2 : (Z.of_nat hi <? 0) = false) by (apply Z.ltb_ge; lia).
  rewrite E1, E2, length_firstn, length_skipn. lia.
Qed.

Lemma Forall2_Forall_l {A B : Type} (R : A -> B -> Prop) (l : list A) (l' : list B) :
  Forall2 R l l' -> Forall (fun a => exists b, R a b) l.
Proof. induction 1; constructor; eauto. Qed.

Lemma named_channel_In (self : TimeSeriesLoader) (name : string)
    (win : list (list Z)) (r : list Z) :
  named_channel self name win = Some r ->
  exists c, list_index name (t_cols (ts_dataset self)) = Ok c /\
            nth_error win c = Some r.
Proof.
  unfold named_channel.
  destruct (list_index name (t_cols (ts_dataset self))) as [c|]; [|discriminate].
  eauto.
Qed.

(** X4: the shape of every produced batch.  All six fields have the same
    number of entries; every row of [Y], [available_mask] and [sample_mask]
    has [windows_size] steps; every entry of [X] holds the channels strictly
    between [y] and [available_mask], as many as their positions in [t_cols]
    are apart, each of [windows_size] steps.  Without shuffling the batch is
    never empty; with shuffling it has [batch_size] entries. *)
Theorem windows_batch_shape (index : list nat) (w w' : World) (b : Batch) :
  _windows_batch index w = (Ok b, w') ->
  (length (b_S b) = batch_length b /\ length (b_X b) = batch_length b /\
   length (b_available_mask b) = batch_length b /\
   length (b_sample_mask b) = batch_length b /\
   length (b_idxs b) = batch_length b) /\
  (rows_of_length (windows_size (loader w)) (b_Y b) /\
   rows_of_length (windows_size (loader w)) (b_available_mask b) /\
   rows_of_length (windows_size (loader w)) (b_sample_mask b)) /\
  (exists y a,
     list_index "y" (t_cols (ts_dataset (loader w))) = Ok y /\
     list_index "available_mask" (t_cols (ts_dataset (loader w))) = Ok a /\
     Forall (fun x => length x = (a - S y)%nat /\
                      rows_of_length (windows_size (loader w)) x) (b_X b)) /\
  (shuffle (loader w) = false -> (0 < batch_length b)%nat) /\
  (shuffle (loader w) = true -> Z.of_nat (batch_length b) = batch_size (loader w)).
Proof.
  intros H. apply windows_batch_ok_inv in H.
  destruct H as [windows [s_rows [ts_idxs [eligible [chosen
                   [Hc [He [_ [Hg [Hns Hsh]]]]]]]]]].
  apply create_windows_tensor_some_inv in Hc.
  destruct Hc as [tensor [padded [u [rows [k [_ [_ [_ [Hr _]]]]]]]]].
  apply reshape_shape in Hr. destruct Hr as [_ [_ Hshape]].
  assert (Hwin : forall p win, nth_error windows p = Some win ->
                 rows_of_length (windows_size (loader w)) win).
  { intros p win Hp. eapply Forall_forall in Hshape;
      [|eapply nth_error_In; exact Hp]. tauto. }
  assert (Hy : exists y, list_index "y" (t_cols (ts_dataset (loader w))) = Ok y).
  { unfold gather_batch in Hg.
    apply bind_ok in Hg. destruct Hg as [? [_ Hg]].
    apply bind_ok in Hg. destruct Hg as [? [_ Hg]].
    apply bind_ok in Hg. destruct Hg as [? [_ Hg]].
    apply bind_ok in Hg. destruct Hg as [y [Hy _]]. eauto. }
  assert (Ha : exists a, list_index "available_mask" (t_cols (ts_dataset (loader w)))
                         = Ok a).
  { unfold gather_batch in Hg.
    apply bind_ok in Hg. destruct Hg as [? [_ Hg]].
    apply bind_ok in Hg. destruct Hg as [? [_ Hg]].
    apply bind_ok in Hg. destruct Hg as [? [_ Hg]].
    apply bind_ok in Hg. destruct Hg as [? [_ Hg]].
    apply bind_ok in Hg. destruct Hg as [? [_ Hg]].
    apply bind_ok in Hg. destruct Hg as [? [_ Hg]].
    apply bind_ok in Hg. destruct Hg as [a [Ha _]]. eauto. }
  destruct Hy as [y Hy]. destruct Ha as [a Ha].
  apply gather_batch_holds in Hg.
  pose proof (batch_holds_length _ _ _ _ _ _ Hg) as [HlY [HlS [HlX [Hlam [Hlsm Hli]]]]].
  destruct Hg as [_ [HY [HX [Ham [Hsm _]]]]].
  assert (Hrow : forall name (field : list (list Z)),
            Forall2 (fun p r => exists win, nth_error windows p = Some win /\
                                named_channel (loader w) name win = Some r)
                    chosen field ->
            rows_of_length (windows_size (loader w)) field).
  { intros name field HF.
    eapply Forall2_Forall_r with (P := fun _ => True); [| |exact HF].
    - intros p r _ [win [Hp Hn]]. apply named_channel_In in Hn.
      destruct Hn as [c [_ Hc]]. pose proof (Hwin p win Hp) as Hw.
      eapply Forall_forall in Hw; [exact Hw|]. eapply nth_error_In. exact Hc.
    - apply Forall_forall. auto. }
  split; [|split; [|split; [|split]]].
  - repeat split; congruence.
  - split; [|split]; eapply Hrow; eassumption.
  - exists y, a. split; [exact Hy|]. split; [exact Ha|].
    eapply Forall2_Forall_r; [|exact (Forall2_Forall_l _ _ _ Ham)|exact HX].
    intros p x [r [win [Hp Hn]]] [win' [Hp' Hx]]. simpl in *.
    rewrite Hp in Hp'. inversion Hp'. subst win'.
    unfold named_channel in Hn. rewrite Ha in Hn.
    unfold exogenous_channels in Hx. rewrite Hy, Ha in Hx.
    inversion Hx. subst x. split.
    + apply py_slice_length_between.
      assert (a < length win)%nat by (apply nth_error_Some; congruence). lia.
    + apply Forall_py_slice. exact (Hwin p win Hp).
  - intros Hf. destruct (Hns Hf) as [-> _].
    apply get_sampleable_windows_idxs_ok in He. destruct He as [_ Hne].
    rewrite HlY. destruct eligible; [contradiction | simpl; lia].
  - intros Ht. rewrite HlY. apply Hsh. exact Ht.
Qed.

Lemma windows_batch_shape_witness :
  exists b w',
    _windows_batch [0; 1]%nat (demo_world false true) = (Ok b, w') /\
    rows_of_length (windows_size (loader (demo_world false true))) (b_Y b) /\
    Z.of_nat (batch_length b) = batch_size (loader (demo_world false true)).
Proof.
  destruct (_windows_batch [0; 1]%nat (demo_world false true)) as [[b|e] w'] eqn:E;
    [|vm_compute in E; discriminate].
  exists b, w'. split; [reflexivity|].
  destruct (windows_batch_shape [0; 1]%nat (demo_world false true) w' b E)
    as [_ [[HY _] [_ [_ Hsz]]]].
  split; [exact HY | exact (Hsz eq_refl)].
Defined.

(** ** Construction: invariants and failures *)

(** X5: what holds of every constructed loader.  The model is one of the two
    families and fixes window size and padding ([input_size + output_size]
    with padding [(input_size, output_size)] for nbeats, whatever
    [len_sample_chunks] was given; [len_sample_chunks] without padding for
    esrnn); a window is never shorter than [input_size + output_size]; the
    stored [n_series_per_batch] is nonzero, divides [batch_size] and does
    not exceed the series count of the store. *)
Theorem init_invariants (a : InitArgs) (self : TimeSeriesLoader) :
  __init__ a = Ok self ->
  known_family (model self) /\
  (model self = "nbeats" ->
   windows_size self = input_size self + output_size self /\
   padding self = (input_size self, output_size self)) /\
  (model self = "esrnn" ->
   windows_size self = len_sample_chunks self /\ padding self = (0, 0)) /\
  (arg_len_sample_chunks a = None ->
   len_sample_chunks self = input_size self + output_size self) /\
  input_size self + output_size self <= windows_size self /\
  n_series_per_batch self <> 0 /\
  (n_series_per_batch self | batch_size self) /\
  n_series_per_batch self <= n_series (ts_dataset self).
Proof.
  intros H. apply init_ok_inv in H.
  destruct H as [lsc [self1 [self2 [Hlsc [Hnz [Hmod [Hle [H1 [H2 ->]]]]]]]]].
  apply define_sampleable_ts_idxs_ok in H2. destruct H2 as [c [rows [_ [_ ->]]]].
  apply define_attributes_by_model_ok in H1. simpl in H1.
  assert (Hdiv : (resolved_n_series_per_batch a | arg_batch_size a))
    by (apply Z.mod_divide; assumption).
  assert (Hlsc' : arg_input_size a + arg_output_size a <= lsc)
    by (destruct Hlsc as [[_ ->]|[_ Hl]]; lia).
  assert (Hnone : arg_len_sample_chunks a = None ->
                  lsc = arg_input_size a + arg_output_size a).
  { intros Hn. destruct Hlsc as [[_ ->]|[Hs _]]; [reflexivity | congruence]. }
  destruct H1 as [[Hm ->]|[Hm ->]]; cbn [model windows_size padding input_size
    output_size len_sample_chunks n_series_per_batch batch_size ts_dataset
    set_n_batches set_sampleable set_windows initial_attributes];
    rewrite Hm.
  - split; [left; reflexivity|]. split; [auto|]. split; [discriminate|].
    split; [exact Hnone|]. split; [lia|]. auto.
  - split; [right; reflexivity|]. split; [discriminate|]. split; [auto|].
    split; [exact Hnone|]. split; [lia|]. auto.
Qed.

Lemma init_invariants_witness :
  __init__ (demo_args_masked false) = Ok demo_loader_masked /\
  windows_size demo_loader_masked = len_sample_chunks demo_loader_masked /\
  (n_series_per_batch demo_loader_masked | batch_size demo_loader_masked).
Proof.
  assert (E : __init__ (demo_args_masked false) = Ok demo_loader_masked)
    by reflexivity.
  split; [exact E|].
  destruct (init_invariants (demo_args_masked false) demo_loader_masked E)
    as [_ [_ [Hes [_ [_ [_ [Hdiv _]]]]]]].
  split; [exact (proj1 (Hes eq_refl)) | exact Hdiv].
Defined.

Lemma nonzero_from_ge (v : list bool) (s i : nat) :
  In i (nonzero_from s v) -> (s <= i < s + length v)%nat.
Proof.
  intros H. apply nonzero_from_In in H. destruct H as [j [-> Hj]].
  assert (j < length v)%nat by (apply nth_error_Some; congruence). lia.
Qed.

Lemma nonzero_from_sorted (v : list bool) :
  forall s, StronglySorted lt (nonzero_from s v).
Proof.
  induction v as [|b v IH]; intros s; simpl; [constructor|].
  destruct b; [|apply IH]. constructor; [apply IH|].
  apply Forall_forall. intros i Hi. apply nonzero_from_ge in Hi. lia.
Qed.

(** X6: the stored vector of sampleable series is strictly increasing (so it
    has no repetition) and every entry is the position of a series of the
    full tensor; [n_sampleable_ts] is its length. *)
Theorem sampleable_ts_idxs_sorted (a : InitArgs) (self : TimeSeriesLoader) :
  __init__ a = Ok self ->
  StronglySorted lt (sampleable_ts_idxs self) /\
  Forall (fun i => (i < length (ts_tensor (ts_dataset self)))%nat)
         (sampleable_ts_idxs self) /\
  n_sampleable_ts self = Z.of_nat (length (sampleable_ts_idxs self)) /\
  (length (sampleable_ts_idxs self) <= length (ts_tensor (ts_dataset self)))%nat.
Proof.
  intros H. apply init_ok_inv in H.
  destruct H as [lsc [self1 [self2 [_ [_ [_ [_ [H1 [H2 ->]]]]]]]]].
  apply define_sampleable_ts_idxs_ok in H2. destruct H2 as [c [rows [_ [Hrows ->]]]].
  apply mapM_length in Hrows.
  apply define_attributes_by_model_ok in H1.
  set (v := map (fun s => series_threshold self1 <? s) (map sumZ rows)).
  assert (Hv : length v = length (ts_tensor (ts_dataset self1)))
    by (unfold v; rewrite !length_map; exact Hrows).
  assert (Hds : ts_dataset self1 = arg_ts_dataset a)
    by (destruct H1 as [[_ ->]|[_ ->]]; reflexivity).
  cbn [sampleable_ts_idxs n_sampleable_ts ts_dataset set_n_batches set_sampleable].
  pose proof (nonzero_from_sorted v 0) as Hsorted. fold (nonzero v) in Hsorted.
  assert (Hlt : Forall (fun i => (i < length v)%nat) (nonzero v)) by apply nonzero_lt.
  split; [exact Hsorted|]. split; [rewrite <- Hv; exact Hlt|].
  split; [reflexivity|].
  rewrite <- Hv.
  replace (length v) with (length (seq 0%nat (length v))) by apply length_seq.
  apply NoDup_incl_length; [apply nonzero_from_NoDup|].
  intros i Hi. apply in_seq.
  pose proof (proj1 (Forall_forall _ _) Hlt i Hi) as Hb. simpl in Hb. lia.
Qed.

Lemma sampleable_ts_idxs_sorted_witness :
  __init__ (demo_args "nbeats" false false) = Ok (demo_loader false false) /\
  StronglySorted lt (sampleable_ts_idxs (demo_loader false false)).
Proof.
  assert (E : __init__ (demo_args "nbeats" false false) = Ok (demo_loader false false))
    by reflexivity.
  split; [exact E|].
  apply (sampleable_ts_idxs_sorted (demo_args "nbeats" false false)
           (demo_loader false false) E).
Defined.

(** X7: which protection reports.  The protections of [__init__] run in a
    fixed order, and the first one that is violated decides the exception:
    the length of the sample chunks, then the multiple, then the bound on
    [n_series_per_batch], then the model family. *)
Theorem init_first_failure (a : InitArgs) :
  resolved_n_series_per_batch a <> 0 ->
  (chunks_too_short a ->
   __init__ a = Raise (Exception InsufficientLenOfSampleChunks)) /\
  (~ chunks_too_short a ->
   ~ (resolved_n_series_per_batch a | arg_batch_size a) ->
   __init__ a = Raise (AssertionError BatchSizeNotMultiple)) /\
  (~ chunks_too_short a ->
   (resolved_n_series_per_batch a | arg_batch_size a) ->
   n_series (arg_ts_dataset a) < resolved_n_series_per_batch a ->
   __init__ a = Raise (AssertionError NSeriesPerBatchTooLarge)) /\
  (~ chunks_too_short a ->
   (resolved_n_series_per_batch a | arg_batch_size a) ->
   resolved_n_series_per_batch a <= n_series (arg_ts_dataset a) ->
   ~ known_family (arg_model a) ->
   __init__ a = Raise (Exception NoBatchStrategy)).
Proof.
  intros Hn.
  assert (Hshort : chunks_too_short a ->
                   __init__ a = Raise (Exception InsufficientLenOfSampleChunks)).
  { intros [l [Hl Hlt]]. unfold __init__. rewrite Hl.
    apply Z.ltb_lt in Hlt. rewrite Hlt. reflexivity. }
  assert (Hlong : ~ chunks_too_short a ->
            exists lsc,
              match arg_len_sample_chunks a with
              | Some l => if l <? arg_input_size a + arg_output_size a
                          then Raise (Exception InsufficientLenOfSampleChunks)
                          else Ok l
              | None => Ok (arg_input_size a + arg_output_size a)
              end = Ok lsc).
  { intros Hgood. unfold chunks_too_short in Hgood.
    destruct (arg_len_sample_chunks a) as [l|]; [|eauto].
    destruct (l <? arg_input_size a + arg_output_size a) eqn:El; [|eauto].
    exfalso. apply Hgood. exists l. split; [reflexivity|]. apply Z.ltb_lt. exact El. }
  assert (Hmod : py_mod (arg_batch_size a) (resolved_n_series_per_batch a)
                 = Ok (arg_batch_size a mod resolved_n_series_per_batch a)).
  { unfold py_mod. apply Z.eqb_neq in Hn. rewrite Hn. reflexivity. }
  split; [exact Hshort|]. split; [|split].
  - intros Hgood Hndiv. destruct (Hlong Hgood) as [lsc Hlsc].
    unfold __init__. rewrite Hlsc. cbn [bind batch_size n_series_per_batch
      initial_attributes]. rewrite Hmod. cbn [bind].
    destruct (Z.eqb_spec (arg_batch_size a mod resolved_n_series_per_batch a) 0)
      as [E|E]; [|reflexivity].
    exfalso. apply Hndiv. apply Z.mod_divide; assumption.
  - intros Hgood Hdiv Hgt. destruct (Hlong Hgood) as [lsc Hlsc].
    unfold __init__. rewrite Hlsc. cbn [bind batch_size n_series_per_batch
      ts_dataset initial_attributes]. rewrite Hmod. cbn [bind].
    apply Z.mod_divide in Hdiv; [|assumption]. rewrite Hdiv. cbn [Z.eqb py_assert bind].
    apply Z.leb_gt in Hgt. rewrite Hgt. reflexivity.
  - intros Hgood Hdiv Hle Hfam. destruct (Hlong Hgood) as [lsc Hlsc].
    unfold __init__. rewrite Hlsc. cbn [bind batch_size n_series_per_batch
      ts_dataset initial_attributes]. rewrite Hmod. cbn [bind].
    apply Z.mod_divide in Hdiv; [|assumption]. rewrite Hdiv. cbn [Z.eqb py_assert bind].
    apply Z.leb_le in Hle. rewrite Hle. cbn [py_assert bind].
    unfold _define_attributes_by_model. cbn [model initial_attributes].
    destruct (py_in (arg_model a) ["nbeats"]) eqn:E1.
    { exfalso. apply Hfam. left. apply py_in_singleton. exact E1. }
    destruct (py_in (arg_model a) ["esrnn"]) eqn:E2.
    { exfalso. apply Hfam. right. apply py_in_singleton. exact E2. }
    reflexivity.
Qed.

Lemma init_first_failure_witness :
  resolved_n_series_per_batch demo_args_broken <> 0 /\
  chunks_too_short demo_args_broken /\
  ~ known_family (arg_model demo_args_broken) /\
  __init__ demo_args_broken = Raise (Exception InsufficientLenOfSampleChunks).
Proof.
  assert (Hn : resolved_n_series_per_batch demo_args_broken <> 0)
    by (vm_compute; discriminate).
  assert (Hs : chunks_too_short demo_args_broken).
  { exists 2. split; [reflexivity | vm_compute; reflexivity]. }
  split; [exact Hn|]. split; [exact Hs|]. split.
  - intros [H|H]; vm_compute in H; discriminate.
  - apply (proj1 (init_first_failure demo_args_broken Hn) Hs).
Defined.

Lemma list_index_not_In (x : string) (l : list string) :
  ~ In x l -> list_index x l = Raise ValueError.
Proof.
  induction l as [|y l IH]; intros Hnot; simpl; [reflexivity|].
  destruct (String.eqb_spec y x) as [E|E].
  - exfalso. apply Hnot. left. exact E.
  - rewrite IH; [reflexivity|]. intros Hin. apply Hnot. right. exact Hin.
Qed.

(** X8: a store whose channel list has no ["sample_mask"] cannot be loaded:
    with an otherwise valid configuration, construction passes all its
    protections and then fails with the [ValueError] of [list.index], which
    is none of the configuration errors. *)
Theorem init_missing_sample_mask (a : InitArgs) :
  resolved_n_series_per_batch a <> 0 ->
  ~ invalid_configuration a ->
  ~ In "sample_mask" (t_cols (arg_ts_dataset a)) ->
  __init__ a = Raise ValueError /\ ~ ConfigurationError ValueError.
Proof.
  intros Hn Hgood Hmiss. split.
  - destruct (init_cases a Hn) as [[Hbad _]|[_ [self1 [_ [Hds Heq]]]]];
      [contradiction|].
    rewrite Heq. unfold _define_sampleable_ts_idxs. rewrite Hds.
    rewrite (list_index_not_In _ _ Hmiss). reflexivity.
  - unfold ConfigurationError. intros [H|[H|[H|H]]]; discriminate.
Qed.

Lemma init_missing_sample_mask_witness :
  __init__ demo_args_unmasked = Raise ValueError.
Proof.
  apply (init_missing_sample_mask demo_args_unmasked).
  - vm_compute. discriminate.
  - unfold invalid_configuration, known_family. simpl.
    intros [H|[[l [H _]]|[H|H]]].
    + apply H. left. reflexivity.
    + discriminate.
    + apply H. exists 1. reflexivity.
    + vm_compute in H. discriminate.
  - simpl. intros [H|[H|[]]]; discriminate.
Defined.

(** X9: the number of batches of a constructed loader with a positive
    [n_series_per_batch]: it is zero exactly when no series is sampleable,
    it never exceeds the number of sampleable series, and it is one as soon
    as one batch can take all of them. *)
Theorem n_batches_bounds (a : InitArgs) (self : TimeSeriesLoader) :
  __init__ a = Ok self ->
  0 < n_series_per_batch self ->
  0 <= n_batches self <= n_sampleable_ts self /\
  (n_batches self = 0 <-> sampleable_ts_idxs self = []) /\
  (0 < n_sampleable_ts self <= n_series_per_batch self -> n_batches self = 1).
Proof.
  intros H Hb.
  destruct (init_ok_attributes _ _ H) as [_ [_ [_ [_ [_ [_ [_ [Hn Hnb]]]]]]]].
  pose proof (ceil_div_bounds (n_sampleable_ts self) (n_series_per_batch self) Hb)
    as Hceil.
  rewrite <- Hnb in Hceil.
  assert (Hpos : 0 <= n_sampleable_ts self) by lia.
  split; [nia|]. split; [split|].
  - intros Hz. rewrite Hz in Hceil.
    destruct (sampleable_ts_idxs self); [reflexivity | simpl in Hn; lia].
  - intros Hnil. rewrite Hnil in Hn. simpl in Hn. nia.
  - intros Hfit. nia.
Qed.

Lemma n_batches_bounds_witness :
  __init__ (demo_args "nbeats" false false) = Ok (demo_loader false false) /\
  n_batches (demo_loader false false) = 1.
Proof.
  assert (E : __init__ (demo_args "nbeats" false false) = Ok (demo_loader false false))
    by reflexivity.
  split; [exact E|].
  assert (Hb : 0 < n_series_per_batch (demo_loader false false))
    by (vm_compute; reflexivity).
  apply (proj2 (proj2 (n_batches_bounds (demo_args "nbeats" false false)
                         (demo_loader false false) E Hb))).
  vm_compute. split; [reflexivity | discriminate].
Defined.

(** ** Padding and windowing by model family *)

Lemma pad_row_nonneg (p : Z * Z) (row : list Z) :
  0 <= fst p -> 0 <= snd p -> pad_row p row = Ok (zero_padded p row).
Proof.
  destruct p as [l r]. simpl. intros Hl Hr. unfold pad_row, zero_padded. simpl.
  replace (Z.to_nat (- l)) with 0%nat by lia.
  replace (Z.to_nat (- r)) with 0%nat by lia.
  simpl. rewrite !Nat.sub_0_r, firstn_all. reflexivity.
Qed.

Lemma padder_nonneg (p : Z * Z) (tensor : Tensor3) :
  0 <= fst p -> 0 <= snd p ->
  padder p tensor = Ok (map (map (zero_padded p)) tensor).
Proof.
  intros Hl Hr. unfold padder. apply mapM_pure. apply Forall_forall.
  intros series _. apply mapM_pure. apply Forall_forall. intros row _.
  apply pad_row_nonneg; assumption.
Qed.

Lemma zero_padded_length (p : Z * Z) (row : list Z) :
  length (zero_padded p row)
  = (Z.to_nat (fst p) + length row + Z.to_nat (snd p))%nat.
Proof. unfold zero_padded. rewrite !length_app, !repeat_length. lia. Qed.

Lemma padded_shape (p : Z * Z) (n c len : nat) (tensor : Tensor3) :
  tensor_shape n c len tensor ->
  tensor_shape n c (Z.to_nat (fst p) + len + Z.to_nat (snd p))
               (map (map (zero_padded p)) tensor).
Proof.
  intros [Hn Hshape]. split; [rewrite length_map; exact Hn|].
  apply Forall_map. eapply Forall_impl; [|exact Hshape].
  intros series [Hc Hrows]. simpl. rewrite length_map. split; [exact Hc|].
  apply Forall_map. eapply Forall_impl; [|exact Hrows].
  intros row Hrow. simpl in *. rewrite zero_padded_length, Hrow. reflexivity.
Qed.

(** The result of the windowing engine, in full, when nothing fails. *)
Lemma create_windows_tensor_run (self : TimeSeriesLoader) (index : list nat)
    (tensor padded : Tensor3) (len : nat) (rows : list (list Z)) :
  get_filtered_ts_tensor (ts_dataset self) (output_size self)
    (window_sampling_limit self) (Some index) = Some tensor ->
  padder (padding self) tensor = Ok padded ->
  tensor_shape (length index) (n_channels (ts_dataset self)) len padded ->
  (0 < length index)%nat -> (0 < n_channels (ts_dataset self))%nat ->
  0 < windows_size self <= Z.of_nat len ->
  0 < idx_to_sample_freq self ->
  take (s_matrix (ts_dataset self)) index = Ok rows ->
  let k := n_frames len (windows_size self) (idx_to_sample_freq self) in
  _create_windows_tensor self (Some index) =
  Ok (windows_of (windows_size self) (idx_to_sample_freq self) k padded,
      np_repeat k rows, np_repeat k index).
Proof.
  intros Hget Hpad Hshape Hn Hc Hw Hs Hrows k.
  pose proof (windows_of_shape _ _ len (windows_size self) (idx_to_sample_freq self)
                padded Hs ltac:(lia) Hshape) as Hwshape.
  fold k in Hwshape.
  unfold _create_windows_tensor. rewrite Hget. cbn [call_store bind].
  rewrite Hpad. cbn [bind].
  rewrite (unfold_ok (length index) (n_channels (ts_dataset self)) len)
    by (assumption || lia).
  cbn [bind].
  rewrite (reshape_windows (length index * k) (n_channels (ts_dataset self)) len
             (windows_size self)
             (windows_of (windows_size self) (idx_to_sample_freq self) k padded));
    try assumption; try lia.
  2:{ apply (permute_unfold (length index) (n_channels (ts_dataset self)) len);
      assumption. }
  cbn [bind]. rewrite Hrows. cbn [bind].
  destruct Hwshape as [Hlen _]. rewrite Hlen.
  rewrite windows_per_serie_exact by assumption. reflexivity.
Qed.

Lemma zero_padded_nth (p : Z * Z) (row : list Z) (i : nat) :
  nth i (zero_padded p row) 0 =
  if (i <? Z.to_nat (fst p))%nat then 0 else nth (i - Z.to_nat (fst p)) row 0.
Proof.
  unfold zero_padded. destruct (Nat.ltb_spec i (Z.to_nat (fst p))) as [Hlt|Hge].
  - rewrite app_nth1 by (rewrite repeat_length; exact Hlt). apply nth_repeat.
  - rewrite app_nth2 by (rewrite repeat_length; lia). rewrite repeat_length.
    destruct (Nat.lt_ge_cases (i - Z.to_nat (fst p)) (length row)) as [Hin|Hout].
    + apply app_nth1. exact Hin.
    + rewrite app_nth2 by lia. rewrite nth_repeat.
      symmetry. apply nth_overflow. exact Hout.
Qed.

Lemma frame_nth (size step : Z) (row : list Z) (j t : nat) :
  (t < Z.to_nat size)%nat ->
  nth t (frame size step row j) 0 = nth (j * Z.to_nat step + t) row 0.
Proof.
  intros Ht. unfold frame. rewrite nth_firstn.
  destruct (Nat.ltb_spec t (Z.to_nat size)); [|lia]. apply nth_skipn.
Qed.

(** X10: windows of the nbeats family, read off the series as the store holds
    them.  Take a loader with padding [(input_size, output_size)] and
    [windows_size = input_size + output_size], where [input_size] and
    [output_size] are non-negative and not both zero and the stride is at
    least one, and a selection of at least one series, all inside the static
    matrix, for which the store returns one series of [len] steps and at
    least one channel per selected index, every entry an integer of magnitude
    at most 2^24 (which the conversion to single precision keeps as it is).
    Then windowing never fails for want of length: every series, however
    short, gives [floor(len / stride) + 1] windows, and entry [t] of window
    [j] of a channel is step [j * stride + t - input_size] of that channel,
    or zero where this falls outside the series. *)
Theorem create_windows_tensor_nbeats
    (self : TimeSeriesLoader) (index : list nat) (tensor : Tensor3) (len : nat) :
  let n := length index in
  let k := Z.to_nat (Z.of_nat len / idx_to_sample_freq self + 1) in
  padding self = (input_size self, output_size self) ->
  windows_size self = input_size self + output_size self ->
  0 <= input_size self -> 0 <= output_size self -> 0 < windows_size self ->
  0 < idx_to_sample_freq self ->
  get_filtered_ts_tensor (ts_dataset self) (output_size self)
    (window_sampling_limit self) (Some index) = Some tensor ->
  tensor_shape n (n_channels (ts_dataset self)) len tensor ->
  float32_exact tensor ->
  (0 < n)%nat -> (0 < n_channels (ts_dataset self))%nat ->
  Forall (fun i => (i < length (s_matrix (ts_dataset self)))%nat) index ->
  exists windows s_rows ts_idxs,
    _create_windows_tensor self (Some index) = Ok (windows, s_rows, ts_idxs) /\
    length windows = (n * k)%nat /\
    forall s j c t series row,
      (j < k)%nat -> (t < Z.to_nat (windows_size self))%nat ->
      nth_error tensor s = Some series -> nth_error series c = Some row ->
      exists win wrow,
        nth_error windows (s * k + j) = Some win /\
        nth_error win c = Some wrow /\
        nth t wrow 0 =
          nbeats_entry (input_size self) (idx_to_sample_freq self) row j t.
Proof.
  intros n k Hpad Hw Hin Hout Hpos Hs Hget Hshape _ Hn Hc Hidx.
  destruct (take_total _ _ Hidx) as [rows Hrows].
  set (plen := (Z.to_nat (input_size self) + len + Z.to_nat (output_size self))%nat).
  assert (Hpadder : padder (padding self) tensor
                    = Ok (map (map (zero_padded (padding self))) tensor)).
  { apply padder_nonneg; rewrite Hpad; simpl; assumption. }
  assert (Hpshape : tensor_shape n (n_channels (ts_dataset self)) plen
                      (map (map (zero_padded (padding self))) tensor)).
  { pose proof (padded_shape (padding self) _ _ _ _ Hshape) as H.
    rewrite Hpad in H. simpl in H. rewrite Hpad. exact H. }
  assert (Hk : n_frames plen (windows_size self) (idx_to_sample_freq self) = k).
  { unfold n_frames, k, plen. f_equal. f_equal. f_equal. lia. }
  pose proof (create_windows_tensor_run self index tensor _ plen rows
                Hget Hpadder Hpshape Hn Hc ltac:(unfold plen; lia) Hs Hrows) as Hrun.
  cbv zeta in Hrun. rewrite Hk in Hrun.
  eexists _, _, _. split; [exact Hrun|]. split.
  - pose proof (windows_of_shape n _ plen (windows_size self) (idx_to_sample_freq self)
                  _ Hs ltac:(unfold plen; lia) Hpshape) as [Hlen _].
    rewrite Hk in Hlen. exact Hlen.
  - intros s j c t series row Hj Ht Hser Hrow.
    exists (window_at (windows_size self) (idx_to_sample_freq self)
                      (map (zero_padded (padding self)) series) j),
           (frame (windows_size self) (idx_to_sample_freq self)
                  (zero_padded (padding self) row) j).
    split; [|split].
    + rewrite windows_of_nth_error by exact Hj.
      rewrite nth_error_map, Hser. reflexivity.
    + unfold window_at. rewrite map_map, nth_error_map, Hrow. reflexivity.
    + rewrite frame_nth by exact Ht. rewrite zero_padded_nth, Hpad. reflexivity.
Qed.

Lemma create_windows_tensor_nbeats_witness :
  exists windows s_rows ts_idxs,
    _create_windows_tensor (demo_loader false false) (Some [1]%nat)
      = Ok (windows, s_rows, ts_idxs) /\
    length windows = 5%nat.
Proof.
  destruct (create_windows_tensor_nbeats (demo_loader false false) [1]%nat
              [ [ [5; 6; 7; 8]; [0; 1; 1; 1]; [0; 0; 1; 0] ] ] 4)
    as [windows [s_rows [ts_idxs [Hrun [Hlen _]]]]].
  - reflexivity.
  - reflexivity.
  - simpl. lia.
  - simpl. lia.
  - simpl. lia.
  - simpl. lia.
  - reflexivity.
  - split; [reflexivity|]. repeat constructor.
  - repeat constructor; simpl; lia.
  - simpl. lia.
  - simpl. lia.
  - repeat constructor.
  - exists windows, s_rows, ts_idxs. split; [exact Hrun | exact Hlen].
Defined.

(** X11: windows of the esrnn family are cut from the series as they are:
    when the store returns series shorter than [windows_size] (the chunk
    length), the windowing engine fails with the runtime error of [unfold],
    and a batch-production call fails with it, before the eligibility check
    and without touching loader or random source; this is not the
    assertion of the eligibility check. *)
Theorem create_windows_tensor_short_series
    (w : World) (index : list nat) (tensor : Tensor3) (n c len : nat) :
  padding (loader w) = (0, 0) ->
  get_filtered_ts_tensor (ts_dataset (loader w)) (output_size (loader w))
    (window_sampling_limit (loader w)) (Some index) = Some tensor ->
  tensor_shape n c len tensor ->
  (0 < n)%nat -> (0 < c)%nat ->
  Z.of_nat len < windows_size (loader w) ->
  _create_windows_tensor (loader w) (Some index) = Raise RuntimeError /\
  _windows_batch index w = (Raise RuntimeError, w) /\
  ~ DataError RuntimeError.
Proof.
  intros Hpad Hget [Hn Hshape] Hn0 Hc0 Hshort.
  assert (Hc : _create_windows_tensor (loader w) (Some index) = Raise RuntimeError).
  { unfold _create_windows_tensor. rewrite Hget. cbn [call_store bind].
    rewrite padder_nonneg by (rewrite Hpad; simpl; lia). cbn [bind].
    destruct tensor as [|series tensor]; [simpl in Hn; lia|].
    apply Forall_inv in Hshape. destruct Hshape as [Hlen Hrows].
    destruct series as [|row series]; [simpl in Hlen; lia|].
    apply Forall_inv in Hrows. rename Hrows into Hrow. simpl in Hrow.
    cbn [map unfold mapM].
    assert (Hu : unfold_row (windows_size (loader w)) (idx_to_sample_freq (loader w))
                   (zero_padded (padding (loader w)) row) = Raise RuntimeError).
    { unfold unfold_row. rewrite zero_padded_length, Hpad. simpl.
      assert (E : (Z.of_nat (length row + 0) <? windows_size (loader w)) = true)
        by (apply Z.ltb_lt; lia).
      rewrite E, !orb_true_r. reflexivity. }
    rewrite Hu. reflexivity. }
  split; [exact Hc|]. split.
  - rewrite windows_batch_steps, Hc. reflexivity.
  - unfold DataError. discriminate.
Qed.

Lemma create_windows_tensor_short_series_witness :
  _windows_batch [0]%nat
    {| loader := demo_loader_long_chunks; random_state := demo_random |}
  = (Raise RuntimeError,
     {| loader := demo_loader_long_chunks; random_state := demo_random |}).
Proof.
  apply (create_windows_tensor_short_series
           {| loader := demo_loader_long_chunks; random_state := demo_random |}
           [0]%nat [ [ [1; 2; 3; 4]; [1; 1; 1; 1]; [1; 1; 1; 1] ] ] 1 3 4).
  - reflexivity.
  - reflexivity.
  - split; [reflexivity|]. repeat constructor.
  - lia.
  - lia.
  - vm_compute. reflexivity.
Defined.

(** ** Sampling without replacement *)

Lemma remove_nth_perm (l : list nat) :
  forall r, (r < length l)%nat -> Permutation l (nth r l O :: remove_nth r l).
Proof.
  induction l as [|x l IH]; intros r Hr; [simpl in Hr; lia|].
  destruct r as [|r]; simpl; [apply Permutation_refl|].
  eapply perm_trans; [|apply perm_swap].
  apply perm_skip. apply IH. simpl in Hr. lia.
Qed.

Lemma remove_nth_length {A : Type} (l : list A) :
  forall r, (r < length l)%nat -> length (remove_nth r l) = (length l - 1)%nat.
Proof.
  induction l as [|x l IH]; intros r Hr; [simpl in Hr; lia|].
  destruct r as [|r]; simpl; [lia|].
  simpl in Hr. rewrite IH by lia. lia.
Qed.

Lemma select_all_perm (fuel : nat) :
  forall l g, (length l <= fuel)%nat -> Permutation (fst (select_all fuel l g)) l.
Proof.
  induction fuel as [|fuel IH]; intros l g Hl.
  - destruct l; [constructor | simpl in Hl; lia].
  - destruct l as [|x l]; [constructor|].
    cbn [select_all]. set (l0 := x :: l) in *.
    unfold randint. set (r := (tape g (pos g) mod length l0)%nat).
    assert (Hr : (r < length l0)%nat)
      by (apply Nat.mod_upper_bound; unfold l0; simpl; lia).
    destruct (select_all fuel (remove_nth r l0) {| tape := tape g; pos := S (pos g) |})
      as [rest g2] eqn:E.
    cbn [fst].
    assert (Hrest : Permutation rest (remove_nth r l0)).
    { pose proof (IH (remove_nth r l0) {| tape := tape g; pos := S (pos g) |}) as H.
      rewrite E in H. apply H. rewrite remove_nth_length by exact Hr. lia. }
    eapply perm_trans; [apply perm_skip; exact Hrest|].
    apply Permutation_sym. apply remove_nth_perm. exact Hr.
Qed.

Lemma permutation_perm (n : nat) (g : RandomState) :
  Permutation (fst (permutation n g)) (seq 0 n).
Proof. unfold permutation. apply select_all_perm. rewrite length_seq. lia. Qed.

Lemma take_In {A : Type} (l : list A) (idxs : list nat) (r : list A) :
  take l idxs = Ok r -> Forall (fun x => In x l) r.
Proof.
  intros H. apply take_Forall2 in H.
  induction H as [|p x idxs r Hp _ IH]; constructor;
    [eapply nth_error_In; eassumption | assumption].
Qed.

(** Drawing as many series as there are, without replacement, cannot fail
    and returns them all, each once. *)
Lemma choice_all_without_replacement (a : list nat) (g : RandomState) :
  exists drawn g',
    choice a (Z.of_nat (length a)) false g = (Ok drawn, g') /\
    Permutation drawn a.
Proof.
  unfold choice.
  assert (E1 : (Z.of_nat (length a) <? 0) = false) by (apply Z.ltb_ge; lia).
  assert (E2 : ((length a =? 0)%nat && negb (Z.of_nat (length a) =? 0)) = false).
  { destruct a; [reflexivity|]. reflexivity. }
  assert (E3 : (Z.of_nat (length a) <? Z.of_nat (length a)) = false)
    by (apply Z.ltb_irrefl).
  rewrite E1, E2, E3, Nat2Z.id.
  pose proof (permutation_perm (length a) g) as Hperm.
  destruct (permutation (length a) g) as [idx g']. cbn [fst] in Hperm.
  assert (Hlen : length idx = length a).
  { apply Permutation_length in Hperm. rewrite length_seq in Hperm. exact Hperm. }
  rewrite <- Hlen, firstn_all.
  assert (Hlt : Forall (fun p => (p < length a)%nat) idx).
  { apply Forall_forall. intros p Hp.
    apply (Permutation_in _ Hperm) in Hp. apply in_seq in Hp. lia. }
  rewrite (take_nth O) by exact Hlt.
  eexists _, _. split; [reflexivity|].
  apply perm_trans with (map (fun i => nth i a O) (seq 0 (length a))).
  - apply Permutation_map. exact Hperm.
  - rewrite map_nth_seq. apply Permutation_refl.
Qed.

(** ** Passes in general *)

Lemma py_slice_In {A : Type} (start stop : option Z) (l : list A) (x : A) :
  In x (py_slice start stop l) -> In x l.
Proof.
  intros H.
  assert (HF : Forall (fun y => In y l) (py_slice start stop l)).
  { apply Forall_py_slice. apply Forall_forall. auto. }
  eapply Forall_forall in HF; eassumption.
Qed.

Lemma windows_batch_idxs_requested (index : list nat) (w w' : World) (b : Batch) :
  _windows_batch index w = (Ok b, w') -> Forall (fun i => In i index) (b_idxs b).
Proof.
  intros H. apply windows_batch_ok_inv in H.
  destruct H as [windows [s_rows [ts_idxs [eligible [chosen
                   [Hc [_ [_ [Hg _]]]]]]]]].
  apply create_windows_tensor_some_inv in Hc.
  destruct Hc as [tensor [padded [u [rows [k [_ [_ [_ [_ [_ [_ [_ ->]]]]]]]]]]]].
  unfold gather_batch in Hg.
  apply bind_ok in Hg. destruct Hg as [wins [_ Hg]].
  apply bind_ok in Hg. destruct Hg as [srows [_ Hg]].
  apply bind_ok in Hg. destruct Hg as [idxs [Hidxs Hg]].
  repeat (apply bind_ok in Hg; destruct Hg as [? [_ Hg]]).
  inversion Hg. simpl. apply take_In in Hidxs.
  eapply Forall_impl; [|exact Hidxs]. intros i Hi. simpl in Hi.
  eapply np_repeat_In. exact Hi.
Qed.

(** The loop of a pass, whatever the mode. *)
Lemma iter_loop_general (sample_idxs : list nat) :
  forall range w,
    loader (snd (iter_loop sample_idxs range w)) = loader w /\
    (length (yielded (fst (iter_loop sample_idxs range w))) <= length range)%nat /\
    (raised (fst (iter_loop sample_idxs range w)) = None ->
     length (yielded (fst (iter_loop sample_idxs range w))) = length range) /\
    Forall (fun b => Forall (fun i => In i sample_idxs) (b_idxs b))
           (yielded (fst (iter_loop sample_idxs range w))).
Proof.
  induction range as [|idx range IH]; intros w.
  - simpl. repeat split; [lia | constructor].
  - cbn [iter_loop].
    pose proof (windows_batch_loader (batch_ts_idxs (loader w) sample_idxs idx) w)
      as Hl.
    destruct (__getitem__ (batch_ts_idxs (loader w) sample_idxs idx) w)
      as [[b|e] w'] eqn:Eg.
    + unfold __getitem__ in Eg, Hl. rewrite Eg in Hl. cbn [snd] in Hl.
      pose proof (windows_batch_idxs_requested _ _ _ _ Eg) as Hb.
      destruct (IH w') as [IHl [IHle [IHn IHin]]].
      destruct (iter_loop sample_idxs range w') as [p w''].
      cbn [fst snd yielded raised length] in *.
      split; [congruence|]. split; [lia|]. split; [intros Hr; rewrite (IHn Hr); lia|].
      constructor; [|exact IHin].
      eapply Forall_impl; [|exact Hb]. intros i Hi. simpl in Hi.
      unfold batch_ts_idxs in Hi. eapply py_slice_In. exact Hi.
    + unfold __getitem__ in Eg, Hl. rewrite Eg in Hl. cbn [snd] in Hl.
      cbn [fst snd yielded raised length].
      split; [exact Hl|]. split; [lia|]. split; [discriminate | constructor].
Qed.

(** X12: every pass, shuffled or not, on any loader: it never changes the
    loader, it yields at most [n_batches] batches and exactly [n_batches]
    when it ends without an exception, and every window it yields belongs
    to a sampleable series. *)
Theorem iter_pass_general (w : World) :
  loader (snd (__iter__ w)) = loader w /\
  (length (yielded (fst (__iter__ w))) <= Z.to_nat (n_batches (loader w)))%nat /\
  (raised (fst (__iter__ w)) = None ->
   length (yielded (fst (__iter__ w))) = Z.to_nat (n_batches (loader w))) /\
  Forall (fun b => Forall (fun i => In i (sampleable_ts_idxs (loader w))) (b_idxs b))
         (yielded (fst (__iter__ w))).
Proof.
  unfold __iter__.
  assert (Hrange : length (py_range (n_batches (loader w)))
                   = Z.to_nat (n_batches (loader w)))
    by (unfold py_range; apply length_seq).
  destruct (shuffle (loader w)).
  - unfold np_random_choice.
    destruct (choice (sampleable_ts_idxs (loader w)) (n_sampleable_ts (loader w))
                     false (random_state w)) as [[drawn|e] g] eqn:Ech.
    + assert (Hin : Forall (fun i => In i (sampleable_ts_idxs (loader w))) drawn).
      { unfold choice in Ech.
        destruct (n_sampleable_ts (loader w) <? 0); [discriminate|].
        destruct ((length (sampleable_ts_idxs (loader w)) =? 0)%nat
                  && negb (n_sampleable_ts (loader w) =? 0)); [discriminate|].
        destruct (Z.of_nat (length (sampleable_ts_idxs (loader w)))
                  <? n_sampleable_ts (loader w)); [discriminate|].
        destruct (permutation _ _) as [idx g0]. injection Ech as Ht _.
        eapply take_In. exact Ht. }
      destruct (iter_loop_general drawn (py_range (n_batches (loader w)))
                  {| loader := loader w; random_state := g |})
        as [Hl [Hle [Hn Hb]]].
      cbn [loader] in *. rewrite Hrange in *.
      split; [exact Hl|]. split; [exact Hle|]. split; [exact Hn|].
      eapply Forall_impl; [|exact Hb]. intros b Hbi. simpl in Hbi.
      eapply Forall_impl; [|exact Hbi]. intros i Hi. simpl in Hi.
      eapply Forall_forall in Hin; eassumption.
    + cbn [fst snd yielded raised loader length].
      split; [reflexivity|]. split; [lia|]. split; [discriminate | constructor].
  - unfold retM.
    destruct (iter_loop_general (sampleable_ts_idxs (loader w))
                (py_range (n_batches (loader w))) w) as [Hl [Hle [Hn Hb]]].
    rewrite Hrange in *. repeat split; assumption.
Qed.

Lemma iter_pass_general_witness :
  length (yielded (fst (__iter__ (demo_world false true)))) =
  Z.to_nat (n_batches (loader (demo_world false true))).
Proof.
  apply (proj1 (proj2 (proj2 (iter_pass_general (demo_world false true))))).
  vm_compute. reflexivity.
Defined.

(** The slices of a pass over [l], when [n_batches] is the ceiling of
    [length l / n_series_per_batch]. *)
Lemma pass_chunks_cover (self : TimeSeriesLoader) (l : list nat) :
  0 < n_series_per_batch self ->
  (n_batches self - 1) * n_series_per_batch self < Z.of_nat (length l)
    <= n_batches self * n_series_per_batch self ->
  length (pass_chunks self l) = Z.to_nat (n_batches self) /\
  concat (pass_chunks self l) = l /\
  Forall (fun ch => ch <> [] /\
                    (length ch <= Z.to_nat (n_series_per_batch self))%nat)
         (pass_chunks self l).
Proof.
  intros Hb Hceil.
  assert (Hm : 0 <= n_batches self) by nia.
  rewrite pass_chunks_firstn by lia.
  split; [rewrite length_map, length_seq; reflexivity|]. split.
  - apply concat_chunks; [lia|].
    apply Nat2Z.inj_le. rewrite Nat2Z.inj_mul, !Z2Nat.id by lia. lia.
  - apply Forall_map. apply Forall_forall. intros i Hi. apply in_seq in Hi.
    split.
    + intros Hnil. apply (f_equal (@length nat)) in Hnil.
      rewrite length_firstn, length_skipn in Hnil. simpl in Hnil.
      assert (Z.of_nat i * n_series_per_batch self < Z.of_nat (length l)) by nia.
      assert (i * Z.to_nat (n_series_per_batch self) < length l)%nat.
      { apply Nat2Z.inj_lt. rewrite Nat2Z.inj_mul, Z2Nat.id by lia. lia. }
      lia.
    + rewrite length_firstn. lia.
Qed.

(** X13: a shuffled pass of a constructed loader with a positive
    [n_series_per_batch].  The draw of the series order cannot fail and
    leaves the loader alone; the order drawn is a rearrangement of the
    sampleable series, each appearing once; the pass then goes through its
    [n_batches] consecutive slices, none empty, none longer than
    [n_series_per_batch], which together are the order drawn. *)
Theorem iter_shuffle_pass (a : InitArgs) (self : TimeSeriesLoader) (g : RandomState) :
  __init__ a = Ok self ->
  shuffle self = true ->
  0 < n_series_per_batch self ->
  let w := {| loader := self; random_state := g |} in
  exists sample_idxs g',
    np_random_choice (sampleable_ts_idxs self) (n_sampleable_ts self) false w
      = (Ok sample_idxs, {| loader := self; random_state := g' |}) /\
    Permutation sample_idxs (sampleable_ts_idxs self) /\
    NoDup sample_idxs /\
    __iter__ w = iter_loop sample_idxs (py_range (n_batches self))
                           {| loader := self; random_state := g' |} /\
    length (pass_chunks self sample_idxs) = Z.to_nat (n_batches self) /\
    concat (pass_chunks self sample_idxs) = sample_idxs /\
    Forall (fun ch => ch <> [] /\
                      (length ch <= Z.to_nat (n_series_per_batch self))%nat)
           (pass_chunks self sample_idxs).
Proof.
  intros Hinit Hsh Hb w.
  destruct (init_ok_attributes _ _ Hinit) as [_ [_ [_ [_ [_ [_ [_ [Hn Hnb]]]]]]]].
  destruct (choice_all_without_replacement (sampleable_ts_idxs self) g)
    as [drawn [g' [Hch Hperm]]].
  assert (Hnd : NoDup (sampleable_ts_idxs self)).
  { pose proof (init_ok_inv _ _ Hinit)
      as [lsc [self1 [self2 [_ [_ [_ [_ [_ [H2 ->]]]]]]]]].
    apply define_sampleable_ts_idxs_ok in H2. destruct H2 as [c [rows [_ [_ ->]]]].
    simpl. apply nonzero_from_NoDup. }
  assert (Hdraw : np_random_choice (sampleable_ts_idxs self) (n_sampleable_ts self)
                    false w = (Ok drawn, {| loader := self; random_state := g' |})).
  { unfold np_random_choice, w. cbn [loader random_state]. rewrite Hn, Hch.
    reflexivity. }
  exists drawn, g'. split; [exact Hdraw|]. split; [exact Hperm|].
  split; [eapply Permutation_NoDup; [apply Permutation_sym; exact Hperm | exact Hnd]|].
  split.
  - unfold __iter__. cbn [loader w]. rewrite Hsh. fold w. rewrite Hdraw. reflexivity.
  - apply pass_chunks_cover; [exact Hb|].
    rewrite (Permutation_length Hperm), <- Hn, Hnb.
    apply ceil_div_bounds. exact Hb.
Qed.

Lemma iter_shuffle_pass_witness :
  exists sample_idxs,
    Permutation sample_idxs (sampleable_ts_idxs (demo_loader false true)) /\
    concat (pass_chunks (demo_loader false true) sample_idxs) = sample_idxs.
Proof.
  destruct (iter_shuffle_pass (demo_args "nbeats" false true)
              (demo_loader false true) demo_random)
    as [sample_idxs [g' [_ [Hperm [_ [_ [_ [Hcat _]]]]]]]].
  - reflexivity.
  - reflexivity.
  - vm_compute. reflexivity.
  - exists sample_idxs. split; [exact Hperm | exact Hcat].
Defined.

(** X14: the sign of [batch_size] is not checked.  With the default
    [n_series_per_batch] and a negative [batch_size], an otherwise valid
    configuration passes both batch-size protections and constructs a
    loader; its [n_batches] is not positive, so every pass, shuffled or
    not, yields nothing and raises nothing. *)
Theorem negative_batch_size_silent (a : InitArgs) :
  arg_n_series_per_batch a = None ->
  arg_batch_size a < 0 ->
  0 <= n_series (arg_ts_dataset a) ->
  known_family (arg_model a) ->
  ~ chunks_too_short a ->
  store_has_sample_mask (arg_ts_dataset a) ->
  exists self,
    __init__ a = Ok self /\
    n_series_per_batch self = arg_batch_size a /\
    n_batches self <= 0 /\
    forall g, fst (__iter__ {| loader := self; random_state := g |})
              = {| yielded := []; raised := None |}.
Proof.
  intros Hnone Hneg Hns Hfam Hlsc Hstore.
  assert (Hres : resolved_n_series_per_batch a = arg_batch_size a).
  { unfold resolved_n_series_per_batch. rewrite Hnone. lia. }
  assert (Hnz : resolved_n_series_per_batch a <> 0) by lia.
  assert (Hgood : ~ invalid_configuration a).
  { unfold invalid_configuration. rewrite Hres.
    intros [H|[H|[H|H]]]; [contradiction | contradiction | | lia].
    apply H. exists 1. lia. }
  destruct (init_valid_ok a Hnz Hgood Hstore) as [self Hinit].
  destruct (init_ok_attributes _ _ Hinit) as [_ [_ [_ [_ [_ [_ [Hb [Hn Hnb]]]]]]]].
  rewrite Hres in Hb.
  assert (Hle : n_batches self <= 0).
  { pose proof (ceil_div_bounds_neg (n_sampleable_ts self) (n_series_per_batch self)
                  ltac:(lia)) as Hc.
    rewrite <- Hnb in Hc. nia. }
  exists self. split; [exact Hinit|]. split; [exact Hb|]. split; [exact Hle|].
  intros g. unfold __iter__. cbn [loader].
  assert (Hr : py_range (n_batches self) = []).
  { unfold py_range. replace (Z.to_nat (n_batches self)) with 0%nat by lia.
    reflexivity. }
  rewrite Hr. destruct (shuffle self).
  - unfold np_random_choice. cbn [loader random_state]. rewrite Hn.
    destruct (choice_all_without_replacement (sampleable_ts_idxs self) g)
      as [drawn [g' [Hch _]]].
    rewrite Hch. reflexivity.
  - reflexivity.
Qed.

Lemma negative_batch_size_silent_witness :
  exists self,
    __init__ demo_args_negative = Ok self /\
    n_batches self <= 0.
Proof.
  destruct (negative_batch_size_silent demo_args_negative)
    as [self [Hinit [_ [Hle _]]]].
  - reflexivity.
  - reflexivity.
  - vm_compute. discriminate.
  - left. reflexivity.
  - intros [l [H _]]. discriminate.
  - exists 2%nat. split; [reflexivity|]. repeat constructor.
  - exists self. split; [exact Hinit | exact Hle].
Defined.

(** ** The two completeness policies compared *)

(** X15: on the same windows, [complete_inputs] only removes eligible
    windows: whenever the check succeeds under [complete_inputs], it also
    succeeds without it, and returns every position the stricter check
    returned. *)
Theorem complete_inputs_only_removes_windows
    (self1 self2 : TimeSeriesLoader) (ws : Tensor3) (l1 : list nat) :
  ts_dataset self1 = ts_dataset self2 ->
  output_size self1 = output_size self2 ->
  complete_inputs self1 = true ->
  complete_inputs self2 = false ->
  _get_sampleable_windows_idxs self1 ws = Ok l1 ->
  exists l2, _get_sampleable_windows_idxs self2 ws = Ok l2 /\ incl l1 l2.
Proof.
  intros Hds Hout Hc1 Hc2 H1.
  apply get_sampleable_windows_idxs_ok in H1. destruct H1 as [H1 Hne].
  unfold sampling_idx in H1. rewrite Hc1 in H1.
  apply bind_ok in H1. destruct H1 as [c [Hc H1]].
  apply bind_ok in H1. destruct H1 as [rows [Hrows H1]].
  apply bind_ok in H1. destruct H1 as [c' [Hc' H1]].
  apply bind_ok in H1. destruct H1 as [rows' [Hrows' H1]].
  injection H1 as Hl1.
  set (l2 := nonzero (map (fun v => negb (v =? 0))
               (map (eq_flag (output_size self2))
                  (map (fun r => sumZ (py_slice (Some (- output_size self2)) None r))
                     rows)))).
  assert (H2 : sampling_idx self2 ws = Ok l2).
  { unfold sampling_idx. rewrite <- Hds, Hc. cbn [bind]. rewrite Hrows. cbn [bind].
    rewrite Hc2. reflexivity. }
  assert (Hincl : incl l1 l2).
  { intros i Hi. rewrite <- Hl1 in Hi. apply nonzero_In in Hi.
    rewrite !map_map, nth_error_map_combine in Hi.
    destruct (nth_error rows' i) as [am|]; [|discriminate].
    destruct (nth_error rows i) as [sm|] eqn:Esm; [|discriminate].
    inversion Hi as [Hprod]. apply eq_flag_product in Hprod.
    destruct Hprod as [_ Hs].
    unfold l2. apply nonzero_In. rewrite !map_map, nth_error_map, Esm. simpl.
    f_equal. apply eq_flag_nonzero. rewrite <- Hout. exact Hs. }
  exists l2. split; [|exact Hincl].
  rewrite get_sampleable_windows_idxs_cases, H2.
  destruct l2 as [|i l2']; [|reflexivity].
  destruct l1 as [|i l1']; [contradiction|].
  exfalso. apply (Hincl i). left. reflexivity.
Qed.

Lemma complete_inputs_only_removes_windows_witness :
  exists l2,
    _get_sampleable_windows_idxs (demo_loader false false) demo_windows = Ok l2 /\
    incl [2; 3]%nat l2.
Proof.
  apply (complete_inputs_only_removes_windows (demo_loader true false)
           (demo_loader false false) demo_windows [2; 3]%nat);
    reflexivity.
Defined.

(** X16: [complete_inputs] only removes sampleable series: for the same
    arguments with a non-negative [input_size], every series that is
    sampleable under [complete_inputs] is sampleable without it. *)
Theorem complete_inputs_only_removes_series
    (a : InitArgs) (self1 self2 : TimeSeriesLoader) :
  0 <= arg_input_size a ->
  __init__ (with_complete_inputs a true) = Ok self1 ->
  __init__ (with_complete_inputs a false) = Ok self2 ->
  incl (sampleable_ts_idxs self1) (sampleable_ts_idxs self2).
Proof.
  intros Hin H1 H2.
  apply init_ok_inv in H1.
  destruct H1 as [lsc1 [s1 [s1' [Hlsc1 [_ [_ [_ [Hm1 [Hd1 ->]]]]]]]]].
  apply init_ok_inv in H2.
  destruct H2 as [lsc2 [s2 [s2' [_ [_ [_ [_ [Hm2 [Hd2 ->]]]]]]]]].
  pose proof (define_sampleable_ts_idxs_In _ _ Hd1) as HI1.
  pose proof (define_sampleable_ts_idxs_In _ _ Hd2) as HI2.
  cbn [sampleable_ts_idxs set_n_batches].
  assert (Hlsc : arg_input_size a + arg_output_size a <= lsc1).
  { simpl in Hlsc1. destruct Hlsc1 as [[_ ->]|[_ Hl]]; lia. }
  apply define_attributes_by_model_ok in Hm1.
  apply define_attributes_by_model_ok in Hm2.
  assert (Hds : ts_dataset s1 = ts_dataset s2).
  { destruct Hm1 as [[_ ->]|[_ ->]]; destruct Hm2 as [[_ ->]|[_ ->]]; reflexivity. }
  assert (Hth : series_threshold s2 <= series_threshold s1).
  { unfold series_threshold.
    destruct Hm1 as [[_ ->]|[_ ->]]; destruct Hm2 as [[_ ->]|[_ ->]];
      simpl; lia. }
  intros i Hi. apply HI1 in Hi. destruct Hi as [s [Hs Hlt]].
  apply HI2. exists s. rewrite <- Hds. split; [exact Hs | lia].
Qed.

Lemma complete_inputs_only_removes_series_witness :
  incl (sampleable_ts_idxs (demo_loader true false))
       (sampleable_ts_idxs (demo_loader false false)).
Proof.
  apply (complete_inputs_only_removes_series (demo_args "nbeats" true false)).
  - simpl. lia.
  - reflexivity.
  - reflexivity.
Defined.

(** X17: what the eligibility check returns when it returns: a vector that
    is not empty, strictly increasing (so without repetition), of positions
    inside the window tensor. *)
Theorem get_sampleable_windows_idxs_sorted
    (self : TimeSeriesLoader) (ws : Tensor3) (idxs : list nat) :
  _get_sampleable_windows_idxs self ws = Ok idxs ->
  idxs <> [] /\
  StronglySorted lt idxs /\
  Forall (fun i => (i < length ws)%nat) idxs.
Proof.
  intros H. apply get_sampleable_windows_idxs_ok in H. destruct H as [H Hne].
  split; [exact Hne|]. split; [|eapply sampling_idx_lt; exact H].
  unfold sampling_idx in H.
  apply bind_ok in H. destruct H as [c [_ H]].
  apply bind_ok in H. destruct H as [rows [_ H]].
  destruct (complete_inputs self).
  - apply bind_ok in H. destruct H as [c' [_ H]].
    apply bind_ok in H. destruct H as [rows' [_ H]].
    inversion H. apply nonzero_from_sorted.
  - inversion H. apply nonzero_from_sorted.
Qed.

Lemma get_sampleable_windows_idxs_sorted_witness :
  _get_sampleable_windows_idxs (demo_loader false false) demo_windows
    = Ok [0; 1; 2; 3; 7]%nat /\
  StronglySorted lt [0; 1; 2; 3; 7]%nat.
Proof.
  assert (E : _get_sampleable_windows_idxs (demo_loader false false) demo_windows
              = Ok [0; 1; 2; 3; 7]%nat) by reflexivity.
  split; [exact E|].
  apply (get_sampleable_windows_idxs_sorted (demo_loader false false) demo_windows
           [0; 1; 2; 3; 7]%nat E).
Defined.

(** ** Overlap of consecutive windows *)

Lemma frame_overlap (size step : Z) (row : list Z) (j : nat) :
  skipn (Z.to_nat step) (frame size step row j) =
  firstn (Z.to_nat size - Z.to_nat step) (frame size step row (S j)).
Proof.
  unfold frame. rewrite skipn_firstn_comm, skipn_skipn, firstn_firstn.
  replace (Z.to_nat step + j * Z.to_nat step)%nat with (S j * Z.to_nat step)%nat
    by lia.
  f_equal. lia.
Qed.

(** X18: consecutive windows of a series overlap.  Whenever windowing goes
    through, the window after window [j] of a series starts [stride] steps
    later: in every channel, what is left of window [j] after its first
    [stride] steps is the beginning of window [j + 1]. *)
Theorem create_windows_tensor_overlap
    (self : TimeSeriesLoader) (index : list nat) (tensor padded : Tensor3) (len : nat) :
  let n := length index in
  let k := n_frames len (windows_size self) (idx_to_sample_freq self) in
  get_filtered_ts_tensor (ts_dataset self) (output_size self)
    (window_sampling_limit self) (Some index) = Some tensor ->
  padder (padding self) tensor = Ok padded ->
  tensor_shape n (n_channels (ts_dataset self)) len padded ->
  (0 < n)%nat -> (0 < n_channels (ts_dataset self))%nat ->
  0 < windows_size self <= Z.of_nat len ->
  0 < idx_to_sample_freq self ->
  Forall (fun i => (i < length (s_matrix (ts_dataset self)))%nat) index ->
  exists windows s_rows ts_idxs,
    _create_windows_tensor self (Some index) = Ok (windows, s_rows, ts_idxs) /\
    forall s j, (s < n)%nat -> (S j < k)%nat ->
      exists w1 w2,
        nth_error windows (s * k + j) = Some w1 /\
        nth_error windows (s * k + S j) = Some w2 /\
        map (skipn (Z.to_nat (idx_to_sample_freq self))) w1 =
        map (firstn (Z.to_nat (windows_size self)
                     - Z.to_nat (idx_to_sample_freq self))) w2.
Proof.
  intros n k Hget Hpad Hshape Hn Hc Hw Hs Hidx.
  destruct (take_total _ _ Hidx) as [rows Hrows].
  pose proof (create_windows_tensor_run self index tensor padded len rows
                Hget Hpad Hshape Hn Hc Hw Hs Hrows) as Hrun.
  cbv zeta in Hrun. fold k in Hrun.
  eexists _, _, _. split; [exact Hrun|].
  intros s j Hsn Hj.
  destruct Hshape as [Hlen _].
  destruct (nth_error padded s) as [series|] eqn:Es.
  2:{ apply nth_error_None in Es. unfold n in Hsn. lia. }
  exists (window_at (windows_size self) (idx_to_sample_freq self) series j),
         (window_at (windows_size self) (idx_to_sample_freq self) series (S j)).
  split; [|split].
  - rewrite windows_of_nth_error by lia. rewrite Es. reflexivity.
  - rewrite windows_of_nth_error by lia. rewrite Es. reflexivity.
  - unfold window_at. rewrite !map_map. apply map_ext. intros row.
    apply frame_overlap.
Qed.

Lemma create_windows_tensor_overlap_witness :
  exists windows s_rows ts_idxs w1 w2,
    _create_windows_tensor (demo_loader false false) (Some [0; 1]%nat)
      = Ok (windows, s_rows, ts_idxs) /\
    nth_error windows 6 = Some w1 /\
    nth_error windows 7 = Some w2 /\
    map (skipn 1) w1 = map (firstn 2) w2.
Proof.
  destruct (create_windows_tensor_overlap (demo_loader false false) [0; 1]%nat
              demo_tensor demo_padded 7)
    as [windows [s_rows [ts_idxs [Hrun Hov]]]].
  - reflexivity.
  - reflexivity.
  - split; [reflexivity|]. repeat constructor.
  - simpl. lia.
  - simpl. lia.
  - simpl. lia.
  - simpl. lia.
  - repeat constructor.
  - destruct (Hov 1%nat 1%nat) as [w1 [w2 [H1 [H2 H3]]]].
    + simpl. lia.
    + vm_compute. lia.
    + exists windows, s_rows, ts_idxs, w1, w2.
      split; [exact Hrun|]. split; [exact H1|]. split; [exact H2|]. exact H3.
Defined.

(** ** Padding is never eligible *)

Lemma sumZ_bounded_with_zero (l : list Z) :
  Forall (fun x => x <= 1) l ->
  forall i, (i < length l)%nat -> nth i l 0 = 0 ->
            sumZ l <= Z.of_nat (length l) - 1.
Proof.
  assert (Hall : forall l', Forall (fun x => x <= 1) l' ->
                            sumZ l' <= Z.of_nat (length l')).
  { induction 1 as [|x l' Hx _ IH]; simpl; [lia|]. lia. }
  induction 1 as [|x l Hx Hl IH]; intros i Hi Hz; [simpl in Hi; lia|].
  change (sumZ (x :: l)) with (x + sumZ l).
  change (length (x :: l)) with (S (length l)) in *.
  rewrite Nat2Z.inj_succ.
  destruct i as [|i]; cbn [nth] in Hz.
  - subst x. pose proof (Hall l Hl). lia.
  - pose proof (IH i ltac:(lia) Hz). lia.
Qed.

Lemma Forall_firstn_skipn {A : Type} (P : A -> Prop) (n m : nat) (l : list A) :
  Forall P l -> Forall P (firstn n (skipn m l)).
Proof.
  intros H. rewrite <- (firstn_skipn m l) in H. apply Forall_app in H.
  destruct H as [_ H]. rewrite <- (firstn_skipn n (skipn m l)) in H.
  apply Forall_app in H. tauto.
Qed.

Lemma zero_padded_bounded (p : Z * Z) (row : list Z) :
  Forall (fun x => x <= 1) row -> Forall (fun x => x <= 1) (zero_padded p row).
Proof.
  intros H. unfold zero_padded. apply Forall_app. split; [|apply Forall_app; split].
  - apply Forall_forall. intros x Hx. apply repeat_spec in Hx. lia.
  - exact H.
  - apply Forall_forall. intros x Hx. apply repeat_spec in Hx. lia.
Qed.

(** The channel called [name] of window [j] of a padded series. *)
Lemma named_channel_window_at (self : TimeSeriesLoader) (name : string)
    (size step : Z) (p : Z * Z) (series : list (list Z)) (j : nat) (wrow : list Z) :
  named_channel self name (window_at size step (map (zero_padded p) series) j)
    = Some wrow ->
  exists row, named_channel self name series = Some row /\
              wrow = frame size step (zero_padded p row) j.
Proof.
  unfold named_channel, window_at.
  destruct (list_index name (t_cols (ts_dataset self))) as [c|]; [|discriminate].
  rewrite map_map, nth_error_map.
  destruct (nth_error series c) as [row|]; [|discriminate].
  simpl. intros H. inversion H. eauto.
Qed.

(** X19: for the nbeats family with masks whose entries are at most one, no
    eligible window reaches into the padding with its target: the target of
    window [j] of a series, the steps [j * stride] to
    [j * stride + output_size - 1], lies inside the series.  Under
    [complete_inputs] its input does not reach into the left padding
    either: [input_size <= j * stride]. *)
Theorem nbeats_eligible_inside_series
    (self : TimeSeriesLoader) (index : list nat) (tensor : Tensor3) (len : nat)
    (windows : Tensor3) (s_rows : list (list Z)) (ts_idxs eligible : list nat) :
  let n := length index in
  let k := Z.to_nat (Z.of_nat len / idx_to_sample_freq self + 1) in
  padding self = (input_size self, output_size self) ->
  windows_size self = input_size self + output_size self ->
  0 <= input_size self -> 0 < output_size self ->
  0 < idx_to_sample_freq self ->
  get_filtered_ts_tensor (ts_dataset self) (output_size self)
    (window_sampling_limit self) (Some index) = Some tensor ->
  tensor_shape n (n_channels (ts_dataset self)) len tensor ->
  (0 < n_channels (ts_dataset self))%nat ->
  mask_bounded self "sample_mask" tensor ->
  mask_bounded self "available_mask" tensor ->
  _create_windows_tensor self (Some index) = Ok (windows, s_rows, ts_idxs) ->
  _get_sampleable_windows_idxs self windows = Ok eligible ->
  forall s j, (s < n)%nat -> (j < k)%nat -> In (s * k + j)%nat eligible ->
    Z.of_nat j * idx_to_sample_freq self + output_size self <= Z.of_nat len /\
    (complete_inputs self = true ->
     input_size self <= Z.of_nat j * idx_to_sample_freq self).
Proof.
  intros n k Hpad Hw Hin Hout Hs Hget Hshape Hc Hsm Ham Hcreate Hel s j Hsn Hj Hi.
  assert (Hn : (0 < n)%nat) by lia.
  set (plen := (Z.to_nat (input_size self) + len + Z.to_nat (output_size self))%nat).
  assert (Hpadder : padder (padding self) tensor
                    = Ok (map (map (zero_padded (padding self))) tensor)).
  { apply padder_nonneg; rewrite Hpad; simpl; lia. }
  assert (Hpshape : tensor_shape n (n_channels (ts_dataset self)) plen
                      (map (map (zero_padded (padding self))) tensor)).
  { pose proof (padded_shape (padding self) _ _ _ _ Hshape) as H.
    rewrite Hpad in H. simpl in H. rewrite Hpad. exact H. }
  assert (Hk : n_frames plen (windows_size self) (idx_to_sample_freq self) = k).
  { unfold n_frames, k, plen. f_equal. f_equal. f_equal. lia. }
  pose proof (create_windows_tensor_some_inv _ _ _ _ _ Hcreate)
    as [t0 [p0 [u0 [rows [k0 [_ [_ [_ [Hresh [Hrows _]]]]]]]]]].
  pose proof (create_windows_tensor_run self index tensor _ plen rows
                Hget Hpadder Hpshape Hn Hc ltac:(unfold plen; lia) Hs Hrows) as Hrun.
  cbv zeta in Hrun. rewrite Hk in Hrun. rewrite Hrun in Hcreate.
  injection Hcreate as Hwin _ _.
  apply reshape_shape in Hresh. destruct Hresh as [_ [_ Hwshape]].
  assert (Hshape' : Forall (fun win => rows_of_length (windows_size self) win) windows).
  { eapply Forall_impl; [|exact Hwshape]. intros win [_ H]. exact H. }
  pose proof (get_sampleable_windows_idxs_In _ _ _ Hout Hshape' Hel _ Hi)
    as [win [Hnth Helig]].
  rewrite <- Hwin in Hnth. rewrite windows_of_nth_error in Hnth by exact Hj.
  rewrite nth_error_map in Hnth.
  destruct (nth_error tensor s) as [series|] eqn:Eser; [|discriminate].
  simpl in Hnth. inversion Hnth. subst win. clear Hnth.
  assert (Hserin : In series tensor) by (eapply nth_error_In; exact Eser).
  destruct Hshape as [_ Hrowsshape].
  pose proof (proj1 (Forall_forall _ _) Hrowsshape series Hserin) as [_ Hrowlen].
  assert (Hoff : (j * Z.to_nat (idx_to_sample_freq self)
                  + Z.to_nat (windows_size self) <= plen)%nat).
  { apply n_frames_offset; [exact Hs | unfold plen; lia | rewrite Hk; exact Hj]. }
  assert (Hframe : forall name row wrow,
            named_channel self name series = Some row ->
            wrow = frame (windows_size self) (idx_to_sample_freq self)
                         (zero_padded (padding self) row) j ->
            length row = len /\
            length wrow = Z.to_nat (windows_size self) /\
            forall t, (t < Z.to_nat (windows_size self))%nat ->
                      nth t wrow 0 =
                      nbeats_entry (input_size self) (idx_to_sample_freq self) row j t).
  { intros name row wrow Hrow ->.
    assert (Hlen : length row = len).
    { apply named_channel_In in Hrow. destruct Hrow as [c [_ Hc']].
      eapply Forall_forall in Hrowlen; [exact Hrowlen|].
      eapply nth_error_In. exact Hc'. }
    split; [exact Hlen|]. split.
    - unfold frame. rewrite length_firstn, length_skipn, zero_padded_length, Hpad.
      simpl. rewrite Hlen. fold plen. lia.
    - intros t Ht. rewrite frame_nth by exact Ht.
      rewrite zero_padded_nth, Hpad. reflexivity. }
  assert (Hsc : sample_complete self
                  (window_at (windows_size self) (idx_to_sample_freq self)
                             (map (zero_padded (padding self)) series) j)).
  { unfold window_eligible in Helig. destruct (complete_inputs self); tauto. }
  split.
  - destruct Hsc as [sm [Hname Hsum]].
    apply named_channel_window_at in Hname. destruct Hname as [row [Hrow Hsmeq]].
    destruct (Hframe _ _ _ Hrow Hsmeq) as [Hlen [Hsmlen Hentry]].
    assert (Hb : Forall (fun x => x <= 1) row).
    { eapply Forall_forall in Hsm; [|exact Hserin]. apply Hsm. exact Hrow. }
    destruct (Z_le_gt_dec (Z.of_nat j * idx_to_sample_freq self + output_size self)
                          (Z.of_nat len)) as [Hok|Hbad]; [exact Hok|].
    exfalso.
    set (o := Z.to_nat (output_size self)) in *.
    set (tail := last_steps o sm) in *.
    assert (Htl : length tail = o).
    { unfold tail, last_steps. rewrite length_skipn, Hsmlen. unfold o. lia. }
    assert (Htb : Forall (fun x => x <= 1) tail).
    { unfold tail, last_steps. rewrite <- (firstn_all (skipn _ sm)).
      apply Forall_firstn_skipn. rewrite Hsmeq. unfold frame.
      apply Forall_firstn_skipn. apply zero_padded_bounded. exact Hb. }
    assert (Hz : nth (o - 1) tail 0 = 0).
    { unfold tail, last_steps. rewrite nth_skipn, Hsmlen.
      rewrite Hentry by (unfold o; lia).
      unfold nbeats_entry.
      destruct (Nat.ltb_spec
                  (j * Z.to_nat (idx_to_sample_freq self)
                   + (Z.to_nat (windows_size self) - o + (o - 1)))
                  (Z.to_nat (input_size self))) as [|_]; [reflexivity|].
      apply nth_overflow. rewrite Hlen. unfold o.
      apply Nat2Z.inj_le.
      rewrite Nat2Z.inj_sub by lia.
      rewrite Nat2Z.inj_add, Nat2Z.inj_mul, Nat2Z.inj_add, !Nat2Z.inj_sub by lia.
      rewrite !Z2Nat.id by lia. simpl Z.of_nat. lia. }
    pose proof (sumZ_bounded_with_zero tail Htb (o - 1)%nat
                  ltac:(rewrite Htl; unfold o; lia) Hz) as Hbound.
    rewrite Htl, Hsum in Hbound. unfold o in Hbound. lia.
  - intros Hci. unfold window_eligible in Helig. rewrite Hci in Helig.
    destruct Helig as [_ [am [Hname Hsum]]].
    apply named_channel_window_at in Hname. destruct Hname as [row [Hrow Hameq]].
    destruct (Hframe _ _ _ Hrow Hameq) as [Hlen [Hamlen Hentry]].
    assert (Hb : Forall (fun x => x <= 1) row).
    { eapply Forall_forall in Ham; [|exact Hserin]. apply Ham. exact Hrow. }
    destruct (Z_le_gt_dec (input_size self) (Z.of_nat j * idx_to_sample_freq self))
      as [Hok|Hbad]; [exact Hok|].
    exfalso.
    set (i := Z.to_nat (windows_size self - output_size self)) in *.
    set (head := firstn i am) in *.
    assert (Hhl : length head = i).
    { unfold head. rewrite length_firstn, Hamlen. unfold i. lia. }
    assert (Hhb : Forall (fun x => x <= 1) head).
    { unfold head. rewrite <- (skipn_O am) at 1.
      apply Forall_firstn_skipn. rewrite Hameq. unfold frame.
      apply Forall_firstn_skipn. apply zero_padded_bounded. exact Hb. }
    assert (Hz : nth 0 head 0 = 0).
    { unfold head. rewrite nth_firstn.
      destruct (Nat.ltb_spec 0 i) as [_|Hi0]; [|reflexivity].
      rewrite Hentry by lia. unfold nbeats_entry.
      destruct (Nat.ltb_spec (j * Z.to_nat (idx_to_sample_freq self) + 0)
                             (Z.to_nat (input_size self))) as [_|Hge];
        [reflexivity|].
      exfalso. apply Nat2Z.inj_le in Hge.
      rewrite Nat2Z.inj_add, Nat2Z.inj_mul, !Z2Nat.id in Hge by lia.
      simpl Z.of_nat in Hge. lia. }
    assert (Hipos : (0 < i)%nat) by (unfold i; lia).
    pose proof (sumZ_bounded_with_zero head Hhb 0%nat
                  ltac:(rewrite Hhl; exact Hipos) Hz) as Hbound.
    rewrite Hhl, Hsum in Hbound. unfold i in Hbound. lia.
Qed.

Lemma nbeats_eligible_inside_series_witness :
  _get_sampleable_windows_idxs (demo_loader true false) demo_windows
    = Ok [2; 3]%nat /\
  2 * idx_to_sample_freq (demo_loader true false)
    + output_size (demo_loader true false) <= 4 /\
  input_size (demo_loader true false)
    <= 2 * idx_to_sample_freq (demo_loader true false).
Proof.
  assert (E : _get_sampleable_windows_idxs (demo_loader true false) demo_windows
              = Ok [2; 3]%nat) by reflexivity.
  split; [exact E|].
  assert (Hsm : mask_bounded (demo_loader true false) "sample_mask" demo_tensor).
  { unfold mask_bounded, demo_tensor.
    constructor; [|constructor; [|constructor]];
      (intros row H; vm_compute in H; inversion H; repeat constructor; lia). }
  assert (Ham : mask_bounded (demo_loader true false) "available_mask" demo_tensor).
  { unfold mask_bounded, demo_tensor.
    constructor; [|constructor; [|constructor]];
      (intros row H; vm_compute in H; inversion H; repeat constructor; lia). }
  destruct (nbeats_eligible_inside_series (demo_loader true false) [0; 1]%nat
              demo_tensor 4 demo_windows (np_repeat 5 [[10]; [20]])
              (np_repeat 5 [0; 1]%nat) [2; 3]%nat) with (s := 0%nat) (j := 2%nat)
    as [H1 H2].
  - reflexivity.
  - reflexivity.
  - simpl. lia.
  - simpl. lia.
  - simpl. lia.
  - reflexivity.
  - split; [reflexivity|]. repeat constructor.
  - simpl. lia.
  - exact Hsm.
  - exact Ham.
  - reflexivity.
  - exact E.
  - simpl. lia.
  - vm_compute. lia.
  - left. reflexivity.
  - split; [exact H1 | exact (H2 eq_refl)].
Defined.

(** ** Inputs at the edge of the configuration space *)

(** C1 at a horizon of zero.  Construction accepts [output_size = 0].  The
    slice [row[-0:]] of the check is then the whole row, so the check returns
    the windows whose whole [sample_mask] is zero (positions 0, 5, 6 and 7 of
    the ten windows of the demo series) and not every window whose
    [sample_mask] sums to [output_size = 0] over the last zero steps:
    window 2, whose [sample_mask] is [1; 1], meets the condition as worded
    and is not returned. *)
Lemma zero_horizon_eligibility_counterexample :
  __init__ demo_args_zero_horizon = Ok demo_loader_zero_horizon /\
  output_size demo_loader_zero_horizon = 0 /\
  windows_well_formed demo_loader_zero_horizon demo_windows_zero_horizon /\
  _get_sampleable_windows_idxs demo_loader_zero_horizon demo_windows_zero_horizon
    = Ok [0; 5; 6; 7]%nat /\
  nth_error demo_windows_zero_horizon 2 = Some [[1; 2]; [1; 1]; [1; 1]] /\
  window_eligible demo_loader_zero_horizon [[1; 2]; [1; 1]; [1; 1]] /\
  ~ (forall i, In i [0; 5; 6; 7]%nat <->
               exists w, nth_error demo_windows_zero_horizon i = Some w /\
                         window_eligible demo_loader_zero_horizon w).
Proof.
  assert (He : window_eligible demo_loader_zero_horizon [[1; 2]; [1; 1]; [1; 1]]).
  { exists [1; 1]. split; reflexivity. }
  split; [reflexivity|]. split; [reflexivity|]. split.
  { split; [exists 2%nat; reflexivity|]. split; [exists 1%nat; reflexivity|].
    repeat constructor. }
  split; [reflexivity|]. split; [reflexivity|]. split; [exact He|].
  intros H.
  assert (Hin : In 2%nat [0; 5; 6; 7]%nat).
  { apply H. exists [[1; 2]; [1; 1]; [1; 1]]. split; [reflexivity | exact He]. }
  simpl in Hin. repeat (destruct Hin as [Hin|Hin]; [discriminate|]). exact Hin.
Qed.

(** C4 on an empty selection and on windows of no step.  For the empty
    selection the store returns a tensor of no series, padding goes through
    and the preconditions on the sizes hold, yet the engine does not return
    an empty window tensor: [len(windows) / n_ts] divides by zero.  With
    [windows_size = 0], which construction accepts and which is within
    [L >= W], the engine stops at [reshape] instead of returning the
    [n * k] windows. *)
Lemma degenerate_windowing_counterexample :
  (get_filtered_ts_tensor (ts_dataset (demo_loader false false))
     (output_size (demo_loader false false))
     (window_sampling_limit (demo_loader false false)) (Some []) = Some [] /\
   padder (padding (demo_loader false false)) [] = Ok [] /\
   tensor_shape 0 3 7 [] /\
   1 <= windows_size (demo_loader false false) <= 7 /\
   1 <= idx_to_sample_freq (demo_loader false false) /\
   _create_windows_tensor (demo_loader false false) (Some [])
     = Raise ZeroDivisionError) /\
  (__init__ demo_args_zero_window = Ok demo_loader_zero_window /\
   get_filtered_ts_tensor (ts_dataset demo_loader_zero_window)
     (output_size demo_loader_zero_window)
     (window_sampling_limit demo_loader_zero_window) (Some [0%nat])
     = Some [ [ [1; 2; 3; 4]; [1; 1; 1; 1]; [1; 1; 1; 1] ] ] /\
   padder (padding demo_loader_zero_window)
     [ [ [1; 2; 3; 4]; [1; 1; 1; 1]; [1; 1; 1; 1] ] ]
     = Ok [ [ [1; 2; 3; 4]; [1; 1; 1; 1]; [1; 1; 1; 1] ] ] /\
   windows_size demo_loader_zero_window = 0 /\
   1 <= idx_to_sample_freq demo_loader_zero_window /\
   _create_windows_tensor demo_loader_zero_window (Some [0%nat])
     = Raise RuntimeError).
Proof.
  split.
  - split; [reflexivity|]. split; [reflexivity|].
    split; [split; [reflexivity | constructor]|].
    split; [vm_compute; split; discriminate|].
    split; [vm_compute; discriminate | reflexivity].
  - split; [reflexivity|]. split; [reflexivity|]. split; [reflexivity|].
    split; [reflexivity|]. split; [vm_compute; discriminate | reflexivity].
Qed.


(** C6 with a stored [n_series_per_batch] of zero, and on a store without
    [sample_mask].  With [batch_size = 2] and [n_series_per_batch = 0] the
    configuration is invalid ([batch_size] is not a multiple of zero), yet
    construction raises no configuration error: the modulo of the first
    protection divides by zero.  With [batch_size = 0] and the default
    [n_series_per_batch], none of the four conditions holds and the store has
    its [sample_mask], yet construction fails in the same way.  On a store
    whose channel list has no [sample_mask], a configuration that meets none
    of the four conditions, with a nonzero [n_series_per_batch], does not
    construct either: [list.index] raises. *)
Lemma zero_series_per_batch_counterexample :
  (invalid_configuration demo_args_zero_per_batch /\
   __init__ demo_args_zero_per_batch = Raise ZeroDivisionError /\
   ~ (exists e, __init__ demo_args_zero_per_batch = Raise e /\
                ConfigurationError e)) /\
  (~ invalid_configuration demo_args_zero_batch_size /\
   store_has_sample_mask (arg_ts_dataset demo_args_zero_batch_size) /\
   __init__ demo_args_zero_batch_size = Raise ZeroDivisionError /\
   ~ (exists self, __init__ demo_args_zero_batch_size = Ok self)) /\
  (~ invalid_configuration demo_args_unmasked /\
   resolved_n_series_per_batch demo_args_unmasked = 2 /\
   __init__ demo_args_unmasked = Raise ValueError /\
   ~ (exists self, __init__ demo_args_unmasked = Ok self)).
Proof.
  split; [|split].
  3: { split; [|split; [reflexivity|split; [reflexivity|]]].
       - intros [H|[[l [H _]]|[H|H]]].
         + apply H. left. reflexivity.
         + discriminate.
         + apply H. exists 1. reflexivity.
         + vm_compute in H. discriminate.
       - intros [self H].
         change (__init__ demo_args_unmasked)
           with (@Raise TimeSeriesLoader ValueError) in H.
         discriminate. }
  - split; [|split; [reflexivity|]].
    + right. right. left. intros [z Hz].
      change (arg_batch_size demo_args_zero_per_batch) with 2 in Hz.
      change (resolved_n_series_per_batch demo_args_zero_per_batch) with 0 in Hz.
      lia.
    + intros [e [He Hc]].
      change (__init__ demo_args_zero_per_batch) with (@Raise TimeSeriesLoader ZeroDivisionError) in He.
      injection He as He. subst e.
      destruct Hc as [Hc|[Hc|[Hc|Hc]]]; discriminate.
  - split; [|split; [|split; [reflexivity|]]].
    + intros [H|[[l [H _]]|[H|H]]].
      * apply H. left. reflexivity.
      * discriminate.
      * apply H. exists 0. reflexivity.
      * vm_compute in H. discriminate.
    + exists 2%nat. split; [reflexivity|]. repeat constructor.
    + intros [self H].
      change (__init__ demo_args_zero_batch_size) with (@Raise TimeSeriesLoader ZeroDivisionError) in H.
      discriminate.
Qed.
